(** * Target-averaging encoders of [sklearn-pipeline.py]

    A shallow embedding of the two fitted encoders of the script
    ([ManagerSkill] and [CategoricalTransformer]) and of
    [create_submission], with the properties the specification states
    about them; and of [ColumnExtractor], [get_importance] and the
    row-wise feature engineering of the script (module [Script]), with
    properties read off the code.

    Modelling conventions.
    - A pandas data frame is a list of rows, in row order.
    - The script is Python 2 ([print X.shape]): [/] on two integers of
      numpy is the floor of the quotient, on two columns of pandas the
      quotient.
    - A Python float is a real number ([R]) in [CategoricalTransformer],
      whose smoothing weight needs [exp], and a rational ([Q]) in
      [ManagerSkill] and in [create_submission], where only field
      operations occur: the value before binary64 rounding.  Two effects
      of binary64 arithmetic are modelled where [fit] meets them:
      [math.exp] raises [OverflowError] above the largest binary64
      number, and the smoothing weight rounds to exactly 1.0
      ([lambda_binary64]).
    - NaN, the missing value of pandas, is [None].
    - A Python exception ([KeyError], [AttributeError],
      [OverflowError]) is the result [None] of a fallible operation.
    - The global random generator of numpy is the sequence of the draws
      it returns, with the number of draws made so far. *)

From Stdlib Require Import List String Ascii Bool Arith ZArith QArith Lia.
From Stdlib Require Import Reals Lra DecimalString.
From Stdlib Require Lqa OrderedTypeEx Permutation PrimFloat Qabs.
Import ListNotations.

(** ** Shared vocabulary *)

(** The values of the [interest_level] column. *)
Inductive interest_level : Type := high | medium | low.

Definition interest_level_eqb (a b : interest_level) : bool :=
  match a, b with
  | high, high | medium, medium | low, low => true
  | _, _ => false
  end.

(** [target_num_map = {'high':0, 'medium':1, 'low':2}] *)
Definition target_num_map (l : interest_level) : nat :=
  match l with high => 0 | medium => 1 | low => 2 end.

(** *** Group keys

    [groupby] returns one group per distinct key, keys in ascending
    order.  Categorical columns hold the integer codes [LabelEncoder]
    assigned to them. *)

Fixpoint insert_key (k : Z) (ks : list Z) : list Z :=
  match ks with
  | [] => [k]
  | k' :: ks' =>
      if (k <? k')%Z then k :: ks
      else if (k =? k')%Z then ks
      else k' :: insert_key k ks'
  end.

Definition group_keys (col : list Z) : list Z :=
  fold_right insert_key [] col.

(** Keys in strictly ascending order. *)
Fixpoint ascending (ks : list Z) : Prop :=
  match ks with
  | [] => True
  | k :: ks' => (forall x, In x ks' -> (k < x)%Z) /\ ascending ks'
  end.

(** *** The random generator *)

(** The generator of numpy: [draws i] is the value its [(i+1)]-th call
    of [np.random.uniform()] returns, [position] the number of calls
    made so far. *)
Record rng : Type := {
  draws : nat -> R;
  position : nat
}.

Definition next (g : rng) : R := draws g (position g).

Definition advance (g : rng) : rng :=
  {| draws := draws g; position := S (position g) |}.

(** [np.random.uniform()] draws from the half-open interval [[0, 1)]. *)
Definition uniform_draws (g : rng) : Prop := forall i, (0 <= draws g i < 1)%R.

(** *** Missing values *)

(** [Series.fillna(v)] on one cell. *)
Definition fillna {T : Type} (v : T) (x : option T) : T :=
  match x with Some y => y | None => v end.

Definition notnull {T : Type} (x : option T) : bool :=
  match x with Some _ => true | None => false end.

(** [dropna]: the cells that are not missing. *)
Definition dropna {T : Type} (xs : list (option T)) : list T :=
  flat_map (fun x => match x with Some v => [v] | None => [] end) xs.

(** *** Objects with attributes, exceptions and a global world

    A method is a function from the world before the call to the result
    and the world after it, or to [None] when it raises. *)

Definition M (W T : Type) : Type := W -> option (T * W).

Definition ret {W T} (x : T) : M W T := fun w => Some (x, w).

Definition bind {W T U} (m : M W T) (k : T -> M W U) : M W U :=
  fun w => match m w with
           | Some (x, w') => k x w'
           | None => None
           end.

Notation "x <- m ;; k" := (bind m (fun x => k))
  (at level 61, m at next level, right associativity).
Notation "m ;;; k" := (bind m (fun _ => k))
  (at level 61, right associativity).

(** Reading an attribute that may not have been set yet. *)
Definition getattr {W T} (field : W -> option T) : M W T :=
  fun w => match field w with
           | Some x => Some (x, w)
           | None => None
           end.

Definition gets {W T} (field : W -> T) : M W T := fun w => Some (field w, w).

Definition modify {W} (f : W -> W) : M W unit := fun w => Some (tt, f w).

(** A failed lookup of a column or attribute. *)
Definition raise {W T} : M W T := fun _ => None.

(** [Series.apply(f)]: [f] runs on the cells in row order. *)
Fixpoint apply {W T U} (f : T -> M W U) (xs : list T) : M W (list U) :=
  match xs with
  | [] => ret []
  | x :: xs' => y <- f x ;; ys <- apply f xs' ;; ret (y :: ys)
  end.

(** *** Floating point *)

(** The largest binary64 number. *)
Definition max_float : R := ((2 - / 2 ^ 52) * 2 ^ 1023)%R.

(** [math.exp(x)] raises [OverflowError] when the result exceeds the
    largest binary64 number. *)
Definition math_exp {W} (x : R) : M W R :=
  fun w => if Rlt_dec max_float (exp x) then None else Some (exp x, w).

(** ** CategoricalTransformer *)

Module CategoricalTransformer.

Local Open Scope R_scope.

(** *** The per-row formulas of [fit] *)

(** [lambda x: 1.0 / (1.0 + math.exp(self.threshold-x))], the value
    before rounding, where [math.exp] returns. *)
Definition lambda (threshold x : R) : R := 1 / (1 + exp (threshold - x)).


(** [row['lambda']*row['high_share']+(1.0-row['lambda'])*self.glob_high] *)
Definition blend (lam share glob : R) : R := lam * share + (1 - lam) * glob.

(** [lambda x : x*(1.0 + 0.01*(np.random.uniform()-0.5))], with
    [u] the value drawn. *)
Definition jitter (x u : R) : R := x * (1 + 0.01 * (u - 0.5)).

(** The value stored for a category of [record_count] records. *)
Definition w_stat (threshold record_count share glob u : R) : R :=
  jitter (blend (lambda threshold record_count) share glob) u.

(** *** The object *)

(** A row of [mapping_], columns in the order of the selection
    [tmp[['w_high_' + c, 'w_med_' + c, c]]]. *)
Record mapping_row : Type := {
  w_high : R;
  w_med : R;
  category : Z
}.

(** The attributes of an instance.  [threshold] and [column_name] are
    set by [__init__]; the others exist once [fit] or [_reset] has
    assigned them. *)
Record t : Type := {
  threshold : R;
  column_name : string;
  mapping_ : option (list mapping_row);
  glob_high : option R;
  glob_med : option R;
  glob_low : option R
}.

(** [CategoricalTransformer(column_name, k)] *)
Definition init (column_name : string) (k : R) : t :=
  {| threshold := k; column_name := column_name; mapping_ := None;
     glob_high := None; glob_med := None; glob_low := None |}.

(** The world of a method call: the instance and numpy's generator. *)
Record world : Type := {
  self : t;
  np_random : rng
}.

Definition set_self (f : t -> t) : M world unit :=
  modify (fun w => {| self := f (self w); np_random := np_random w |}).

(** [np.random.uniform()] *)
Definition uniform : M world R :=
  fun w => Some (next (np_random w),
                 {| self := self w; np_random := advance (np_random w) |}).

(** [_reset]: an instance fitted before gets an empty mapping (the
    empty dict of the source) and zero global shares.  [fit], the only
    caller, replaces the mapping or raises. *)
Definition _reset : M world unit :=
  set_self (fun s =>
    match mapping_ s with
    | Some _ =>
        {| threshold := threshold s; column_name := column_name s;
           mapping_ := Some []; glob_high := Some 0; glob_med := Some 0;
           glob_low := Some 0 |}
    | None => s
    end).

(** The cells of a row of [mapping_], one per column of the frame. *)
Definition cells (m : mapping_row) : list R :=
  [w_high m; w_med m; IZR (category m)].

(** A column of counts without a missing cell.  [unstack] gives a table
    of integers ([int64]) when no cell of it is missing and a table of
    floats otherwise, and [fillna(0)] keeps the type.  A group that
    exists has a row, so the cells that were missing are the cells
    that are 0. *)
Definition int64 (column : list R) : bool :=
  forallb (fun x => if Req_dec_T x 0 then false else true) column.

(** [a / b] on two sums of numpy: the floor of the quotient when both
    are integers, the quotient when one of them is a float. *)
Definition divide (integers : bool) (a b : R) : R :=
  if integers then IZR (Int_part (a / b)) else a / b.

Section Frames.

(** The rows of the frame handed to [fit] and [transform]: [column]
    reads the cell of column [column_name], [interest] the cell of
    [interest_level], null on rows without a label. *)
Context {A : Type}.
Variable column : A -> Z.
Variable interest : A -> option interest_level.

Definition has_level (l : interest_level) (x : A) : bool :=
  match interest x with
  | Some l' => interest_level_eqb l' l
  | None => false
  end.

(** [groupby([column_name, 'interest_level']).size()] at one pair of
    keys; rows with a null key belong to no group. *)
Definition size (X : list A) (c : Z) (l : interest_level) : nat :=
  List.length (filter (fun x => (column x =? c)%Z && has_level l x) X).

(** [.unstack()]: a pair of keys without a group is a missing cell. *)
Definition unstack (X : list A) (c : Z) (l : interest_level) : option R :=
  if (size X c l =? 0)%nat then None else Some (INR (size X c l)).

(** A level is a column of the unstacked table when some group has it. *)
Definition level_column (X : list A) (l : interest_level) : bool :=
  existsb (has_level l) X.

(** The first-level keys of the groups. *)
Definition categories (X : list A) : list Z :=
  group_keys (map column (filter (fun x => notnull (interest x)) X)).

(** A row of [tmp] after [fillna(0)]. *)
Record tmp_row : Type := {
  key : Z;
  n_high : R;
  n_medium : R;
  n_low : R
}.

(** [tmp['high'] + tmp['medium'] + tmp['low']] *)
Definition record_count (r : tmp_row) : R := n_high r + n_medium r + n_low r.

(** [tmp['high']/tmp['record_count']] *)
Definition high_share (r : tmp_row) : R := n_high r / record_count r.

(** [tmp['medium']/tmp['record_count']] *)
Definition med_share (r : tmp_row) : R := n_medium r / record_count r.

(** The grouped table; selecting a level that is not a column raises
    [KeyError]. *)
Definition grouped (X : list A) : option (list tmp_row) :=
  if level_column X high && level_column X medium && level_column X low
  then Some (map (fun c => {| key := c;
                              n_high := fillna 0 (unstack X c high);
                              n_medium := fillna 0 (unstack X c medium);
                              n_low := fillna 0 (unstack X c low) |})
                 (categories X))
  else None.

(** [Series.sum()] *)
Definition sum (xs : list R) : R := fold_right Rplus 0 xs.

(** The columns of counts hold integers, and with them the column
    [record_count], when the table has no missing cell. *)
Definition integers (tmp : list tmp_row) : bool :=
  int64 (map n_high tmp) && int64 (map n_medium tmp) && int64 (map n_low tmp).

(** [tmp['high'].sum()/tmp['record_count'].sum()] *)
Definition global_high (tmp : list tmp_row) : R :=
  divide (integers tmp) (sum (map n_high tmp)) (sum (map record_count tmp)).

(** [tmp['medium'].sum()/tmp['record_count'].sum()] *)
Definition global_med (tmp : list tmp_row) : R :=
  divide (integers tmp) (sum (map n_medium tmp)) (sum (map record_count tmp)).

(** The selection [tmp[[w_high, w_med, column_name]]]. *)
Fixpoint select (whs wms : list R) (tmp : list tmp_row) : list mapping_row :=
  match whs, wms, tmp with
  | wh :: whs', wm :: wms', r :: tmp' =>
      {| w_high := wh; w_med := wm; category := key r |} :: select whs' wms' tmp'
  | _, _, _ => []
  end.

(** [fit(X)]: raises when a level is no column of the grouped table
    and when [math.exp] overflows on the record count of a row. *)
Definition fit (X : list A) : M world unit :=
  _reset ;;;
  match grouped X with
  | None => raise
  | Some tmp =>
      let gh := global_high tmp in
      let gm := global_med tmp in
      set_self (fun s =>
        {| threshold := threshold s; column_name := column_name s;
           mapping_ := mapping_ s; glob_high := Some gh;
           glob_med := Some gm; glob_low := glob_low s |}) ;;;
      k <- gets (fun w => threshold (self w)) ;;
      lam <- apply (fun x => e <- math_exp (k - x) ;; ret (1 / (1 + e)))
               (map record_count tmp) ;;
      let rows := combine tmp lam in
      let wh := map (fun p => blend (snd p) (high_share (fst p)) gh) rows in
      let wm := map (fun p => blend (snd p) (med_share (fst p)) gm) rows in
      wh' <- apply (fun x => u <- uniform ;; ret (jitter x u)) wh ;;
      wm' <- apply (fun x => u <- uniform ;; ret (jitter x u)) wm ;;
      set_self (fun s =>
        {| threshold := threshold s; column_name := column_name s;
           mapping_ := Some (select wh' wm' tmp);
           glob_high := glob_high s; glob_med := glob_med s;
           glob_low := glob_low s |})
  end.

(** A row of the left merge: the row of [X] and the two cells taken
    from [mapping_], missing when no row of [mapping_] has its key. *)
Record merged_row : Type := {
  left : A;
  m_w_high : option R;
  m_w_med : option R
}.

(** The rows a left merge makes of the row [x]: one per row of
    [mapping_] with its key, or one of missing cells. *)
Definition merge_row (mapping : list mapping_row) (x : A) : list merged_row :=
  match filter (fun r => (category r =? column x)%Z) mapping with
  | [] => [{| left := x; m_w_high := None; m_w_med := None |}]
  | rs => map (fun r => {| left := x; m_w_high := Some (w_high r);
                           m_w_med := Some (w_med r) |}) rs
  end.

(** [X.merge(mapping_, how='left', left_on=c, right_on=c)] *)
Definition merge (X : list A) (mapping : list mapping_row) : list merged_row :=
  flat_map (merge_row mapping) X.

(** A row of the frame [transform] returns. *)
Record out_row : Type := {
  row : A;
  out_w_high : R;
  out_w_med : R
}.

(** [lambda x: x if not np.isnan(x) else self.glob_high] *)
Definition or_glob (glob : t -> option R) (x : option R) : M world R :=
  match x with
  | Some v => ret v
  | None => getattr (fun w => glob (self w))
  end.

(** [transform(X)]; the column [index] that [reset_index] adds to
    [mapping_] is deleted again and is left out. *)
Definition transform (X : list A) : M world (list out_row) :=
  mapping <- getattr (fun w => mapping_ (self w)) ;;
  let X' := merge X mapping in
  wh <- apply (or_glob glob_high) (map m_w_high X') ;;
  wm <- apply (or_glob glob_med) (map m_w_med X') ;;
  ret (map (fun p => {| row := left (fst (fst p));
                        out_w_high := snd (fst p);
                        out_w_med := snd p |})
           (combine (combine X' wh) wm)).

(** *** Vocabulary of the properties *)

(** A category is seen by [fit] when a labelled row of [X] has it. *)
Definition seen (X : list A) (c : Z) : Prop :=
  exists x l, In x X /\ column x = c /\ interest x = Some l.

(** The column [xs] after the jitter, the first draw being draw [p] of
    the sequence [d]. *)
Fixpoint jittered (xs : list R) (d : nat -> R) (p : nat) : list R :=
  match xs with
  | [] => []
  | x :: xs' => jitter x (d p) :: jittered xs' d (S p)
  end.

(** The instance [fit] leaves behind, for the grouped table [tmp]. *)
Definition fitted (w : world) (tmp : list tmp_row) : world :=
  let k := threshold (self w) in
  let gh := global_high tmp in
  let gm := global_med tmp in
  let d := draws (np_random w) in
  let p := position (np_random w) in
  let n := List.length tmp in
  let lam := fun r => lambda k (record_count r) in
  {| self :=
       {| threshold := k;
          column_name := column_name (self w);
          mapping_ :=
            Some (select
                    (jittered (map (fun r => blend (lam r) (high_share r) gh) tmp) d p)
                    (jittered (map (fun r => blend (lam r) (med_share r) gm) tmp) d (p + n))
                    tmp);
          glob_high := Some gh;
          glob_med := Some gm;
          glob_low := match mapping_ (self w) with
                      | Some _ => Some 0
                      | None => glob_low (self w)
                      end |};
     np_random := {| draws := d; position := p + n + n |} |}.

(** Row [i] of [mapping_]: the two jittered blends of row [i] of the
    grouped table, with draws [p + i] and [p + n + i]. *)
Definition stored_row (w : world) (tmp : list tmp_row) (i : nat) (r : tmp_row)
  : mapping_row :=
  let k := threshold (self w) in
  let d := draws (np_random w) in
  let p := position (np_random w) in
  {| w_high := w_stat k (record_count r) (high_share r) (global_high tmp)
                 (d (p + i)%nat);
     w_med := w_stat k (record_count r) (med_share r) (global_med tmp)
                (d (p + List.length tmp + i)%nat);
     category := key r |}.

(** The rows [transform] returns from a fitted instance. *)
Definition transformed (X : list A) (mapping : list mapping_row) (gh gm : R)
  : list out_row :=
  map (fun m => {| row := left m;
                   out_w_high := fillna gh (m_w_high m);
                   out_w_med := fillna gm (m_w_med m) |})
      (merge X mapping).

(** The smoothed class-likelihood statistic of a class for a row of
    the grouped table, before the jitter: the blend of the share of the
    class among the records of the category with its share among all
    records.  For [high] and [medium] these are the two blends of
    [fit]; [fit] has no counterpart for [low]. *)
Definition level_count (l : interest_level) (r : tmp_row) : R :=
  match l with
  | high => n_high r
  | medium => n_medium r
  | low => n_low r
  end.

Definition class_share (l : interest_level) (r : tmp_row) : R :=
  level_count l r / record_count r.

Definition class_global (l : interest_level) (tmp : list tmp_row) : R :=
  divide (integers tmp) (sum (map (level_count l) tmp))
         (sum (map record_count tmp)).

Definition class_statistic (k : R) (tmp : list tmp_row) (l : interest_level)
  (r : tmp_row) : R :=
  blend (lambda k (record_count r)) (class_share l r) (class_global l tmp).

(** Column [j] of [mapping] holds the statistic of the class [l]: in
    every row its cell is the statistic of the category of the row,
    jittered by a draw of [[0, 1)]. *)
Definition column_holds (k : R) (tmp : list tmp_row) (mapping : list mapping_row)
  (j : nat) (l : interest_level) : Prop :=
  forall i m r,
    nth_error mapping i = Some m -> nth_error tmp i = Some r ->
    exists u, 0 <= u < 1 /\
      nth_error (cells m) j = Some (jitter (class_statistic k tmp l r) u).

(** [math.exp] returns on every row of the table. *)
Definition no_overflow (k : R) (tmp : list tmp_row) : Prop :=
  forall r, In r tmp -> exp (k - record_count r) <= max_float.

(** The unstacked table of [X] has no missing cell: every category has
    a row of every level. *)
Definition complete (X : list A) : Prop :=
  forall c l, seen X c -> exists x, In x X /\ column x = c /\ interest x = Some l.

End Frames.

End CategoricalTransformer.

(** ** ManagerSkill *)

Module ManagerSkill.

Local Open Scope Q_scope.

(** A cell that may be NaN. *)
Definition float : Type := option Q.

(** The attributes of an instance; [mapping_] is the one-column frame
    [temp[['manager_skill']]], indexed by [manager_id]. *)
Record t : Type := {
  threshold : Q;
  mapping_ : option (list (Z * float));
  mean_skill_ : option float
}.

(** [ManagerSkill(threshold = 5)] *)
Definition init (threshold : Q) : t :=
  {| threshold := threshold; mapping_ := None; mean_skill_ := None |}.

Definition _reset : M t unit :=
  modify (fun s =>
    match mapping_ s with
    | Some _ => {| threshold := threshold s; mapping_ := Some [];
                   mean_skill_ := Some (Some 0) |}
    | None => s
    end).

Definition count_of (n : nat) : Q := inject_Z (Z.of_nat n).

(** [Series.sum()] and [Series.mean()]; the mean of no cell is NaN. *)
Definition sum (xs : list Q) : Q := fold_right Qplus 0 xs.

Definition mean (xs : list Q) : float :=
  match xs with
  | [] => None
  | _ => Some (sum xs / count_of (List.length xs))
  end.

(** [count >= threshold] and [count < threshold] on numbers. *)
Definition ge_threshold (count k : Q) : bool := Qle_bool k count.
Definition lt_threshold (count k : Q) : bool := negb (Qle_bool k count).

(** [Series.fillna(v)] on a float cell; [v] itself may be NaN. *)
Definition fillna_float (v x : float) : float :=
  match x with Some _ => x | None => v end.

Section Frames.

(** The rows of [X]: [index] reads the index label of the row,
    [manager_id] the key, and [first_column] tells whether the cell of
    the first other column of [X] is not null ([count()] counts those
    cells).  [y_index p] is the index label of position [p] of [y]: the
    position itself for an array, the label of the row for a Series.
    The labels of [X] are taken to be distinct, and so those of [y]. *)
Context {A : Type}.
Variable index : A -> Z.
Variable y_index : nat -> Z.
Variable manager_id : A -> Z.
Variable first_column : A -> bool.

(** [pd.get_dummies(y)] has a column per value occurring in [y]; [y]
    holds the codes of [target_num_map], and the columns 0, 1 and 2
    are renamed [high_frac], [medium_frac] and [low_frac]. *)
Definition dummy_column (y : list interest_level) (l : interest_level) : bool :=
  existsb (interest_level_eqb l) y.

(** The cell of [y] at an index label, missing when no position of [y]
    has the label. *)
Definition at_label (y : list interest_level) (i : Z) : option interest_level :=
  match filter (fun p => (y_index p =? i)%Z) (seq 0 (List.length y)) with
  | p :: _ => nth_error y p
  | [] => None
  end.

(** [pd.concat([X.manager_id, pd.get_dummies(y)], axis = 1)] joins the
    two frames on their index labels: a row of [X] gets the indicator
    cells of the position of [y] that has its label, and missing cells
    when [y] has none.  The positions of [y] whose label no row of [X]
    has give rows without a manager, which fall in no group; they are
    left out. *)
Definition concat (X : list A) (y : list interest_level)
  : list (A * option interest_level) :=
  map (fun x => (x, at_label y (index x))) X.

Definition group (rows : list (A * option interest_level)) (m : Z)
  : list (A * option interest_level) :=
  filter (fun p => (manager_id (fst p) =? m)%Z) rows.

(** The group mean of the indicator column of level [l]: the mean of
    the cells that are not missing, NaN when all are. *)
Definition frac (rows : list (A * option interest_level)) (m : Z)
  (l : interest_level) : float :=
  match dropna (map snd (group rows m)) with
  | [] => None
  | c :: cs =>
      Some (count_of (List.length
                        (filter (fun c' => interest_level_eqb c' l) (c :: cs)))
            / count_of (List.length (c :: cs)))
  end.

(** [X.groupby('manager_id').count().iloc[:,0]] at manager [m]. *)
Definition count (X : list A) (m : Z) : Q :=
  count_of (List.length
    (filter (fun x => (manager_id x =? m)%Z && first_column x) X)).

(** A row of [temp] before the rare managers are overwritten; the
    column [low_frac] is never read. *)
Record temp_row : Type := {
  manager : Z;
  high_frac : float;
  medium_frac : float;
  record_count : Q
}.

(** [temp['high_frac']*2 + temp['medium_frac']] *)
Definition skill (r : temp_row) : float :=
  match high_frac r, medium_frac r with
  | Some h, Some m => Some (h * 2 + m)
  | _, _ => None
  end.

(** The row of manager [m]. *)
Definition temp_row_of (X : list A) (y : list interest_level) (m : Z) : temp_row :=
  {| manager := m;
     high_frac := frac (concat X y) m high;
     medium_frac := frac (concat X y) m medium;
     record_count := count X m |}.

Definition temp (X : list A) (y : list interest_level) : list temp_row :=
  map (temp_row_of X y)
      (group_keys (map (fun p => manager_id (fst p)) (concat X y))).

(** [temp.loc[temp['count'] >= threshold, 'manager_skill'].mean()];
    the mean skips the cells that are NaN. *)
Definition mean_skill (k : Q) (tmp : list temp_row) : float :=
  mean (dropna (map skill (filter (fun r => ge_threshold (record_count r) k) tmp))).

(** The column [manager_skill] after
    [temp.loc[temp['count'] < threshold, 'manager_skill'] = mean]. *)
Definition manager_skill (k : Q) (mean : float) (r : temp_row) : float :=
  if lt_threshold (record_count r) k then mean else skill r.

(** [fit(X, y)]; reading [high_frac] or [medium_frac] raises when
    [y] has no row of that level. *)
Definition fit (X : list A) (y : list interest_level) : M t unit :=
  _reset ;;;
  if dummy_column y high && dummy_column y medium then
    k <- gets threshold ;;
    let tmp := temp X y in
    let mean := mean_skill k tmp in
    modify (fun s =>
      {| threshold := threshold s;
         mapping_ := Some (map (fun r => (manager r, manager_skill k mean r)) tmp);
         mean_skill_ := mean_skill_ s |}) ;;;
    modify (fun s =>
      {| threshold := threshold s; mapping_ := mapping_ s;
         mean_skill_ := Some mean |})
  else raise.

(** [pd.merge(left = X, right = mapping_, how = 'left',
    left_on = 'manager_id', right_index = True)], column
    [manager_skill]. *)
Definition merge (X : list A) (mapping : list (Z * float)) : list float :=
  flat_map (fun x =>
    match filter (fun r => (fst r =? manager_id x)%Z) mapping with
    | [] => [None]
    | rs => map snd rs
    end) X.

(** [transform(X)], the column [manager_skill] of the result. *)
Definition transform (X : list A) : M t (list float) :=
  mapping <- getattr mapping_ ;;
  let X' := merge X mapping in
  v <- getattr mean_skill_ ;;
  ret (map (fillna_float v) X').

(** *** Vocabulary of the properties *)

(** The frame [fit] stores for the threshold [k]. *)
Definition fitted_mapping_ (k : Q) (X : list A) (y : list interest_level)
  : list (Z * float) :=
  map (fun r => (manager r, manager_skill k (mean_skill k (temp X y)) r))
      (temp X y).

(** The cell [manager_skill] the left merge gives the manager [m]. *)
Definition merged_skill (k : Q) (X : list A) (y : list interest_level) (m : Z)
  : float :=
  if existsb (Z.eqb m) (map manager_id X)
  then manager_skill k (mean_skill k (temp X y)) (temp_row_of X y m)
  else None.

(** The labels [y] holds for the rows of manager [m]: those of the rows
    whose index label is a label of [y]. *)
Definition labels_of (X : list A) (y : list interest_level) (m : Z)
  : list interest_level :=
  dropna (map (fun x => at_label y (index x))
              (filter (fun x => (manager_id x =? m)%Z) X)).

(** The skill of manager [m]: twice the fraction of [high] among its
    labels plus the fraction of [medium], NaN for a manager without a
    label. *)
Definition own_skill (X : list A) (y : list interest_level) (m : Z) : float :=
  match labels_of X y m with
  | [] => None
  | l :: ls =>
      Some (count_of (List.length
                        (filter (fun c => interest_level_eqb c high) (l :: ls)))
            / count_of (List.length (l :: ls)) * 2
            + count_of (List.length
                          (filter (fun c => interest_level_eqb c medium) (l :: ls)))
              / count_of (List.length (l :: ls)))
  end.

(** The skills, NaN left out, of the managers of [X] whose record count
    reaches the threshold [k], in ascending order of the manager. *)
Definition frequent_skills (k : Q) (X : list A) (y : list interest_level)
  : list Q :=
  dropna (map (own_skill X y)
              (filter (fun m => Qle_bool k (count X m))
                      (group_keys (map manager_id X)))).

End Frames.

End ManagerSkill.

(** ** create_submission *)

Module Submission.

Local Open Scope string_scope.

(** The fields of [datetime.datetime.now()]. *)
Record datetime : Type := {
  year : nat;
  month : nat;
  day : nat;
  hour : nat;
  minute : nat;
  second : nat;
  microsecond : nat
}.

Definition decimal (n : nat) : string := NilZero.string_of_uint (Nat.to_uint n).

(** A field printed on two digits ([%m], [%d], [%H], [%M]). *)
Definition two_digits (n : nat) : string :=
  if (n <? 10)%nat then "0" ++ decimal n else decimal n.

(** [now.strftime("%Y-%m-%d-%H%M")] *)
Definition strftime (now : datetime) : string :=
  decimal (year now) ++ "-" ++ two_digits (month now) ++ "-"
  ++ two_digits (day now) ++ "-" ++ two_digits (hour now)
  ++ two_digits (minute now).

(** The integer nearest to [n/d], ties to the even one, for [0 <= n]
    and [0 < d]: the rounding of float formatting. *)
Definition round_half_even (n d : Z) : Z :=
  let q := (n / d)%Z in
  let r := (n mod d)%Z in
  if (2 * r <? d)%Z then q
  else if (d <? 2 * r)%Z then (q + 1)%Z
  else if Z.even q then q else (q + 1)%Z.

Definition digit (n : Z) : string := decimal (Z.to_nat (n mod 10)).

(** ["{:0.4f}".format(score)] for a finite score. *)
Definition format_0_4f (score : Q) : string :=
  let n := round_half_even (Z.abs (Qnum score) * 10000) (Zpos (Qden score)) in
  (if (Qnum score <? 0)%Z then "-" else "")
  ++ decimal (Z.to_nat (n / 10000)) ++ "."
  ++ digit (n / 1000) ++ digit (n / 100) ++ digit (n / 10) ++ digit n.

(** The character of a decimal digit, and a number written with two
    and with four decimal digits. *)
Definition digit_char (d : nat) : ascii := ascii_of_nat (48 + d).

Definition two_digit_string (n : nat) : string :=
  String (digit_char (n / 10)) (String (digit_char (n mod 10)) "").

Definition four_digit_string (n : nat) : string :=
  String (digit_char (n / 1000))
    (String (digit_char (n / 100 mod 10))
       (String (digit_char (n / 10 mod 10))
          (String (digit_char (n mod 10)) ""))).

(** The fields of a clock that [strftime] accepts: a date of the years
    1900 to 9999 and a time of the day. *)
Definition valid (now : datetime) : Prop :=
  (1900 <= Z.of_nat (year now) <= 9999)%Z /\
  (1 <= month now <= 12 /\ 1 <= day now <= 31 /\
   hour now <= 23 /\ minute now <= 59)%nat.

Definition ouDir : string := "../output/".

(** ["{:0.4f}_{}".format(score,now.strftime("%Y-%m-%d-%H%M"))] *)
Definition scrstr (score : Q) (now : datetime) : string :=
  format_0_4f score ++ "_" ++ strftime now.

(** [ouDir + '.model_' + scrstr + '.model'] *)
Definition mod_file (score : Q) (now : datetime) : string :=
  ((ouDir ++ ".model_") ++ scrstr score now) ++ ".model".

(** [ouDir + 'submit_' + scrstr + '.csv'] *)
Definition sub_file (score : Q) (now : datetime) : string :=
  ((ouDir ++ "submit_") ++ scrstr score now) ++ ".csv".

Section Effects.

(** The trained booster and the frame of predictions. *)
Variables booster frame : Type.

Inductive content : Type :=
| Model (m : booster)
| Csv (p : frame).

(** The world of the call: the clock, the lines printed and the files
    written, the latest first. *)
Record world : Type := {
  clock : datetime;
  stdout : list (string * string);
  written : list (string * content)
}.

Definition print (a b : string) : M world unit :=
  modify (fun w => {| clock := clock w; stdout := (a, b) :: stdout w;
                      written := written w |}).

Definition write (path : string) (c : content) : M world unit :=
  modify (fun w => {| clock := clock w; stdout := stdout w;
                      written := (path, c) :: written w |}).

(** [create_submission(score, pred, model, importance)] *)
Definition create_submission {I : Type} (score : Q) (pred : frame)
  (model : booster) (importance : I) : M world unit :=
  now <- gets clock ;;
  print "Writing model: " (mod_file score now) ;;;
  write (mod_file score now) (Model model) ;;;
  print "Writing submission: " (sub_file score now) ;;;
  write (sub_file score now) (Csv pred).

End Effects.

End Submission.

(** ** A small training frame *)

Module Example.

Import CategoricalTransformer.
Local Open Scope R_scope.

(** Rows reduced to the category and the label. *)
Definition listing : Type := (Z * option interest_level)%type.

(** Two managers with two labelled listings each and a test listing. *)
Definition X : list listing :=
  [(1%Z, Some high); (2%Z, Some low); (1%Z, Some medium); (2%Z, Some high);
   (3%Z, None)].

Definition tmp : list tmp_row :=
  [{| key := 1; n_high := 1; n_medium := 1; n_low := 0 |};
   {| key := 2; n_high := 1; n_medium := 0; n_low := 1 |}].

(** A fresh instance and a generator whose draws are all 1/2. *)
Definition w : world :=
  {| self := init "manager_id" 5;
     np_random := {| draws := fun _ => 1/2; position := 0 |} |}.

(** An instance as [fit] leaves it, and a frame to transform: a seen
    and an unseen category. *)
Definition w_fitted : world :=
  {| self := {| threshold := 5; column_name := "manager_id";
                mapping_ := Some [{| w_high := 1/2; w_med := 1/4;
                                     category := 1 |}];
                glob_high := Some (1/3); glob_med := Some (1/5);
                glob_low := None |};
     np_random := {| draws := fun _ => 1/2; position := 4 |} |}.

Definition Xt : list listing := [(1%Z, None); (7%Z, None)].

Definition out : list (@out_row listing) :=
  [{| row := (1%Z, None); out_w_high := 1/2; out_w_med := 1/4 |};
   {| row := (7%Z, None); out_w_high := 1/3; out_w_med := 1/5 |}].

(** A frame for [ManagerSkill]: the index label of the row, the
    manager and whether the first other column is filled; the labels
    [y], an array; an instance of threshold 2. *)
Definition manager_row : Type := (Z * Z * bool)%type.

Definition index (x : manager_row) : Z := fst (fst x).
Definition manager_id (x : manager_row) : Z := snd (fst x).
Definition first_column (x : manager_row) : bool := snd x.
Definition y_index (p : nat) : Z := Z.of_nat p.

Definition managers : list manager_row :=
  [(0%Z, 1%Z, true); (1%Z, 1%Z, true); (2%Z, 2%Z, true); (3%Z, 3%Z, true);
   (4%Z, 3%Z, true)].

Definition y : list interest_level := [high; medium; low; medium; low].

(** The same rows with their index labels in descending order. *)
Definition managers_reversed : list manager_row :=
  [(4%Z, 1%Z, true); (3%Z, 1%Z, true); (2%Z, 2%Z, true); (1%Z, 3%Z, true);
   (0%Z, 3%Z, true)].

(** Rows to transform: a frequent, a rare and an absent manager. *)
Definition managers_to_transform : list manager_row :=
  [(0%Z, 1%Z, true); (1%Z, 2%Z, true); (2%Z, 3%Z, true); (3%Z, 7%Z, false)].

Definition skill_2 : ManagerSkill.t := ManagerSkill.init 2%Q.

(** The worlds [fit] leaves from [w] and from an instance fitted
    before, the mapping of the first and its first row. *)
Definition w_after_fit : world := fitted w tmp.

Definition w_refit : world :=
  {| self := self w_fitted; np_random := np_random w |}.

Definition mapping_after_fit : list mapping_row :=
  match mapping_ (self w_after_fit) with
  | Some mapping => mapping
  | None => []
  end.

Definition first_row : mapping_row :=
  hd {| w_high := 0; w_med := 0; category := 0 |} mapping_after_fit.

(** The instance [ManagerSkill.fit] leaves from [skill_2]. *)
Definition skill_fitted : ManagerSkill.t :=
  {| ManagerSkill.threshold := 2%Q;
     ManagerSkill.mapping_ :=
       Some (ManagerSkill.fitted_mapping_ index y_index manager_id first_column
               2%Q managers y);
     ManagerSkill.mean_skill_ :=
       Some (ManagerSkill.mean_skill 2%Q
               (ManagerSkill.temp index y_index manager_id first_column
                  managers y)) |}.

(** A fresh instance of threshold 2, the record count of both
    categories of [X], and the world [fit] leaves from it. *)
Definition w_at_2 : world :=
  {| self := init "manager_id" 2;
     np_random := {| draws := fun _ => 1/2; position := 0 |} |}.

Definition w_at_2_after_fit : world := fitted w_at_2 tmp.

(** A clock and a score for [create_submission]. *)
Definition now : Submission.datetime :=
  {| Submission.year := 2017; Submission.month := 4; Submission.day := 1;
     Submission.hour := 13; Submission.minute := 5; Submission.second := 59;
     Submission.microsecond := 0 |}.

Definition score : Q := 54321 # 100000.

End Example.

(** ** Binary64 numbers of the smoothing weight *)

Module Binary64.

Import PrimFloat.




End Binary64.

(** ** The feature engineering of the script *)

Module Script.

(** *** Splitting and joining strings *)

(** [s.split(sep)] for a separator of one character: the pieces
    between the separators, one piece for a string without any. *)
Fixpoint split (sep : ascii) (s : string) : list string :=
  match s with
  | EmptyString => [EmptyString]
  | String c s' =>
      if Ascii.eqb c sep then EmptyString :: split sep s'
      else match split sep s' with
           | p :: ps => String c p :: ps
           | [] => [String c EmptyString]
           end
  end.

(** [sep.join(parts)] *)
Fixpoint join (sep : string) (parts : list string) : string :=
  match parts with
  | [] => EmptyString
  | p :: ps =>
      match ps with
      | [] => p
      | _ :: _ => (p ++ sep ++ join sep ps)%string
      end
  end.

Definition space : ascii := " "%char.
Definition underscore : ascii := "_"%char.

(** [lambda x: len(x.split(" "))], the column [num_description_words]. *)
Definition num_description_words (description : string) : nat :=
  List.length (split space description).

(** ["_".join(i.split(" "))] *)
Definition join_words (i : string) : string :=
  join (String underscore EmptyString) (split space i).

(** [lambda x: " ".join(["_".join(i.split(" ")) for i in x])], the
    column [features] handed to the vectorizer. *)
Definition features_text (x : list string) : string :=
  join (String space EmptyString) (map join_words x).

(** [joint["features"].apply(len)], the column [num_features], taken
    before [features] is rewritten. *)
Definition num_features (x : list string) : nat := List.length x.

(** The number of occurrences of a character. *)
Fixpoint occurrences (c : ascii) (s : string) : nat :=
  match s with
  | EmptyString => 0
  | String c' s' => (if Ascii.eqb c' c then 1 else 0) + occurrences c s'
  end.

(** The string with every [old] character replaced by [new]. *)
Fixpoint replaced (old new : ascii) (s : string) : string :=
  match s with
  | EmptyString => EmptyString
  | String c s' => String (if Ascii.eqb c old then new else c) (replaced old new s')
  end.

(** *** Ratios of columns *)

Local Open Scope Q_scope.

(** A float cell: a number, an infinity or NaN. *)
Inductive number : Type :=
| Finite (q : Q)
| Infinite (negative : bool)
| NaN.

(** The quotient of two cells holding numbers: a division by zero gives
    an infinity of the sign of the dividend, and NaN for a zero
    dividend. *)
Definition divide (a b : Q) : number :=
  if Qeq_bool b 0 then
    if Qeq_bool a 0 then NaN else Infinite (negb (Qle_bool 0 a))
  else Finite (a / b).

(** The cells of a listing that the modelled lines read. *)
Record listing : Type := {
  bedrooms : Z;
  bathrooms : Q;
  price : Z;
  features : list string;
  description : string;
  manager_id : string;
  interest_level_ : option interest_level
}.

(** [joint["bedrooms"]-joint["bathrooms"]] *)
Definition room_dif (x : listing) : Q := inject_Z (bedrooms x) - bathrooms x.

(** [joint["bedrooms"]+joint["bathrooms"]] *)
Definition room_sum (x : listing) : Q := inject_Z (bedrooms x) + bathrooms x.

(** [joint["price"]/joint["bedrooms"]] *)
Definition price_per_bed (x : listing) : number :=
  divide (inject_Z (price x)) (inject_Z (bedrooms x)).

(** [joint["price"]/joint["room_sum"]] *)
Definition price_per_room (x : listing) : number :=
  divide (inject_Z (price x)) (room_sum x).

(** [joint["bedrooms"]/joint["room_sum"]] *)
Definition bed_per_roomsum (x : listing) : number :=
  divide (inject_Z (bedrooms x)) (room_sum x).

(** *** Counts and means by group *)

(** The keys of a [groupby] on a column of strings: distinct, in
    ascending order. *)
Fixpoint insert_name (k : string) (ks : list string) : list string :=
  match ks with
  | [] => [k]
  | k' :: ks' =>
      match String.compare k k' with
      | Lt => k :: ks
      | Eq => ks
      | Gt => k' :: insert_name k ks'
      end
  end.

Definition group_names (col : list string) : list string :=
  fold_right insert_name [] col.

(** Names in strictly ascending order. *)
Fixpoint ascending_names (ks : list string) : Prop :=
  match ks with
  | [] => True
  | k :: ks' =>
      (forall x, In x ks' -> String.compare k x = Lt) /\ ascending_names ks'
  end.

Section Groups.

(** The column the frame is grouped by. *)
Variable key : listing -> string.

Definition group_of (joint : list listing) (k : string) : list listing :=
  filter (fun x => String.eqb (key x) k) joint.

(** [joint[['price', key]].groupby(key).count().reset_index()]; the
    column [price] has no null cell. *)
Definition count_by (joint : list listing) : list (string * nat) :=
  map (fun k => (k, List.length (group_of joint k)))
      (group_names (map key joint)).

(** [Series.sum()] and the mean of a group of prices. *)
Definition total (xs : list Q) : Q := fold_right Qplus 0 xs.

Definition mean_price (rows : list listing) : Q :=
  total (map (fun x => inject_Z (price x)) rows)
  / inject_Z (Z.of_nat (List.length rows)).

(** [joint[['price', key]].groupby(key).mean().reset_index()] *)
Definition mean_by (joint : list listing) : list (string * Q) :=
  map (fun k => (k, mean_price (group_of joint k)))
      (group_names (map key joint)).

(** [pd.merge(joint, by, how='left', on=key)]: the rows of [joint]
    with the new column, a missing cell where [by] has no row of the
    key. *)
Definition merge_by {V : Type} (joint : list listing) (by_key : list (string * V))
  : list (listing * option V) :=
  flat_map (fun x =>
    match filter (fun r => String.eqb (fst r) (key x)) by_key with
    | [] => [(x, None)]
    | rs => map (fun r => (x, Some (snd r))) rs
    end) joint.

(** The column [listings_by_<key>] beside the rows of [joint]. *)
Definition with_count (joint : list listing) : list (listing * option nat) :=
  merge_by joint (count_by joint).

(** The column [price_by_<key>] beside the rows of [joint]. *)
Definition with_mean (joint : list listing) : list (listing * option Q) :=
  merge_by joint (mean_by joint).

End Groups.

(** *** Joining and splitting the two frames *)

(** [pd.concat([train_df,test_df])] *)
Definition concat (train_df test_df : list listing) : list listing :=
  (train_df ++ test_df)%list.

(** [joint[joint.interest_level.notnull()]] *)
Definition train_rows (joint : list listing) : list listing :=
  filter (fun x => notnull (interest_level_ x)) joint.

(** [joint[joint.interest_level.isnull()]] *)
Definition test_rows (joint : list listing) : list listing :=
  filter (fun x => negb (notnull (interest_level_ x))) joint.

(** [train_df['interest_level'].apply(lambda x: target_num_map[x])];
    a cell that is not a key of [target_num_map] raises. *)
Fixpoint target (train_df : list listing) : option (list nat) :=
  match train_df with
  | [] => Some []
  | x :: rest =>
      match interest_level_ x, target rest with
      | Some l, Some ys => Some (target_num_map l :: ys)
      | _, _ => None
      end
  end.

(** *** Days since the first listing *)

(** A time stamp is its number of nanoseconds since the epoch. *)
Definition nanoseconds_per_day : Z := 86400000000000.

(** [joint["created"].min()], NaT for a frame without rows. *)
Definition earliest (created : list Z) : option Z :=
  match created with
  | [] => None
  | c :: cs => Some (fold_right Z.min c cs)
  end.

(** [joint["created"] - joint["created"].min()] and its [dt.days], the
    column [passed_days]. *)
Definition passed_days (created : list Z) : list Z :=
  match earliest created with
  | None => []
  | Some first => map (fun c => ((c - first) / nanoseconds_per_day)%Z) created
  end.

(** *** get_importance *)

Section Importance.

(** [Series.sort_values(ascending=False)]; the order it gives equal
    values is not fixed by the source. *)
Variable sort_values : list (string * Q) -> list (string * Q).

(** [get_importance(gbm)], for the scores [gbm.get_fscore()]. *)
Definition get_importance (fscore : list (string * Q)) : list (string * Q) :=
  let importance := sort_values fscore in
  let s := total (map snd importance) in
  map (fun p => (fst p, snd p / (1 # 100) / s)) importance.

End Importance.

(** A sort by descending value that keeps equal values in their order,
    to run [get_importance] with. *)
Fixpoint insert_desc (p : string * Q) (l : list (string * Q)) : list (string * Q) :=
  match l with
  | [] => [p]
  | q :: l' => if Qle_bool (snd q) (snd p) then p :: l else q :: insert_desc p l'
  end.

Definition sort_desc (l : list (string * Q)) : list (string * Q) :=
  fold_right insert_desc [] l.

(** Values in descending order. *)
Fixpoint descending (l : list Q) : Prop :=
  match l with
  | [] => True
  | x :: l' => (forall y, In y l' -> y <= x) /\ descending l'
  end.

(** *** ColumnExtractor *)

Section Columns.

(** A frame by columns, each a name and its cells. *)
Variable cell : Type.

Definition frame : Type := list (string * list cell).

(** The columns of a name; a frame may have several. *)
Definition columns_of (X : frame) (name : string) : frame :=
  filter (fun c => String.eqb (fst c) name) X.

(** [X[fields]]: for the names in the order given, every column of the
    name; a name that is not a column raises. *)
Fixpoint getitem (X : frame) (fields : list string) : option frame :=
  match fields with
  | [] => Some []
  | f :: fields' =>
      match columns_of X f, getitem X fields' with
      | c :: cs, Some rest => Some ((c :: cs) ++ rest)%list
      | _, _ => None
      end
  end.

(** The instance holds [fields]; [fit] returns it as it is. *)
Definition ColumnExtractor_fit (fields : list string) (X : frame)
  : M (list string) unit := ret tt.

(** [transform(X)] *)
Definition ColumnExtractor_transform (X : frame) : M (list string) frame :=
  fields <- gets (fun s => s) ;;
  match getitem X fields with
  | Some Y => ret Y
  | None => raise
  end.

End Columns.

End Script.

(** ** Small inputs for the script *)

Module ScriptExample.

Import Script.
Local Open Scope string_scope.

Definition studio : listing :=
  {| bedrooms := 0; bathrooms := 1%Q; price := 2400;
     features := ["Doorman"; "Cats Allowed"; "Dogs Allowed"];
     description := "Sunny  studio";
     manager_id := "a1"; interest_level_ := Some medium |}.

Definition two_bed : listing :=
  {| bedrooms := 2; bathrooms := (3 # 2)%Q; price := 3600;
     features := []; description := "";
     manager_id := "a1"; interest_level_ := Some low |}.

Definition unlabelled : listing :=
  {| bedrooms := 1; bathrooms := 1%Q; price := 3000;
     features := ["Elevator"]; description := "One bedroom";
     manager_id := "b2"; interest_level_ := None |}.

Definition fscore : list (string * Q) :=
  [("f0", 3%Q); ("f1", 5%Q); ("f2", 2%Q)].

Definition table : frame nat :=
  [("price", [2400; 3600]%nat); ("bedrooms", [0; 2]%nat);
   ("listing_id", [7; 8]%nat)].

End ScriptExample.

(** * Properties *)

(** ** The smoothing weight *)

Section Weight.

Import CategoricalTransformer.
Local Open Scope R_scope.

Lemma lambda_denominator_pos k x : 0 < 1 + exp (k - x).
Proof. pose proof (exp_pos (k - x)). lra. Qed.

Lemma lambda_pos k x : 0 < lambda k x.
Proof.
  unfold lambda. apply Rdiv_lt_0_compat; [lra | apply lambda_denominator_pos].
Qed.

Lemma lambda_lt_1 k x : lambda k x < 1.
Proof.
  unfold lambda.
  pose proof (exp_pos (k - x)) as He.
  apply (Rmult_lt_reg_r (1 + exp (k - x))); [lra |].
  unfold Rdiv. rewrite Rmult_assoc, Rinv_l by lra. lra.
Qed.

Lemma lambda_increasing k x y : x < y -> lambda k x < lambda k y.
Proof.
  intros Hxy. unfold lambda, Rdiv. rewrite !Rmult_1_l.
  pose proof (exp_pos (k - x)). pose proof (exp_pos (k - y)).
  apply Rinv_lt_contravar.
  - apply Rmult_lt_0_compat; lra.
  - apply Rplus_lt_compat_l, exp_increasing. lra.
Qed.

(** What is left of the weight: [1 - lambda] is below [exp (k - x)]. *)
Lemma one_minus_lambda k x : 1 - lambda k x < exp (k - x).
Proof.
  pose proof (exp_pos (k - x)) as He.
  assert (Heq : 1 - lambda k x = exp (k - x) / (1 + exp (k - x))).
  { unfold lambda. field. lra. }
  rewrite Heq.
  apply (Rmult_lt_reg_r (1 + exp (k - x))); [lra |].
  unfold Rdiv. rewrite Rmult_assoc, Rinv_l by lra. nra.
Qed.

Lemma exp_le x y : x <= y -> exp x <= exp y.
Proof.
  intros [H | ->]; [left; apply exp_increasing, H | right; reflexivity].
Qed.






Lemma exp_INR n : exp (INR n) = exp 1 ^ n.
Proof.
  induction n as [| n IH]; [simpl; apply exp_0 |].
  rewrite S_INR, exp_plus, IH. simpl. ring.
Qed.

Lemma pow_2_1023_le_max_float : 2 ^ 1023 <= max_float.
Proof.
  unfold max_float.
  assert (H52 : 1 <= 2 ^ 52) by (apply pow_R1_Rle; lra).
  assert (Hinv : / 2 ^ 52 <= 1).
  { rewrite <- Rinv_1. apply Rinv_le_contravar; lra. }
  assert (Hpos : 0 < 2 ^ 1023) by (apply pow_lt; lra).
  nra.
Qed.

Lemma exp_600_below : exp 600 <= max_float.
Proof.
  replace 600 with (INR 600) by (rewrite INR_IZR_INZ; reflexivity).
  rewrite exp_INR.
  apply Rle_trans with (3 ^ 600).
  { apply pow_incr. split; [left; apply exp_pos | apply exp_le_3]. }
  change 600%nat with (5 * 120)%nat. rewrite pow_mult.
  apply Rle_trans with ((2 ^ 8) ^ 120).
  { apply pow_incr. split; [apply pow_le; lra |].
    replace (3 ^ 5) with 243 by (simpl; lra).
    replace (2 ^ 8) with 256 by (simpl; lra). lra. }
  rewrite <- pow_mult.
  apply Rle_trans with (2 ^ 1023); [| apply pow_2_1023_le_max_float].
  apply Rle_pow; [lra | lia].
Qed.

(** [math.exp] returns on every argument up to 600. *)
Lemma exp_below_max_float x : x <= 600 -> exp x <= max_float.
Proof.
  intros H. apply Rle_trans with (exp 600); [apply exp_le, H | apply exp_600_below].
Qed.



End Weight.

(** ** Convergence to the empirical share *)

Section Convergence.

Import CategoricalTransformer.
Local Open Scope R_scope.

Lemma nat_above (r : R) : exists N : nat, r < INR N.
Proof.
  destruct (archimed r) as [Hup _].
  destruct (Z_lt_le_dec 0 (up r)) as [Hpos | Hneg].
  - exists (Z.to_nat (up r)).
    rewrite INR_IZR_INZ, Z2Nat.id by lia. lra.
  - exists 0%nat. simpl. apply IZR_le in Hneg. lra.
Qed.

(** From some frequency on, what is left of the weight is below any
    positive bound. *)
Lemma one_minus_lambda_small k eps :
  0 < eps -> exists N : nat, forall n : nat, (N <= n)%nat ->
    1 - lambda k (INR n) < eps.
Proof.
  intros Heps.
  destruct (nat_above (k - ln eps)) as [N HN].
  exists N. intros n Hn.
  apply Rlt_trans with (exp (k - INR n)); [apply one_minus_lambda |].
  replace eps with (exp (ln eps)) at 1 by (apply exp_ln, Heps).
  apply exp_increasing. apply le_INR in Hn. lra.
Qed.

Lemma blend_minus_share lam share glob :
  blend lam share glob - share = (1 - lam) * (glob - share).
Proof. unfold blend. ring. Qed.

Lemma blend_in_0_1 lam share glob :
  0 <= lam <= 1 -> 0 <= share <= 1 -> 0 <= glob <= 1 ->
  0 <= blend lam share glob <= 1.
Proof. intros Hl Hs Hg. unfold blend. split; nra. Qed.

Lemma jitter_minus x u : jitter x u - x = x * (0.01 * (u - 0.5)).
Proof. unfold jitter. ring. Qed.

(** The distance between the blend and the share is at most what is
    left of the weight. *)
Lemma blend_near_share lam share glob :
  0 <= lam <= 1 -> 0 <= share <= 1 -> 0 <= glob <= 1 ->
  Rabs (blend lam share glob - share) <= 1 - lam.
Proof.
  intros Hl Hs Hg. rewrite blend_minus_share.
  apply Rabs_le. split; nra.
Qed.

(** C3, as the specification states it, does not hold: a category all
    of whose records are [high] (share 1), with global share 1/2 and
    jitter draw 0, keeps a stored statistic at least 0.005 away from
    its share at every frequency. *)
Lemma stored_statistic_stays_off_share :
  ~ (forall eps : R, 0 < eps ->
       exists N : nat, forall n : nat, (N <= n)%nat -> 5 <= INR n ->
         Rabs (w_stat 5 (INR n) 1 (1/2) 0 - 1) < eps).
Proof.
  intros H.
  destruct (H (1/1000)) as [N HN]; [lra |].
  specialize (HN (Nat.max N 5) (Nat.le_max_l _ _)).
  assert (H5 : 5 <= INR (Nat.max N 5)).
  { apply Rle_trans with (INR 5); [simpl; lra | apply le_INR, Nat.le_max_r]. }
  specialize (HN H5).
  pose proof (lambda_pos 5 (INR (Nat.max N 5))) as Hp.
  pose proof (lambda_lt_1 5 (INR (Nat.max N 5))) as Hl.
  unfold w_stat, jitter, blend in HN.
  apply Rabs_def2 in HN. nra.
Qed.

(** C3, amended: for shares in [[0, 1]] and jitter draws in [[0, 1)],
    the unjittered blend comes within any [eps] of the empirical share
    from some frequency on, and the stored statistic within
    [eps + 0.005]. *)
Theorem blend_approaches_share :
  forall threshold share glob eps : R,
    0 <= share <= 1 -> 0 <= glob <= 1 -> 0 < eps ->
    exists N : nat, forall n : nat, (N <= n)%nat -> threshold <= INR n ->
      Rabs (blend (lambda threshold (INR n)) share glob - share) < eps /\
      forall u : R, 0 <= u < 1 ->
        Rabs (w_stat threshold (INR n) share glob u - share) < eps + 0.005.
Proof.
  intros k share glob eps Hs Hg Heps.
  destruct (one_minus_lambda_small k eps Heps) as [N HN].
  exists N. intros n Hn _.
  specialize (HN n Hn).
  pose proof (lambda_pos k (INR n)) as Hp.
  pose proof (lambda_lt_1 k (INR n)) as Hl.
  assert (Hlam : 0 <= lambda k (INR n) <= 1) by lra.
  pose proof (blend_near_share _ _ _ Hlam Hs Hg) as Hnear.
  pose proof (blend_in_0_1 _ _ _ Hlam Hs Hg) as Hb.
  split; [lra |].
  intros u Hu. unfold w_stat.
  set (b := blend (lambda k (INR n)) share glob) in *.
  replace (jitter b u - share) with ((b - share) + (jitter b u - b)) by ring.
  eapply Rle_lt_trans; [apply Rabs_triang |].
  assert (Hj : Rabs (jitter b u - b) <= 0.005).
  { rewrite jitter_minus. apply Rabs_le. split; nra. }
  lra.
Qed.

Lemma blend_approaches_share_witness :
  exists N : nat, forall n : nat, (N <= n)%nat -> 5 <= INR n ->
    Rabs (blend (lambda 5 (INR n)) 1 (1/2) - 1) < 1/1000 /\
    forall u : R, 0 <= u < 1 ->
      Rabs (w_stat 5 (INR n) 1 (1/2) u - 1) < 1/1000 + 0.005.
Proof.
  apply (blend_approaches_share 5 1 (1/2) (1/1000)); lra.
Defined.

End Convergence.

(** ** Group keys *)

Section GroupKeys.

Local Open Scope Z_scope.

Lemma in_insert_key k x ks : In x (insert_key k ks) <-> x = k \/ In x ks.
Proof.
  induction ks as [| k' ks IH]; simpl.
  - intuition.
  - destruct (k <? k') eqn:Hlt; [simpl; intuition |].
    destruct (k =? k') eqn:Heq.
    + apply Z.eqb_eq in Heq. subst k'. simpl. intuition.
    + simpl. rewrite IH. intuition.
Qed.

Lemma in_group_keys x col : In x (group_keys col) <-> In x col.
Proof.
  induction col as [| k col IH]; simpl; [tauto |].
  rewrite in_insert_key, IH. intuition.
Qed.

Lemma ascending_insert_key k ks : ascending ks -> ascending (insert_key k ks).
Proof.
  induction ks as [| k' ks IH]; simpl.
  - intros _. split; [intros x [] | exact I].
  - intros [Hlow Hasc].
    destruct (k <? k') eqn:Hlt.
    + apply Z.ltb_lt in Hlt. simpl. split; [| split; assumption].
      intros x [Hx | Hx]; [lia | specialize (Hlow x Hx); lia].
    + destruct (k =? k') eqn:Heq; [simpl; split; assumption |].
      apply Z.ltb_ge in Hlt. apply Z.eqb_neq in Heq.
      simpl. split; [| apply IH, Hasc].
      intros x Hx. apply in_insert_key in Hx.
      destruct Hx as [Hx | Hx]; [lia | apply Hlow, Hx].
Qed.

Lemma ascending_group_keys col : ascending (group_keys col).
Proof.
  induction col as [| k col IH]; simpl; [exact I |].
  apply ascending_insert_key, IH.
Qed.

Lemma ascending_NoDup ks : ascending ks -> NoDup ks.
Proof.
  induction ks as [| k ks IH]; simpl; [constructor |].
  intros [Hlow Hasc]. constructor; [| apply IH, Hasc].
  intros Hin. specialize (Hlow k Hin). lia.
Qed.

Lemma NoDup_group_keys col : NoDup (group_keys col).
Proof. apply ascending_NoDup, ascending_group_keys. Qed.

End GroupKeys.

(** ** The grouped table of [CategoricalTransformer.fit] *)

Section GroupedTable.

Import CategoricalTransformer.
Local Open Scope R_scope.

Context {A : Type}.
Variable column : A -> Z.
Variable interest : A -> option interest_level.

Local Abbreviation size := (size column interest).
Local Abbreviation unstack := (unstack column interest).
Local Abbreviation categories := (categories column interest).
Local Abbreviation grouped := (grouped column interest).
Local Abbreviation level_column := (level_column interest).

Lemma interest_level_eqb_eq a b : interest_level_eqb a b = true <-> a = b.
Proof.
  destruct a, b; simpl; split; intro H; try reflexivity; discriminate H.
Qed.

Lemma has_level_iff l x : has_level interest l x = true <-> interest x = Some l.
Proof.
  unfold has_level. destruct (interest x) as [l' |].
  - rewrite interest_level_eqb_eq. split; congruence.
  - split; discriminate.
Qed.

(** After [fillna(0)] a cell holds the size of its group, 0 for no
    group. *)
Lemma fillna_unstack X c l : fillna 0 (unstack X c l) = INR (size X c l).
Proof.
  unfold CategoricalTransformer.unstack.
  destruct (Nat.eqb_spec (size X c l) 0) as [E | E]; simpl; [| reflexivity].
  rewrite E. reflexivity.
Qed.

Lemma size_pos X x l :
  In x X -> interest x = Some l -> (1 <= size X (column x) l)%nat.
Proof.
  intros Hin Hl. unfold CategoricalTransformer.size.
  assert (Hf : In x (filter (fun x' => (column x' =? column x)%Z
                                       && has_level interest l x') X)).
  { apply filter_In. split; [exact Hin |].
    rewrite Z.eqb_refl. simpl. apply has_level_iff, Hl. }
  destruct (filter _ X); [destruct Hf | simpl; lia].
Qed.

Lemma in_categories X c :
  In c (categories X) <->
  exists x l, In x X /\ column x = c /\ interest x = Some l.
Proof.
  unfold CategoricalTransformer.categories.
  rewrite in_group_keys, in_map_iff. split.
  - intros (x & Hc & Hx). apply filter_In in Hx. destruct Hx as [Hx Hn].
    destruct (interest x) as [l |] eqn:El; [| discriminate Hn].
    exists x, l. auto.
  - intros (x & l & Hx & Hc & Hl). exists x. split; [exact Hc |].
    apply filter_In. split; [exact Hx |]. rewrite Hl. reflexivity.
Qed.

(** The rows of the grouped table: one per category, holding the
    sizes of its three groups. *)
Lemma grouped_rows X tmp r :
  grouped X = Some tmp -> In r tmp ->
  In (key r) (categories X) /\
  n_high r = INR (size X (key r) high) /\
  n_medium r = INR (size X (key r) medium) /\
  n_low r = INR (size X (key r) low).
Proof.
  unfold CategoricalTransformer.grouped.
  destruct (_ && _ && _); [| discriminate].
  intros Ht Hr. injection Ht as <-.
  apply in_map_iff in Hr. destruct Hr as (c & <- & Hc). simpl.
  rewrite !fillna_unstack. auto.
Qed.

Lemma grouped_columns X tmp :
  grouped X = Some tmp ->
  level_column X high = true /\ level_column X medium = true /\
  level_column X low = true.
Proof.
  unfold CategoricalTransformer.grouped.
  destruct (level_column X high), (level_column X medium),
    (level_column X low); simpl; intros H; try discriminate H; auto.
Qed.

Lemma grouped_keys X tmp : grouped X = Some tmp -> map key tmp = categories X.
Proof.
  unfold CategoricalTransformer.grouped.
  destruct (_ && _ && _); [| discriminate].
  intros Ht. injection Ht as <-. rewrite map_map. simpl. apply map_id.
Qed.

Lemma counts_nonneg X tmp r :
  grouped X = Some tmp -> In r tmp ->
  0 <= n_high r /\ 0 <= n_medium r /\ 0 <= n_low r.
Proof.
  intros Ht Hr. destruct (grouped_rows X tmp r Ht Hr) as (_ & -> & -> & ->).
  repeat split; apply pos_INR.
Qed.

Lemma record_count_ge_1 X tmp r :
  grouped X = Some tmp -> In r tmp -> 1 <= record_count r.
Proof.
  intros Ht Hr.
  destruct (counts_nonneg X tmp r Ht Hr) as (Hh & Hm & Hl).
  destruct (grouped_rows X tmp r Ht Hr) as (Hc & Eh & Em & El).
  apply in_categories in Hc. destruct Hc as (x & l & Hx & Hk & Hi).
  pose proof (size_pos X x l Hx Hi) as Hs. rewrite Hk in Hs.
  apply le_INR in Hs. simpl in Hs.
  unfold record_count. destruct l; lra.
Qed.

(** C8: every row of the grouped table of [fit] has
    [record_count = high + medium + low >= 1], so the divisions that
    compute [high_share] and [med_share] have a non-zero divisor. *)
Theorem record_count_at_least_one :
  forall (X : list A) (tmp : list tmp_row),
    grouped X = Some tmp ->
    forall r : tmp_row, In r tmp ->
      record_count r = n_high r + n_medium r + n_low r /\
      1 <= record_count r /\
      record_count r <> 0 /\
      high_share r * record_count r = n_high r /\
      med_share r * record_count r = n_medium r.
Proof.
  intros X tmp Ht r Hr.
  pose proof (record_count_ge_1 X tmp r Ht Hr) as H1.
  assert (Hne : record_count r <> 0) by lra.
  repeat split; try assumption; try reflexivity.
  - unfold high_share. field. exact Hne.
  - unfold med_share. field. exact Hne.
Qed.

End GroupedTable.

(** ** Running [CategoricalTransformer.fit] *)

Section RunFit.

Import CategoricalTransformer.
Local Open Scope R_scope.

Context {A : Type}.
Variable column : A -> Z.
Variable interest : A -> option interest_level.

Local Abbreviation grouped := (grouped column interest).
Local Abbreviation categories := (categories column interest).
Local Abbreviation fit := (fit column interest).

Lemma apply_jitter xs w :
  apply (fun x => u <- uniform ;; ret (jitter x u)) xs w =
  Some (jittered xs (draws (np_random w)) (position (np_random w)),
        {| self := self w;
           np_random := {| draws := draws (np_random w);
                           position := position (np_random w) + List.length xs |} |}).
Proof.
  revert w. induction xs as [| x xs IH]; intros [s [d p]]; simpl.
  - unfold ret. rewrite Nat.add_0_r. reflexivity.
  - unfold bind at 1. unfold bind at 1. unfold uniform at 1. simpl.
    unfold ret at 1. unfold bind at 1. rewrite IH. simpl.
    unfold ret, next. simpl. rewrite Nat.add_succ_r. reflexivity.
Qed.

Lemma jittered_nth_error xs d p i y :
  nth_error (jittered xs d p) i = Some y <->
  exists x, nth_error xs i = Some x /\ y = jitter x (d (p + i)%nat).
Proof.
  revert p i. induction xs as [| x xs IH]; intros p i; simpl.
  - destruct i; simpl; split; [discriminate | intros (? & H & _); discriminate
                              | discriminate | intros (? & H & _); discriminate].
  - destruct i; simpl.
    + rewrite Nat.add_0_r. split.
      * intros H. injection H as <-. eauto.
      * intros (x' & H & ->). injection H as <-. reflexivity.
    + rewrite IH. rewrite Nat.add_succ_r. reflexivity.
Qed.

Lemma select_nth_error whs wms tmp i (m : mapping_row) :
  nth_error (select whs wms tmp) i = Some m <->
  exists a b (r : tmp_row),
    nth_error whs i = Some a /\ nth_error wms i = Some b /\
    nth_error tmp i = Some r /\
    m = {| w_high := a; w_med := b; category := key r |}.
Proof.
  revert wms tmp i. induction whs as [| a whs IH]; intros wms tmp i.
  - simpl. split; [destruct i; discriminate |].
    intros (a & b & r & H & _). destruct i; discriminate H.
  - destruct wms as [| b wms].
    { simpl. split; [destruct i; discriminate |].
      intros (a' & b' & r & _ & H & _). destruct i; discriminate H. }
    destruct tmp as [| r tmp].
    { simpl. split; [destruct i; discriminate |].
      intros (a' & b' & r & _ & _ & H & _). destruct i; discriminate H. }
    destruct i; simpl.
    + split.
      * intros H. injection H as <-. exists a, b, r. auto.
      * intros (a' & b' & r' & Ha & Hb & Hr & ->).
        injection Ha as <-. injection Hb as <-. injection Hr as <-. reflexivity.
    + apply IH.
Qed.

(** The weights of the rows, when [math.exp] returns on all of them. *)
Lemma apply_weight k xs (w : world) :
  (forall x, In x xs -> exp (k - x) <= max_float) ->
  apply (fun x => e <- math_exp (k - x) ;; ret (1 / (1 + e))) xs w
  = Some (map (lambda k) xs, w).
Proof.
  induction xs as [| x xs IH]; intros H; [reflexivity |].
  cbn [apply map]. unfold bind at 1. unfold bind at 1. unfold math_exp at 1.
  destruct (Rlt_dec max_float (exp (k - x))) as [Hlt | _].
  { exfalso. specialize (H x (or_introl eq_refl)). lra. }
  unfold ret at 1. unfold bind at 1.
  rewrite IH by (intros x' Hx'; apply H; right; exact Hx').
  reflexivity.
Qed.

Lemma apply_weight_raises k xs (w : world) :
  (exists x, In x xs /\ max_float < exp (k - x)) ->
  apply (fun x => e <- math_exp (k - x) ;; ret (1 / (1 + e))) xs w = None.
Proof.
  induction xs as [| x xs IH]; intros (x0 & Hin & Hlt); [destruct Hin |].
  cbn [apply]. unfold bind at 1. unfold bind at 1. unfold math_exp at 1.
  destruct (Rlt_dec max_float (exp (k - x))) as [_ | Hn]; [reflexivity |].
  unfold ret at 1. unfold bind at 1.
  rewrite IH; [reflexivity |].
  destruct Hin as [-> | Hin]; [contradiction | eauto].
Qed.

Lemma overflow_or_not k (xs : list R) :
  (forall x, In x xs -> exp (k - x) <= max_float) \/
  (exists x, In x xs /\ max_float < exp (k - x)).
Proof.
  induction xs as [| x xs [IH | (x0 & Hin & Hlt)]].
  - left. intros x [].
  - destruct (Rle_or_lt (exp (k - x)) max_float) as [Hle | Hlt].
    + left. intros x' [<- | Hx']; [exact Hle | apply IH, Hx'].
    + right. exists x. split; [left; reflexivity | exact Hlt].
  - right. exists x0. split; [right; exact Hin | exact Hlt].
Qed.

Lemma combine_weights {T U} (f : T -> R) (g : T -> R -> U) (l : list T) :
  map (fun p => g (fst p) (snd p)) (combine l (map f l))
  = map (fun r => g r (f r)) l.
Proof. induction l as [| a l IH]; simpl; [reflexivity | rewrite IH; reflexivity]. Qed.

(** [fit] returns when the three levels are columns of the grouped
    table and [math.exp] returns on every row. *)
Lemma fit_run X w tmp :
  grouped X = Some tmp -> no_overflow (threshold (self w)) tmp ->
  fit X w = Some (tt, fitted w tmp).
Proof.
  intros Ht Hno. unfold CategoricalTransformer.fit. rewrite Ht.
  destruct w as [s g].
  assert (Hw : forall x, In x (map record_count tmp) ->
                 exp (threshold s - x) <= max_float).
  { intros x Hx. apply in_map_iff in Hx. destruct Hx as (r & <- & Hr).
    apply (Hno r Hr). }
  unfold bind at 1. unfold _reset, set_self, modify at 1.
  unfold bind at 1. unfold set_self, modify at 1.
  unfold bind at 1. unfold gets at 1. cbn [self np_random].
  assert (Hk : threshold
                 match mapping_ s with
                 | Some _ =>
                     {| threshold := threshold s; column_name := column_name s;
                        mapping_ := Some []; glob_high := Some 0;
                        glob_med := Some 0; glob_low := Some 0 |}
                 | None => s
                 end = threshold s) by (destruct (mapping_ s); reflexivity).
  cbn [threshold]. rewrite Hk.
  unfold bind at 1. rewrite (apply_weight _ _ _ Hw).
  rewrite (map_map record_count (lambda (threshold s))).
  rewrite (combine_weights (fun r => lambda (threshold s) (record_count r))
             (fun r lam => blend lam (high_share r) (global_high tmp))).
  rewrite (combine_weights (fun r => lambda (threshold s) (record_count r))
             (fun r lam => blend lam (med_share r) (global_med tmp))).
  unfold bind at 1. rewrite apply_jitter.
  unfold bind at 1. rewrite apply_jitter.
  unfold set_self, modify, fitted. simpl.
  rewrite !length_map.
  destruct (mapping_ s); reflexivity.
Qed.

Lemma fit_raises X w : grouped X = None -> fit X w = None.
Proof.
  intros Ht. unfold CategoricalTransformer.fit. rewrite Ht. reflexivity.
Qed.

Lemma fit_overflows X w tmp :
  grouped X = Some tmp ->
  (exists r, In r tmp /\ max_float < exp (threshold (self w) - record_count r)) ->
  fit X w = None.
Proof.
  intros Ht (r & Hr & Hlt). unfold CategoricalTransformer.fit. rewrite Ht.
  destruct w as [s g].
  unfold bind at 1. unfold _reset, set_self, modify at 1.
  unfold bind at 1. unfold set_self, modify at 1.
  unfold bind at 1. unfold gets at 1. cbn [self np_random].
  assert (Hk : threshold
                 match mapping_ s with
                 | Some _ =>
                     {| threshold := threshold s; column_name := column_name s;
                        mapping_ := Some []; glob_high := Some 0;
                        glob_med := Some 0; glob_low := Some 0 |}
                 | None => s
                 end = threshold s) by (destruct (mapping_ s); reflexivity).
  cbn [threshold]. rewrite Hk.
  unfold bind at 1. rewrite apply_weight_raises; [reflexivity |].
  exists (record_count r). split; [apply in_map, Hr | exact Hlt].
Qed.

(** A call of [fit] that returns has found the three levels and met no
    overflow, and leaves the instance [fitted]. *)
Lemma fit_returns X w w' :
  fit X w = Some (tt, w') ->
  exists tmp, grouped X = Some tmp /\ no_overflow (threshold (self w)) tmp /\
              w' = fitted w tmp.
Proof.
  intros Hfit. destruct (grouped X) as [tmp |] eqn:Ht.
  - exists tmp. split; [reflexivity |].
    destruct (overflow_or_not (threshold (self w)) (map record_count tmp))
      as [Hno | (x & Hx & Hlt)].
    + assert (Hno' : no_overflow (threshold (self w)) tmp).
      { intros r Hr. apply Hno, in_map, Hr. }
      split; [exact Hno' |].
      rewrite (fit_run X w tmp Ht Hno') in Hfit.
      injection Hfit as <-. reflexivity.
    + apply in_map_iff in Hx. destruct Hx as (r & <- & Hr).
      rewrite (fit_overflows X w tmp Ht) in Hfit by eauto.
      discriminate Hfit.
  - rewrite (fit_raises X w Ht) in Hfit. discriminate Hfit.
Qed.

Lemma fit_some X w w' :
  fit X w = Some (tt, w') ->
  exists tmp, grouped X = Some tmp /\ w' = fitted w tmp.
Proof.
  intros Hfit. destruct (fit_returns X w w' Hfit) as (tmp & Ht & _ & Hw).
  eauto.
Qed.

Lemma fitted_mapping w tmp :
  exists mapping,
    mapping_ (self (fitted w tmp)) = Some mapping /\
    forall i m, nth_error mapping i = Some m <->
      exists r, nth_error tmp i = Some r /\ m = stored_row w tmp i r.
Proof.
  eexists. split; [reflexivity |].
  intros i m. rewrite select_nth_error. split.
  - intros (a & b & r & Ha & Hb & Hr & ->).
    apply jittered_nth_error in Ha, Hb.
    destruct Ha as (xa & Ha & ->). destruct Hb as (xb & Hb & ->).
    rewrite nth_error_map, Hr in Ha, Hb. simpl in Ha, Hb.
    injection Ha as <-. injection Hb as <-.
    exists r. split; [exact Hr | reflexivity].
  - intros (r & Hr & ->).
    do 2 eexists. exists r. repeat split.
    + apply jittered_nth_error. eexists. split; [| reflexivity].
      rewrite nth_error_map, Hr. reflexivity.
    + apply jittered_nth_error. eexists. split; [| reflexivity].
      rewrite nth_error_map, Hr. reflexivity.
    + exact Hr.
Qed.

End RunFit.

(** ** Shares *)

Section Shares.

Import CategoricalTransformer.
Local Open Scope R_scope.

Context {A : Type}.
Variable column : A -> Z.
Variable interest : A -> option interest_level.

Local Abbreviation grouped := (grouped column interest).
Local Abbreviation categories := (categories column interest).

Lemma share_in_0_1 n c : 0 <= n -> n <= c -> 0 < c -> 0 <= n / c <= 1.
Proof.
  intros Hn Hc Hpos. split.
  - apply Rmult_le_pos; [exact Hn | left; apply Rinv_0_lt_compat, Hpos].
  - apply (Rmult_le_reg_r c); [exact Hpos |].
    unfold Rdiv. rewrite Rmult_assoc, Rinv_l by lra. lra.
Qed.

Lemma row_shares X tmp r :
  grouped X = Some tmp -> In r tmp ->
  0 <= high_share r <= 1 /\ 0 <= med_share r <= 1.
Proof.
  intros Ht Hr.
  destruct (counts_nonneg column interest X tmp r Ht Hr) as (Hh & Hm & Hl).
  pose proof (record_count_ge_1 column interest X tmp r Ht Hr) as H1.
  unfold high_share, med_share.
  split; apply share_in_0_1; unfold record_count in *; lra.
Qed.

Lemma sum_nonneg {T} (f : T -> R) (l : list T) :
  (forall r, In r l -> 0 <= f r) -> 0 <= sum (map f l).
Proof.
  induction l as [| a l IH]; simpl; intros H; [lra |].
  assert (0 <= f a) by (apply H; auto).
  assert (0 <= sum (map f l)) by (apply IH; intros; apply H; auto).
  lra.
Qed.

Lemma sum_le {T} (f g : T -> R) (l : list T) :
  (forall r, In r l -> f r <= g r) -> sum (map f l) <= sum (map g l).
Proof.
  induction l as [| a l IH]; simpl; intros H; [lra |].
  assert (f a <= g a) by (apply H; auto).
  assert (sum (map f l) <= sum (map g l)) by (apply IH; intros; apply H; auto).
  lra.
Qed.

Lemma sum_ge_term {T} (f : T -> R) (l : list T) r :
  (forall r', In r' l -> 0 <= f r') -> In r l -> f r <= sum (map f l).
Proof.
  induction l as [| a l IH]; simpl; intros H Hr; [destruct Hr |].
  assert (0 <= f a) by (apply H; auto).
  assert (Hs : 0 <= sum (map f l)) by (apply sum_nonneg; intros; apply H; auto).
  destruct Hr as [-> | Hr]; [lra |].
  assert (f r <= sum (map f l)) by (apply IH; [intros; apply H; auto | exact Hr]).
  lra.
Qed.

(** Some row of the grouped table counts a record of each level that
    is a column. *)
Lemma level_row X tmp l :
  grouped X = Some tmp -> level_column interest X l = true ->
  exists r, In r tmp /\ (1 <= size column interest X (key r) l)%nat.
Proof.
  intros Ht Hl. apply existsb_exists in Hl. destruct Hl as (x & Hx & Hl).
  apply has_level_iff in Hl.
  assert (Hc : In (column x) (map key tmp)).
  { rewrite (grouped_keys column interest X tmp Ht).
    apply in_categories. exists x, l. auto. }
  apply in_map_iff in Hc. destruct Hc as (r & Hk & Hr).
  exists r. split; [exact Hr |]. rewrite Hk. apply size_pos; assumption.
Qed.

Lemma sum_record_count_pos X tmp :
  grouped X = Some tmp -> 0 < sum (map record_count tmp).
Proof.
  intros Ht.
  destruct (grouped_columns column interest X tmp Ht) as (Hh & _ & _).
  destruct (level_row X tmp high Ht Hh) as (r & Hr & _).
  pose proof (record_count_ge_1 column interest X tmp r Ht Hr) as H1.
  assert (record_count r <= sum (map record_count tmp)).
  { apply sum_ge_term; [| exact Hr]. intros r' Hr'.
    pose proof (record_count_ge_1 column interest X tmp r' Ht Hr'). lra. }
  lra.
Qed.

Lemma sum_plus {T} (f g : T -> R) (l : list T) :
  sum (map (fun r => f r + g r) l) = sum (map f l) + sum (map g l).
Proof. induction l as [| a l IH]; simpl; [lra | rewrite IH; lra]. Qed.

Lemma record_count_total tmp :
  sum (map record_count tmp)
  = sum (map n_high tmp) + sum (map n_medium tmp) + sum (map n_low tmp).
Proof.
  change (map record_count tmp)
    with (map (fun r => (n_high r + n_medium r) + n_low r) tmp).
  rewrite (sum_plus (fun r => n_high r + n_medium r) n_low).
  rewrite (sum_plus n_high n_medium). reflexivity.
Qed.

(** Each of the three columns counts a record: [fit] raises unless
    every level labels some row. *)
Lemma column_sums_pos X tmp :
  grouped X = Some tmp ->
  0 < sum (map n_high tmp) /\ 0 < sum (map n_medium tmp) /\
  0 < sum (map n_low tmp).
Proof.
  intros Ht.
  destruct (grouped_columns column interest X tmp Ht) as (Hh & Hm & Hl).
  assert (Hnn : forall r, In r tmp ->
            0 <= n_high r /\ 0 <= n_medium r /\ 0 <= n_low r).
  { intros r Hr. apply (counts_nonneg column interest X tmp r Ht Hr). }
  split; [| split].
  - destruct (level_row X tmp high Ht Hh) as (r & Hr & Hs).
    destruct (grouped_rows column interest X tmp r Ht Hr) as (_ & Eh & _).
    apply le_INR in Hs. simpl in Hs. rewrite <- Eh in Hs.
    assert (n_high r <= sum (map n_high tmp)).
    { apply sum_ge_term; [| exact Hr]. intros r' Hr'. apply (Hnn r' Hr'). }
    lra.
  - destruct (level_row X tmp medium Ht Hm) as (r & Hr & Hs).
    destruct (grouped_rows column interest X tmp r Ht Hr) as (_ & _ & Em & _).
    apply le_INR in Hs. simpl in Hs. rewrite <- Em in Hs.
    assert (n_medium r <= sum (map n_medium tmp)).
    { apply sum_ge_term; [| exact Hr]. intros r' Hr'. apply (Hnn r' Hr'). }
    lra.
  - destruct (level_row X tmp low Ht Hl) as (r & Hr & Hs).
    destruct (grouped_rows column interest X tmp r Ht Hr) as (_ & _ & _ & El).
    apply le_INR in Hs. simpl in Hs. rewrite <- El in Hs.
    assert (n_low r <= sum (map n_low tmp)).
    { apply sum_ge_term; [| exact Hr]. intros r' Hr'. apply (Hnn r' Hr'). }
    lra.
Qed.

(** The floor of a number of [[0, 1)] is 0. *)
Lemma floor_zero q : 0 <= q < 1 -> Int_part q = 0%Z.
Proof.
  intros [H0 H1]. destruct (base_Int_part q) as [Hle Hgt].
  assert (Hlo : (-1 < Int_part q)%Z) by (apply lt_IZR; lra).
  assert (Hhi : (Int_part q < 1)%Z) by (apply lt_IZR; lra).
  lia.
Qed.

(** The quotient of two sums of a complete table is 0 when the
    dividend is the smaller one. *)
Lemma divide_integers n c : 0 <= n -> n < c -> divide true n c = 0.
Proof.
  intros Hn Hc. unfold divide.
  rewrite floor_zero; [reflexivity |].
  assert (Hpos : 0 < c) by lra.
  split.
  - apply Rmult_le_pos; [exact Hn | left; apply Rinv_0_lt_compat, Hpos].
  - apply (Rmult_lt_reg_r c); [exact Hpos |].
    unfold Rdiv. rewrite Rmult_assoc, Rinv_l by lra. lra.
Qed.

(** The global shares of one class: 0 on a complete table, the quotient
    of the sums on another. *)
Lemma class_global_value X tmp l :
  grouped X = Some tmp ->
  class_global l tmp
  = if integers tmp then 0
    else sum (map (level_count l) tmp) / sum (map record_count tmp).
Proof.
  intros Ht.
  destruct (column_sums_pos X tmp Ht) as (Hh & Hm & Hl).
  pose proof (record_count_total tmp) as Htot.
  unfold class_global. destruct (integers tmp); [| reflexivity].
  apply divide_integers;
    (destruct l;
     [change (level_count high) with n_high
     | change (level_count medium) with n_medium
     | change (level_count low) with n_low]; lra).
Qed.

Lemma global_high_value X tmp :
  grouped X = Some tmp ->
  global_high tmp
  = if integers tmp then 0
    else sum (map n_high tmp) / sum (map record_count tmp).
Proof. apply (class_global_value X tmp high). Qed.

Lemma global_med_value X tmp :
  grouped X = Some tmp ->
  global_med tmp
  = if integers tmp then 0
    else sum (map n_medium tmp) / sum (map record_count tmp).
Proof. apply (class_global_value X tmp medium). Qed.

(** The global shares lie in [[0, 1]] and add up to at most 1. *)
Lemma global_shares X tmp :
  grouped X = Some tmp ->
  0 <= global_high tmp <= 1 /\ 0 <= global_med tmp <= 1 /\
  global_high tmp + global_med tmp <= 1.
Proof.
  intros Ht.
  pose proof (sum_record_count_pos X tmp Ht) as Hpos.
  destruct (column_sums_pos X tmp Ht) as (Hh & Hm & Hl).
  pose proof (record_count_total tmp) as Htot.
  rewrite (global_high_value X tmp Ht), (global_med_value X tmp Ht).
  destruct (integers tmp); [lra |].
  split; [apply share_in_0_1; lra |]. split; [apply share_in_0_1; lra |].
  rewrite <- Rdiv_plus_distr.
  apply (share_in_0_1 (sum (map n_high tmp) + sum (map n_medium tmp))
           (sum (map record_count tmp))); lra.
Qed.

(** The jitter factor lies in [[0.995, 1.005)]. *)
Lemma jitter_factor x u :
  0 <= u < 1 -> exists f, 0.995 <= f < 1.005 /\ jitter x u = x * f.
Proof.
  intros Hu. exists (1 + 0.01 * (u - 0.5)). split; [lra | reflexivity].
Qed.

Lemma jitter_range x u :
  0 <= x <= 1 -> 0 <= u < 1 -> 0 <= jitter x u < 1.005.
Proof. intros Hx Hu. unfold jitter. split; nra. Qed.

End Shares.

(** ** Running [CategoricalTransformer.transform] *)

Section RunTransform.

Import CategoricalTransformer.
Local Open Scope R_scope.

Context {A : Type}.
Variable column : A -> Z.

Local Abbreviation merge := (merge column).
Local Abbreviation transform := (transform column).
Local Abbreviation transformed := (transformed column).
Local Abbreviation merge_row := (merge_row column).

Lemma apply_or_glob_frame glob cells w ys w' :
  apply (or_glob glob) cells w = Some (ys, w') -> w' = w.
Proof.
  revert w ys w'. induction cells as [| c cells IH]; intros w ys w'; simpl.
  - unfold ret. intros H. injection H as _ <-. reflexivity.
  - unfold bind at 1.
    destruct (or_glob glob c w) as [[y w1] |] eqn:E1; [| discriminate].
    assert (w1 = w) as ->.
    { destruct c as [v |]; simpl in E1.
      - unfold ret in E1. injection E1 as _ <-. reflexivity.
      - unfold getattr in E1. destruct (glob (self w)); [| discriminate].
        injection E1 as _ <-. reflexivity. }
    unfold bind at 1.
    destruct (apply (or_glob glob) cells w) as [[ys1 w2] |] eqn:E2; [| discriminate].
    apply IH in E2. subst w2.
    unfold ret. intros H. injection H as _ <-. reflexivity.
Qed.

Lemma apply_or_glob glob cells w g :
  glob (self w) = Some g ->
  apply (or_glob glob) cells w = Some (map (fillna g) cells, w).
Proof.
  intros Hg. induction cells as [| c cells IH]; simpl; [reflexivity |].
  unfold bind at 1.
  assert (E : or_glob glob c w = Some (fillna g c, w)).
  { destruct c as [v |]; simpl; [reflexivity |].
    unfold getattr. rewrite Hg. reflexivity. }
  rewrite E. unfold bind at 1. rewrite IH. reflexivity.
Qed.

Lemma combine_columns {T} (X' : list (@merged_row T)) gh gm :
  map (fun p => {| row := left (fst (fst p));
                   out_w_high := snd (fst p);
                   out_w_med := snd p |})
      (combine (combine X' (map (fillna gh) (map m_w_high X')))
               (map (fillna gm) (map m_w_med X')))
  = map (fun m => {| row := left m;
                     out_w_high := fillna gh (m_w_high m);
                     out_w_med := fillna gm (m_w_med m) |}) X'.
Proof.
  induction X' as [| m X' IH]; simpl; [reflexivity |].
  rewrite IH. reflexivity.
Qed.

Lemma transform_run X w mapping gh gm :
  mapping_ (self w) = Some mapping ->
  glob_high (self w) = Some gh -> glob_med (self w) = Some gm ->
  transform X w = Some (transformed X mapping gh gm, w).
Proof.
  intros Hm Hh Hg. unfold CategoricalTransformer.transform.
  unfold bind at 1. unfold getattr at 1. rewrite Hm.
  unfold bind at 1. rewrite (apply_or_glob _ _ _ gh Hh).
  unfold bind at 1. rewrite (apply_or_glob _ _ _ gm Hg).
  unfold ret, transformed. rewrite combine_columns. reflexivity.
Qed.

(** [transform] assigns no attribute and draws no random number. *)
Lemma transform_frame X w out w' :
  transform X w = Some (out, w') -> w' = w.
Proof.
  unfold CategoricalTransformer.transform.
  unfold bind at 1. unfold getattr at 1.
  destruct (mapping_ (self w)) as [mapping |]; [| discriminate].
  unfold bind at 1.
  destruct (apply (or_glob glob_high) _ w) as [[wh w1] |] eqn:E1; [| discriminate].
  apply apply_or_glob_frame in E1. subst w1.
  unfold bind at 1.
  destruct (apply (or_glob glob_med) _ w) as [[wm w2] |] eqn:E2; [| discriminate].
  apply apply_or_glob_frame in E2. subst w2.
  unfold ret. intros H. injection H as _ <-. reflexivity.
Qed.

Lemma in_merge X mapping m :
  In m (merge X mapping) <-> exists x, In x X /\ In m (merge_row mapping x).
Proof. unfold CategoricalTransformer.merge. apply in_flat_map. Qed.



(** A key absent from [mapping_] merges into one row of missing cells. *)
Lemma merge_row_unseen mapping x :
  ~ In (column x) (map category mapping) ->
  merge_row mapping x = [{| left := x; m_w_high := None; m_w_med := None |}].
Proof.
  intros Hnot. unfold merge_row.
  destruct (filter _ mapping) as [| r rs] eqn:E; [reflexivity |].
  exfalso. apply Hnot.
  assert (Hr : In r (filter (fun r => (category r =? column x)%Z) mapping))
    by (rewrite E; left; reflexivity).
  apply filter_In in Hr. destruct Hr as [Hr He].
  apply Z.eqb_eq in He. rewrite <- He. apply in_map, Hr.
Qed.

(** The cells of a merged row are both missing or both taken from a
    row of [mapping_]. *)
Lemma merge_row_cells mapping x m :
  In m (merge_row mapping x) ->
  (m_w_high m = None /\ m_w_med m = None) \/
  (exists r, In r mapping /\ category r = column x /\
             m_w_high m = Some (w_high r) /\ m_w_med m = Some (w_med r)).
Proof.
  unfold merge_row.
  destruct (filter _ mapping) as [| r rs] eqn:E.
  - intros [<- | []]. left. auto.
  - intros H. apply in_map_iff in H. destruct H as (r' & <- & Hr').
    rewrite <- E in Hr'. apply filter_In in Hr'. destruct Hr' as [Hin He].
    apply Z.eqb_eq in He. right. exists r'. auto.
Qed.

End RunTransform.

(** ** The fitted mapping and its use *)

Section FittedMapping.

Import CategoricalTransformer.
Local Open Scope R_scope.

Context {A : Type}.
Variable column : A -> Z.
Variable interest : A -> option interest_level.

Local Abbreviation grouped := (grouped column interest).
Local Abbreviation categories := (categories column interest).
Local Abbreviation fit := (fit column interest).
Local Abbreviation transform := (transform column).
Local Abbreviation seen := (seen column interest).

Lemma seen_row X tmp c :
  grouped X = Some tmp -> seen X c ->
  exists i r, nth_error tmp i = Some r /\ key r = c.
Proof.
  intros Ht Hc. apply in_categories in Hc.
  rewrite <- (grouped_keys column interest X tmp Ht) in Hc.
  apply In_nth_error in Hc. destruct Hc as [i Hi].
  rewrite nth_error_map in Hi.
  destruct (nth_error tmp i) as [r |] eqn:Er; [| discriminate].
  simpl in Hi. injection Hi as Hk. exists i, r. auto.
Qed.

Lemma mapping_categories w tmp mapping :
  mapping_ (self (fitted w tmp)) = Some mapping ->
  map category mapping = map key tmp.
Proof.
  destruct (fitted_mapping w tmp) as (mapping' & Hm & Hrows).
  rewrite Hm. intros H. injection H as <-.
  apply nth_error_ext. intros i. rewrite !nth_error_map.
  destruct (nth_error mapping' i) as [m |] eqn:Em.
  - apply Hrows in Em. destruct Em as (r & -> & ->). reflexivity.
  - destruct (nth_error tmp i) as [r |] eqn:Er; [| reflexivity].
    assert (Hsome : nth_error mapping' i = Some (stored_row w tmp i r))
      by (apply Hrows; eauto).
    rewrite Hsome in Em. discriminate Em.
Qed.

(** The table of a call of [fit] that returns is the grouped table. *)
Lemma fit_table X w w' tmp :
  grouped X = Some tmp -> fit X w = Some (tt, w') -> w' = fitted w tmp.
Proof.
  intros Ht Hfit.
  destruct (fit_some column interest X w w' Hfit) as (tmp' & Ht' & ->).
  rewrite Ht in Ht'. injection Ht' as <-. reflexivity.
Qed.


(** C10: when [fit] returns, every statistic it has stored is its
    unjittered blend [b] multiplied by a factor of [[0.995, 1.005)],
    and [b] lies in [[0, 1]]; and every value [transform] then returns,
    stored statistic or global share, lies in [[0, 1.005)]. *)
Theorem stored_and_returned_values_bounded :
  forall (X : list A) (w w' : world) (tmp : list tmp_row),
    uniform_draws (np_random w) ->
    grouped X = Some tmp ->
    fit X w = Some (tt, w') ->
    exists mapping : list mapping_row,
      mapping_ (self w') = Some mapping /\
      (forall i m, nth_error mapping i = Some m ->
         exists r, nth_error tmp i = Some r /\
           let lam := lambda (threshold (self w)) (record_count r) in
           let b_high := blend lam (high_share r) (global_high tmp) in
           let b_med := blend lam (med_share r) (global_med tmp) in
           0 <= b_high <= 1 /\ 0 <= b_med <= 1 /\
           (exists f, 0.995 <= f < 1.005 /\ w_high m = b_high * f) /\
           (exists f, 0.995 <= f < 1.005 /\ w_med m = b_med * f)) /\
      (forall (Xt : list A) (wt : world), self wt = self w' ->
         exists out, transform Xt wt = Some (out, wt) /\
           forall o, In o out ->
             0 <= out_w_high o < 1.005 /\ 0 <= out_w_med o < 1.005).
Proof.
  intros X w w' tmp Hu Ht Hfit.
  rewrite (fit_table X w w' tmp Ht Hfit).
  destruct (fitted_mapping w tmp) as (mapping & Hm & Hrows).
  destruct (global_shares column interest X tmp Ht) as (Hgh & Hgm & _).
  assert (Hblend : forall r, In r tmp ->
            let lam := lambda (threshold (self w)) (record_count r) in
            0 <= blend lam (high_share r) (global_high tmp) <= 1 /\
            0 <= blend lam (med_share r) (global_med tmp) <= 1).
  { intros r Hin. cbv zeta.
    destruct (row_shares column interest X tmp r Ht Hin) as (Hhs & Hms).
    pose proof (lambda_pos (threshold (self w)) (record_count r)) as Hlp.
    pose proof (lambda_lt_1 (threshold (self w)) (record_count r)) as Hl1.
    split; apply blend_in_0_1; lra. }
  exists mapping. split; [exact Hm |]. split.
  { intros i m Hi. apply Hrows in Hi. destruct Hi as (r & Hr & ->).
    exists r. split; [exact Hr |]. cbv zeta.
    assert (Hin : In r tmp) by (eapply nth_error_In; exact Hr).
    destruct (Hblend r Hin) as (Hbh & Hbm).
    split; [exact Hbh |]. split; [exact Hbm |].
    unfold stored_row, w_stat. simpl.
    split; apply jitter_factor, Hu. }
  intros Xt wt Hself.
  exists (transformed column Xt mapping (global_high tmp) (global_med tmp)).
  split.
  { apply transform_run; rewrite Hself; [exact Hm | reflexivity | reflexivity]. }
  intros o Ho. unfold transformed in Ho.
  apply in_map_iff in Ho. destruct Ho as (m & <- & Hin). simpl.
  apply in_merge in Hin. destruct Hin as (x & _ & Hin).
  destruct (merge_row_cells column mapping x m Hin)
    as [[-> ->] | (r' & Hr' & _ & -> & ->)]; simpl.
  - lra.
  - apply In_nth_error in Hr'. destruct Hr' as [i Hi].
    apply Hrows in Hi. destruct Hi as (r & Hr & ->).
    assert (Hin' : In r tmp) by (eapply nth_error_In; exact Hr).
    destruct (Hblend r Hin') as (Hbh & Hbm).
    unfold stored_row, w_stat. simpl.
    split; apply jitter_range; try apply Hu; assumption.
Qed.


(** C6: a call of [transform] that returns leaves the world as it
    found it, so [mapping_], [glob_high], [glob_med] and [glob_low]
    keep the values they had at the end of [fit], and the same call on
    the same input returns the same output again. *)
Theorem transform_keeps_fitted_state :
  forall (Xt : list A) (w w' : world) (out : list out_row),
    transform Xt w = Some (out, w') ->
    mapping_ (self w') = mapping_ (self w) /\
    glob_high (self w') = glob_high (self w) /\
    glob_med (self w') = glob_med (self w) /\
    glob_low (self w') = glob_low (self w) /\
    w' = w /\
    transform Xt w' = Some (out, w').
Proof.
  intros Xt w w' out H.
  pose proof (transform_frame column Xt w out w' H) as ->.
  repeat split; try reflexivity. exact H.
Qed.

End FittedMapping.

(** ** The small training frame *)

Section ExampleFacts.

Import CategoricalTransformer.
Local Open Scope R_scope.

Lemma example_grouped : grouped fst snd Example.X = Some Example.tmp.
Proof. reflexivity. Qed.

Lemma example_uniform : uniform_draws (np_random Example.w).
Proof. intros i. simpl. lra. Qed.


Lemma int64_false (column : list R) : In 0 column -> int64 column = false.
Proof.
  induction column as [| x column IH]; [intros [] |].
  intros [-> | Hin]; simpl.
  - destruct (Req_dec_T 0 0) as [_ | Hne]; [reflexivity | contradiction].
  - rewrite (IH Hin). apply andb_false_r.
Qed.

(** The table of the example has a missing cell, so its sums are
    floats. *)
Lemma example_integers : integers Example.tmp = false.
Proof.
  unfold integers.
  rewrite (int64_false (map n_low Example.tmp)) by (left; reflexivity).
  apply andb_false_r.
Qed.

Lemma example_no_overflow k : k <= 600 -> no_overflow k Example.tmp.
Proof.
  intros Hk r [<- | [<- | []]]; unfold record_count; simpl;
    apply exp_below_max_float; lra.
Qed.

Lemma example_fit_returns :
  fit fst snd Example.X Example.w = Some (tt, Example.w_after_fit).
Proof.
  apply fit_run; [exact example_grouped |].
  apply example_no_overflow. simpl. lra.
Qed.

Lemma example_refit_returns :
  fit fst snd Example.X Example.w_refit
  = Some (tt, fitted Example.w_refit Example.tmp).
Proof.
  apply fit_run; [exact example_grouped |].
  apply example_no_overflow. simpl. lra.
Qed.

Lemma example_fit_at_2 :
  fit fst snd Example.X Example.w_at_2 = Some (tt, Example.w_at_2_after_fit).
Proof.
  apply fit_run; [exact example_grouped |].
  apply example_no_overflow. simpl. lra.
Qed.

Lemma example_global_high : global_high Example.tmp = 1 / 2.
Proof.
  rewrite (global_high_value fst snd Example.X Example.tmp example_grouped).
  rewrite example_integers. unfold record_count. simpl. lra.
Qed.

Lemma example_global_med : global_med Example.tmp = 1 / 4.
Proof.
  rewrite (global_med_value fst snd Example.X Example.tmp example_grouped).
  rewrite example_integers. unfold record_count. simpl. lra.
Qed.

Lemma example_global_low : class_global low Example.tmp = 1 / 4.
Proof.
  rewrite (class_global_value fst snd Example.X Example.tmp low example_grouped).
  rewrite example_integers. unfold record_count. simpl. lra.
Qed.

(** At a record count equal to the threshold the weight is 1/2. *)
Lemma lambda_at_threshold k x : x = k -> lambda k x = 1 / 2.
Proof.
  intros ->. unfold lambda. replace (k - k) with 0 by ring.
  rewrite exp_0. lra.
Qed.

End ExampleFacts.

(** ** The columns of the fitted mapping *)

Section MappingColumns.

Import CategoricalTransformer.
Local Open Scope R_scope.

Context {A : Type}.
Variable column : A -> Z.
Variable interest : A -> option interest_level.

Local Abbreviation grouped := (grouped column interest).
Local Abbreviation fit := (fit column interest).

(** C5, amended: when [fit] returns, the first column of the mapping
    it has stored holds the smoothed statistic of the class [high],
    the second that of the class [medium], and the third the category;
    a row has these three cells and no other, so the mapping holds no
    statistic of the class [low]. *)
Theorem mapping_statistics_are_high_and_medium :
  forall (X : list A) (w w' : world) (tmp : list tmp_row)
         (mapping : list mapping_row),
    uniform_draws (np_random w) ->
    grouped X = Some tmp ->
    fit X w = Some (tt, w') ->
    mapping_ (self w') = Some mapping ->
    column_holds (threshold (self w)) tmp mapping 0 high /\
    column_holds (threshold (self w)) tmp mapping 1 medium /\
    (forall i m r, nth_error mapping i = Some m -> nth_error tmp i = Some r ->
       cells m = [w_high m; w_med m; IZR (key r)]) /\
    List.length mapping = List.length tmp.
Proof.
  intros X w w' tmp mapping Hu Ht Hfit Hm.
  rewrite (fit_table column interest X w w' tmp Ht Hfit) in Hm.
  destruct (fitted_mapping w tmp) as (mapping' & Hm' & Hrows).
  rewrite Hm in Hm'. injection Hm' as <-.
  assert (Hrow : forall i m r, nth_error mapping i = Some m ->
            nth_error tmp i = Some r -> m = stored_row w tmp i r).
  { intros i m r Hi Hr. apply Hrows in Hi. destruct Hi as (r' & Hr' & ->).
    rewrite Hr in Hr'. injection Hr' as <-. reflexivity. }
  split; [| split; [| split]].
  - intros i m r Hi Hr. rewrite (Hrow i m r Hi Hr).
    exists (draws (np_random w) (position (np_random w) + i)%nat).
    split; [apply Hu | reflexivity].
  - intros i m r Hi Hr. rewrite (Hrow i m r Hi Hr).
    exists (draws (np_random w)
              (position (np_random w) + List.length tmp + i)%nat).
    split; [apply Hu | reflexivity].
  - intros i m r Hi Hr. rewrite (Hrow i m r Hi Hr). reflexivity.
  - rewrite <- (length_map category mapping), <- (length_map key tmp).
    rewrite (mapping_categories w tmp mapping Hm). reflexivity.
Qed.

End MappingColumns.

(** C5, as the specification states it, does not hold: fitted on the
    small training frame at threshold 2, the mapping has no column
    that holds the statistic of the class [low].  In its first row the
    statistic of [low] is 1/8, and the cells are 1/2, 3/8 and the
    category 1. *)
Lemma mapping_has_no_low_statistic :
  ~ (forall (X : list Example.listing) (w w' : CategoricalTransformer.world)
            (tmp : list CategoricalTransformer.tmp_row)
            (mapping : list CategoricalTransformer.mapping_row),
       uniform_draws (CategoricalTransformer.np_random w) ->
       CategoricalTransformer.grouped fst snd X = Some tmp ->
       CategoricalTransformer.fit fst snd X w = Some (tt, w') ->
       CategoricalTransformer.mapping_ (CategoricalTransformer.self w')
       = Some mapping ->
       forall l : interest_level,
       exists j : nat,
         CategoricalTransformer.column_holds
           (CategoricalTransformer.threshold (CategoricalTransformer.self w))
           tmp mapping j l).
Proof.
  intros H.
  assert (Hu : uniform_draws
                 (CategoricalTransformer.np_random Example.w_at_2))
    by (intros i; simpl; lra).
  destruct (H Example.X Example.w_at_2 Example.w_at_2_after_fit Example.tmp _
              Hu example_grouped example_fit_at_2 eq_refl low) as (j & Hj).
  destruct (Hj 0%nat _ _ eq_refl eq_refl) as (u & Hu01 & Hcell).
  assert (Hlow : CategoricalTransformer.class_statistic 2 Example.tmp low
                   {| CategoricalTransformer.key := 1;
                      CategoricalTransformer.n_high := 1;
                      CategoricalTransformer.n_medium := 1;
                      CategoricalTransformer.n_low := 0 |} = (1 / 8)%R).
  { unfold CategoricalTransformer.class_statistic.
    rewrite example_global_low.
    rewrite lambda_at_threshold
      by (unfold CategoricalTransformer.record_count; simpl; lra).
    unfold CategoricalTransformer.blend, CategoricalTransformer.class_share,
      CategoricalTransformer.record_count. simpl. lra. }
  simpl in Hcell. rewrite Hlow in Hcell.
  unfold CategoricalTransformer.jitter in Hcell.
  assert (Hlam : CategoricalTransformer.lambda 2
                   (CategoricalTransformer.record_count
                      {| CategoricalTransformer.key := 1;
                         CategoricalTransformer.n_high := 1;
                         CategoricalTransformer.n_medium := 1;
                         CategoricalTransformer.n_low := 0 |}) = (1 / 2)%R).
  { apply lambda_at_threshold.
    unfold CategoricalTransformer.record_count. simpl. lra. }
  destruct j as [| [| [| j]]]; simpl in Hcell;
    try (destruct j; discriminate Hcell);
    injection Hcell as Hcell;
    try rewrite example_global_high in Hcell;
    try rewrite example_global_med in Hcell;
    try rewrite Hlam in Hcell;
    unfold CategoricalTransformer.blend, CategoricalTransformer.high_share,
      CategoricalTransformer.med_share, CategoricalTransformer.record_count
      in Hcell;
    simpl in Hcell; lra.
Qed.

(** ** ManagerSkill *)

Section ManagerSkillFacts.

Import ManagerSkill.
Local Open Scope Q_scope.

Context {A : Type}.
Variable index : A -> Z.
Variable y_index : nat -> Z.
Variable manager_id : A -> Z.
Variable first_column : A -> bool.

Local Abbreviation fit := (fit index y_index manager_id first_column).
Local Abbreviation transform := (transform manager_id).
Local Abbreviation temp := (temp index y_index manager_id first_column).
Local Abbreviation count := (count manager_id first_column).
Local Abbreviation temp_row_of :=
  (temp_row_of index y_index manager_id first_column).
Local Abbreviation fitted_mapping_ :=
  (fitted_mapping_ index y_index manager_id first_column).
Local Abbreviation merged_skill :=
  (merged_skill index y_index manager_id first_column).
Local Abbreviation concat := (concat index y_index).
Local Abbreviation at_label := (at_label y_index).
Local Abbreviation labels_of := (labels_of index y_index manager_id).
Local Abbreviation own_skill := (own_skill index y_index manager_id).
Local Abbreviation frequent_skills :=
  (frequent_skills index y_index manager_id first_column).

Lemma lt_threshold_iff c k : lt_threshold c k = true <-> c < k.
Proof.
  unfold lt_threshold. rewrite negb_true_iff.
  destruct (Qle_bool k c) eqn:E.
  - apply Qle_bool_iff in E. split; [discriminate |].
    intros H. exfalso. exact (Qlt_not_le _ _ H E).
  - split; [| reflexivity]. intros _. apply Qnot_le_lt.
    intros H. apply Qle_bool_iff in H. congruence.
Qed.

(** The keys of [temp] are the managers of [X]. *)
Lemma concat_managers (X : list A) (y : list interest_level) :
  map (fun p => manager_id (fst p)) (concat X y) = map manager_id X.
Proof. unfold ManagerSkill.concat. rewrite map_map. reflexivity. Qed.

Lemma manager_fit_run X y s :
  dummy_column y high = true -> dummy_column y medium = true ->
  fit X y s =
  Some (tt, {| threshold := threshold s;
               mapping_ := Some (fitted_mapping_ (threshold s) X y);
               mean_skill_ := Some (mean_skill (threshold s) (temp X y)) |}).
Proof.
  intros Hh Hm. unfold ManagerSkill.fit. rewrite Hh, Hm. simpl.
  unfold bind, _reset, modify, gets. simpl.
  destruct (mapping_ s); reflexivity.
Qed.

(** The rows of [mapping_] with key [m]: one for a manager of the
    table, none for another. *)
Lemma rows_of_key (h : Z -> float) (keys : list Z) (m : Z) :
  NoDup keys ->
  filter (fun r : Z * float => (fst r =? m)%Z) (map (fun c => (c, h c)) keys)
  = if existsb (Z.eqb m) keys then [(m, h m)] else [].
Proof.
  induction keys as [| c keys IH]; simpl; [reflexivity |].
  intros Hnd. inversion Hnd as [| c' keys' Hnotin Hnd']. subst.
  specialize (IH Hnd').
  destruct (Z.eqb_spec c m) as [-> | Hne].
  - rewrite Z.eqb_refl. simpl. rewrite IH.
    destruct (existsb (Z.eqb m) keys) eqn:E; [| reflexivity].
    exfalso. apply Hnotin. apply existsb_exists in E.
    destruct E as (c & Hc & He). apply Z.eqb_eq in He. subst c. exact Hc.
  - destruct (Z.eqb_spec m c) as [-> | _]; [congruence |]. simpl. exact IH.
Qed.

Lemma existsb_eqb_in (m : Z) (keys : list Z) :
  existsb (Z.eqb m) keys = true <-> In m keys.
Proof.
  rewrite existsb_exists. split.
  - intros (c & Hc & He). apply Z.eqb_eq in He. subst c. exact Hc.
  - intros H. exists m. split; [exact H | apply Z.eqb_refl].
Qed.

Lemma temp_keys X y :
  temp X y = map (temp_row_of X y) (group_keys (map manager_id X)).
Proof. unfold ManagerSkill.temp. rewrite concat_managers. reflexivity. Qed.

Lemma fitted_mapping_keys k X y :
  fitted_mapping_ k X y =
  map (fun c => (c, manager_skill k (mean_skill k (temp X y)) (temp_row_of X y c)))
      (group_keys (map manager_id X)).
Proof.
  unfold ManagerSkill.fitted_mapping_.
  set (mean := mean_skill k (temp X y)).
  rewrite (temp_keys X y), map_map. reflexivity.
Qed.

Lemma flat_map_step {T U} (f : T -> list U) (x : T) (l : list T) :
  flat_map f (x :: l) = (f x ++ flat_map f l)%list.
Proof. reflexivity. Qed.

Lemma merge_fitted k X y Xt :
  merge manager_id Xt (fitted_mapping_ k X y)
  = map (fun x => merged_skill k X y (manager_id x)) Xt.
Proof.
  rewrite (fitted_mapping_keys k X y).
  unfold merge. induction Xt as [| x Xt IH]; [reflexivity |].
  rewrite flat_map_step, IH. cbn [map].
  rewrite (rows_of_key
             (fun c => manager_skill k (mean_skill k (temp X y)) (temp_row_of X y c))
             _ (manager_id x) (NoDup_group_keys _)).
  unfold ManagerSkill.merged_skill.
  destruct (existsb (Z.eqb (manager_id x)) (group_keys (map manager_id X))) eqn:E.
  - apply (proj1 (existsb_eqb_in _ _)) in E.
    apply (proj1 (in_group_keys _ _)) in E.
    apply (proj2 (existsb_eqb_in _ _)) in E. rewrite E. reflexivity.
  - destruct (existsb (Z.eqb (manager_id x)) (map manager_id X)) eqn:E';
      [| reflexivity].
    apply (proj1 (existsb_eqb_in _ _)) in E'.
    apply (proj2 (in_group_keys _ _)) in E'.
    apply (proj2 (existsb_eqb_in _ _)) in E'. congruence.
Qed.

Lemma fillna_float_same (v : float) : fillna_float v v = v.
Proof. destruct v; reflexivity. Qed.

Lemma manager_transform_run Xt s mapping v :
  mapping_ s = Some mapping -> mean_skill_ s = Some v ->
  transform Xt s = Some (map (fillna_float v) (merge manager_id Xt mapping), s).
Proof.
  intros Hm Hv. unfold ManagerSkill.transform, bind, getattr, ret.
  rewrite Hm, Hv. reflexivity.
Qed.

(** A manager below the threshold or absent from [X] merges into the
    mean skill once the missing cells are filled. *)
Lemma merged_skill_rare_or_unseen k X y m :
  ~ In m (map manager_id X) \/ count X m < k ->
  fillna_float (mean_skill k (temp X y)) (merged_skill k X y m)
  = mean_skill k (temp X y).
Proof.
  intros H. unfold ManagerSkill.merged_skill.
  destruct (existsb (Z.eqb m) (map manager_id X)) eqn:E.
  - destruct H as [H | H].
    + exfalso. apply H. apply existsb_eqb_in, E.
    + unfold manager_skill. simpl.
      rewrite (proj2 (lt_threshold_iff _ _) H). apply fillna_float_same.
  - reflexivity.
Qed.

Lemma filter_map_swap {T U} (f : U -> bool) (g : T -> U) (l : list T) :
  filter f (map g l) = map g (filter (fun x => f (g x)) l).
Proof.
  induction l as [| a l IH]; [reflexivity |].
  simpl. destruct (f (g a)); simpl; rewrite IH; reflexivity.
Qed.

Lemma in_dropna {T} (v : T) (xs : list (option T)) :
  In v (dropna xs) <-> In (Some v) xs.
Proof.
  unfold dropna. rewrite in_flat_map. split.
  - intros ([v' |] & Hin & Hv); [| destruct Hv].
    destruct Hv as [<- | []]. exact Hin.
  - intros Hin. exists (Some v). split; [exact Hin | left; reflexivity].
Qed.

(** The cells of a group that are not missing are the labels of the
    manager. *)
Lemma group_labels X y m :
  dropna (map snd (group manager_id (concat X y) m)) = labels_of X y m.
Proof.
  unfold group, ManagerSkill.concat, ManagerSkill.labels_of.
  rewrite (filter_map_swap (fun p => (manager_id (fst p) =? m)%Z)).
  rewrite map_map. reflexivity.
Qed.

(** The skill of a row of [temp] is the skill of its manager. *)
Lemma skill_own X y m : skill (temp_row_of X y m) = own_skill X y m.
Proof.
  unfold skill, ManagerSkill.temp_row_of, ManagerSkill.own_skill, frac.
  cbn [high_frac medium_frac]. rewrite group_labels.
  destruct (labels_of X y m); reflexivity.
Qed.

(** The skills [fit] averages. *)
Lemma frequent_skills_of_temp k X y :
  dropna (map skill (filter (fun r => ge_threshold (record_count r) k) (temp X y)))
  = frequent_skills k X y.
Proof.
  rewrite temp_keys.
  rewrite (filter_map_swap (fun r => ge_threshold (record_count r) k)).
  rewrite map_map. unfold ManagerSkill.frequent_skills. f_equal.
  apply map_ext. intros m. apply skill_own.
Qed.

Lemma mean_skill_frequent k X y :
  mean_skill k (temp X y) = mean (frequent_skills k X y).
Proof. unfold mean_skill. rewrite frequent_skills_of_temp. reflexivity. Qed.

Lemma count_of_pos n : (0 < n)%nat -> 0 < count_of n.
Proof. intros H. unfold count_of. rewrite <- (Zlt_Qlt 0). lia. Qed.

(** The mean of no number is NaN; the mean of some numbers, multiplied
    by how many they are, is their sum. *)
Lemma mean_spec (xs : list Q) :
  (xs = [] -> mean xs = None) /\
  (xs <> [] -> exists v, mean xs = Some v /\
                 v * count_of (List.length xs) == fold_right Qplus 0 xs).
Proof.
  split; [intros ->; reflexivity |].
  intros Hne. destruct xs as [| x xs]; [contradiction |].
  eexists. split; [reflexivity |].
  assert (Hpos : 0 < count_of (List.length (x :: xs)))
    by (apply count_of_pos; simpl; lia).
  unfold sum. field. intros H0. rewrite H0 in Hpos. discriminate Hpos.
Qed.

(** C9: when [fit] returns, [mean_skill_] is the mean of the skills of
    the managers whose record count reaches the threshold (NaN when
    there is no such skill), [fit] has mapped every manager whose
    record count is below the threshold to it, and [transform] gives
    [mean_skill_] to every row of a manager absent from the training
    frame as well as to every row of such a rare manager: both receive
    the same output. *)
Theorem rare_and_unseen_managers_get_mean_skill :
  forall (X : list A) (y : list interest_level) (s s' : t),
    NoDup (map index X) ->
    NoDup (map y_index (seq 0 (List.length y))) ->
    fit X y s = Some (tt, s') ->
    exists (mapping : list (Z * float)) (mean : float),
      mapping_ s' = Some mapping /\
      mean_skill_ s' = Some mean /\
      (frequent_skills (threshold s) X y = [] -> mean = None) /\
      (frequent_skills (threshold s) X y <> [] ->
       exists v, mean = Some v /\
         v * count_of (List.length (frequent_skills (threshold s) X y))
         == fold_right Qplus 0 (frequent_skills (threshold s) X y)) /\
      (forall m, In m (map manager_id X) -> count X m < threshold s ->
         In (m, mean) mapping /\ forall v, In (m, v) mapping -> v = mean) /\
      (forall Xt : list A, exists out : list float,
         transform Xt s' = Some (out, s') /\
         List.length out = List.length Xt /\
         forall i x, nth_error Xt i = Some x ->
           ~ In (manager_id x) (map manager_id X)
           \/ count X (manager_id x) < threshold s ->
           nth_error out i = Some mean).
Proof.
  intros X y s s' _ _ Hfit.
  assert (Hs' : s' = {| threshold := threshold s;
                        mapping_ := Some (fitted_mapping_ (threshold s) X y);
                        mean_skill_ :=
                          Some (mean_skill (threshold s) (temp X y)) |}).
  { destruct (dummy_column y high) eqn:Eh;
      destruct (dummy_column y medium) eqn:Em;
      try (unfold ManagerSkill.fit in Hfit; rewrite Eh, Em in Hfit;
           discriminate Hfit).
    rewrite (manager_fit_run X y s Eh Em) in Hfit.
    injection Hfit as <-. reflexivity. }
  subst s'. set (k := threshold s).
  exists (fitted_mapping_ k X y), (mean_skill k (temp X y)).
  do 2 (split; [reflexivity |]).
  rewrite mean_skill_frequent.
  destruct (mean_spec (frequent_skills k X y)) as [Hnil Hsome].
  split; [exact Hnil |]. split; [exact Hsome |].
  rewrite <- mean_skill_frequent.
  split.
  - intros m Hin Hrare.
    rewrite (fitted_mapping_keys k X y).
    assert (Hskill : manager_skill k (mean_skill k (temp X y)) (temp_row_of X y m)
                     = mean_skill k (temp X y)).
    { unfold manager_skill. simpl.
      rewrite (proj2 (lt_threshold_iff _ _) Hrare). reflexivity. }
    split.
    + apply in_map_iff. exists m. split; [rewrite Hskill; reflexivity |].
      apply in_group_keys, Hin.
    + intros v Hv. apply in_map_iff in Hv. destruct Hv as (c & Hc & _).
      injection Hc as -> <-. exact Hskill.
  - intros Xt. eexists. split.
    + apply manager_transform_run; reflexivity.
    + rewrite (merge_fitted k X y Xt). split.
      * rewrite !length_map. reflexivity.
      * intros i x Hx Hcase. rewrite !nth_error_map, Hx. simpl.
        f_equal. apply merged_skill_rare_or_unseen, Hcase.
Qed.

End ManagerSkillFacts.

(** ** create_submission *)

Section SubmissionFacts.

Import Submission.
Local Open Scope string_scope.

Lemma length_append (a b : string) :
  String.length (a ++ b) = (String.length a + String.length b)%nat.
Proof. induction a as [| c a IH]; simpl; [reflexivity | rewrite IH; reflexivity]. Qed.

(** The decimal digits of the last four places. *)
Lemma digit_values (k : nat) (n : Z) : (0 <= n)%Z -> k = Z.to_nat (n mod 10000) ->
  Z.to_nat ((n / 1000) mod 10) = (k / 1000)%nat /\
  Z.to_nat ((n / 100) mod 10) = (k / 100 mod 10)%nat /\
  Z.to_nat ((n / 10) mod 10) = (k / 10 mod 10)%nat /\
  Z.to_nat (n mod 10) = (k mod 10)%nat.
Proof.
  intros Hn ->.
  assert (Hk : (0 <= n mod 10000 < 10000)%Z) by (apply Z.mod_pos_bound; lia).
  repeat split; apply Nat2Z.inj;
    rewrite ?Nat2Z.inj_mod, ?Nat2Z.inj_div, !Z2Nat.id
      by (try apply Z.mod_pos_bound; lia);
    change (Z.of_nat 1000) with 1000%Z; change (Z.of_nat 100) with 100%Z;
    change (Z.of_nat 10) with 10%Z;
    Z.div_mod_to_equations; lia.
Qed.

Lemma digit_is_char (z : Z) :
  digit z = String (digit_char (Z.to_nat (z mod 10))) "".
Proof.
  unfold digit.
  pose proof (Z.mod_pos_bound z 10 eq_refl) as Hb.
  assert (Hn : (Z.to_nat (z mod 10) < 10)%nat) by lia.
  destruct (Z.to_nat (z mod 10)) as [| [| [| [| [| [| [| [| [| [| k]]]]]]]]]];
    try reflexivity.
  lia.
Qed.

Lemma two_digits_all :
  forallb (fun m => String.eqb (two_digits m) (two_digit_string m)) (seq 0 100) = true.
Proof. vm_compute. reflexivity. Qed.

Lemma two_digits_spec m : (m < 100)%nat -> two_digits m = two_digit_string m.
Proof.
  intros H. apply String.eqb_eq.
  apply (proj1 (forallb_forall _ _) two_digits_all). apply in_seq. lia.
Qed.

Lemma year_all :
  forallb (fun y => (y <? 1000)%nat || String.eqb (decimal y) (four_digit_string y))
    (seq 0 (100 * 100)) = true.
Proof. vm_compute. reflexivity. Qed.

Lemma year_spec y : (1000 <= y < 100 * 100)%nat -> decimal y = four_digit_string y.
Proof.
  intros H. pose proof (proj1 (forallb_forall _ _) year_all y) as Hy.
  rewrite in_seq in Hy. specialize (Hy ltac:(lia)).
  apply orb_true_iff in Hy. destruct Hy as [Hy | Hy].
  - apply Nat.ltb_lt in Hy. lia.
  - apply String.eqb_eq, Hy.
Qed.

Lemma round_half_even_spec (a d : Z) :
  (0 <= a)%Z -> (0 < d)%Z ->
  let n := round_half_even a d in
  (0 <= n)%Z /\
  (2 * Z.abs (n * d - a) <= d)%Z /\
  ((2 * Z.abs (n * d - a) = d)%Z -> Z.even n = true).
Proof.
  intros Ha Hd n. unfold n, round_half_even.
  pose proof (Z.div_mod a d ltac:(lia)) as Hdm.
  pose proof (Z.mod_pos_bound a d Hd) as Hr.
  assert (Hq : (0 <= a / d)%Z) by (apply Z.div_pos; lia).
  set (q := (a / d)%Z) in *. set (r := (a mod d)%Z) in *.
  destruct (2 * r <? d)%Z eqn:E1.
  - apply Z.ltb_lt in E1. split; [lia |]. split; [nia | nia].
  - apply Z.ltb_ge in E1. destruct (d <? 2 * r)%Z eqn:E2.
    + apply Z.ltb_lt in E2. split; [lia |]. split; [nia | nia].
    + apply Z.ltb_ge in E2. destruct (Z.even q) eqn:E3.
      * split; [lia |]. split; [nia | intros _; exact E3].
      * split; [lia |]. split; [nia |]. intros _.
        rewrite Z.even_add, E3. reflexivity.
Qed.

Lemma round_in_Q (score : Q) (n : Z) :
  (2 * Z.abs (n * Zpos (Qden score) - Z.abs (Qnum score) * 10000) <= Zpos (Qden score))%Z ->
  (Qabs.Qabs (inject_Z n - 10000 * Qabs.Qabs score) <= 1 # 2)%Q.
Proof.
  destruct score as [num den]. cbn [Qnum Qden]. intros H.
  cbv [Qle Qabs.Qabs Qminus Qplus Qopp Qmult inject_Z Qnum Qden].
  lia.
Qed.

Lemma tie_in_Q (score : Q) (n : Z) :
  (Qabs.Qabs (inject_Z n - 10000 * Qabs.Qabs score) == 1 # 2)%Q ->
  (2 * Z.abs (n * Zpos (Qden score) - Z.abs (Qnum score) * 10000) = Zpos (Qden score))%Z.
Proof.
  destruct score as [num den]. cbn [Qnum Qden].
  cbv [Qeq Qabs.Qabs Qminus Qplus Qopp Qmult inject_Z Qnum Qden].
  lia.
Qed.

(** The score printed with four decimals. *)
Lemma format_0_4f_spec (score : Q) :
  exists n : Z,
    (0 <= n)%Z /\
    (Qabs.Qabs (inject_Z n - 10000 * Qabs.Qabs score) <= 1 # 2)%Q /\
    ((Qabs.Qabs (inject_Z n - 10000 * Qabs.Qabs score) == 1 # 2)%Q ->
     Z.even n = true) /\
    format_0_4f score
    = (if (Qnum score <? 0)%Z then "-" else "")
      ++ NilZero.string_of_uint (Nat.to_uint (Z.to_nat (n / 10000)))
      ++ "." ++ four_digit_string (Z.to_nat (n mod 10000)).
Proof.
  set (n := round_half_even (Z.abs (Qnum score) * 10000) (Zpos (Qden score))).
  destruct (round_half_even_spec (Z.abs (Qnum score) * 10000) (Zpos (Qden score)))
    as (Hn & Hle & Htie); [lia | reflexivity |].
  fold n in Hn, Hle, Htie.
  exists n. split; [exact Hn |].
  split; [apply round_in_Q, Hle |].
  split; [intros H; apply Htie, tie_in_Q, H |].
  unfold format_0_4f. fold n.
  destruct (digit_values (Z.to_nat (n mod 10000)) n Hn eq_refl)
    as (H3 & H2 & H1 & H0).
  rewrite !digit_is_char, H3, H2, H1, H0. reflexivity.
Qed.

(** The clock printed as [%Y-%m-%d-%H%M]. *)
Lemma strftime_spec (now : datetime) :
  valid now ->
  strftime now
  = four_digit_string (year now) ++ "-" ++ two_digit_string (month now) ++ "-"
    ++ two_digit_string (day now) ++ "-" ++ two_digit_string (hour now)
    ++ two_digit_string (minute now).
Proof.
  intros (Hy & Hm & Hd & Hh & Hmin). unfold strftime.
  rewrite (year_spec (year now)) by lia.
  rewrite !two_digits_spec by lia. reflexivity.
Qed.

(** C7: with a clock that [strftime] accepts, [create_submission]
    returns for every score and prediction frame, having written
    exactly two files, the serialized model and the CSV submission, and
    printed their names.  Both names embed the score printed with four
    decimals (the digits of the integer nearest to 10000 times the
    score, ties to the even one), an underscore and the time of the
    clock printed as [%Y-%m-%d-%H%M]: four digits of the year and two
    of the month, the day, the hour and the minute. *)
Theorem create_submission_writes_two_named_files :
  forall (booster frame I : Type) (score : Q) (pred : frame)
         (model : booster) (importance : I) (w : world booster frame),
    valid (clock _ _ w) ->
    let now := clock _ _ w in
    exists (w' : world booster frame) (n : Z),
      create_submission booster frame score pred model importance w
        = Some (tt, w') /\
      (0 <= n)%Z /\
      (Qabs.Qabs (inject_Z n - 10000 * Qabs.Qabs score) <= 1 # 2)%Q /\
      ((Qabs.Qabs (inject_Z n - 10000 * Qabs.Qabs score) == 1 # 2)%Q ->
       Z.even n = true) /\
      let printed_score :=
        (if (Qnum score <? 0)%Z then "-" else "")
        ++ NilZero.string_of_uint (Nat.to_uint (Z.to_nat (n / 10000)))
        ++ "." ++ four_digit_string (Z.to_nat (n mod 10000)) in
      let printed_time :=
        four_digit_string (year now) ++ "-" ++ two_digit_string (month now)
        ++ "-" ++ two_digit_string (day now) ++ "-"
        ++ two_digit_string (hour now) ++ two_digit_string (minute now) in
      let stamp := printed_score ++ "_" ++ printed_time in
      let model_name := "../output/.model_" ++ stamp ++ ".model" in
      let csv_name := "../output/submit_" ++ stamp ++ ".csv" in
      written _ _ w' =
        (csv_name, Csv booster frame pred)
        :: (model_name, Model booster frame model)
        :: written _ _ w /\
      stdout _ _ w' =
        ("Writing submission: ", csv_name)
        :: ("Writing model: ", model_name)
        :: stdout _ _ w /\
      model_name <> csv_name /\
      clock _ _ w' = now.
Proof.
  intros booster frame I score pred model importance w Hvalid now.
  destruct (format_0_4f_spec score) as (n & Hn & Hle & Htie & Hscore).
  pose proof (strftime_spec now Hvalid) as Htime.
  eexists. exists n. split; [reflexivity |].
  split; [exact Hn |]. split; [exact Hle |]. split; [exact Htie |].
  cbv zeta. rewrite <- Hscore, <- Htime.
  split; [reflexivity |]. split; [reflexivity |].
  split; [| reflexivity].
  simpl. intros H. congruence.
Qed.

End SubmissionFacts.

Lemma example_clock_valid : Submission.valid Example.now.
Proof. unfold Submission.valid. simpl. lia. Qed.

Lemma create_submission_writes_two_named_files_witness :
  exists (w' : Submission.world nat nat) (n : Z),
    Submission.create_submission nat nat Example.score 7%nat 8%nat tt
      {| Submission.clock := Example.now; Submission.stdout := [];
         Submission.written := [] |} = Some (tt, w') /\
    (0 <= n)%Z /\
    (Qabs.Qabs (inject_Z n - 10000 * Qabs.Qabs Example.score) <= 1 # 2)%Q /\
    ((Qabs.Qabs (inject_Z n - 10000 * Qabs.Qabs Example.score) == 1 # 2)%Q ->
     Z.even n = true) /\
    let printed_score :=
      ((if (Qnum Example.score <? 0)%Z then "-" else "")
       ++ NilZero.string_of_uint (Nat.to_uint (Z.to_nat (n / 10000)))
       ++ "." ++ Submission.four_digit_string (Z.to_nat (n mod 10000)))%string in
    let printed_time :=
      (Submission.four_digit_string (Submission.year Example.now) ++ "-"
       ++ Submission.two_digit_string (Submission.month Example.now) ++ "-"
       ++ Submission.two_digit_string (Submission.day Example.now) ++ "-"
       ++ Submission.two_digit_string (Submission.hour Example.now)
       ++ Submission.two_digit_string (Submission.minute Example.now))%string in
    let stamp := (printed_score ++ "_" ++ printed_time)%string in
    let model_name := ("../output/.model_" ++ stamp ++ ".model")%string in
    let csv_name := ("../output/submit_" ++ stamp ++ ".csv")%string in
    Submission.written _ _ w' =
      [(csv_name, Submission.Csv nat nat 7%nat);
       (model_name, Submission.Model nat nat 8%nat)] /\
    Submission.stdout _ _ w' =
      [("Writing submission: "%string, csv_name);
       ("Writing model: "%string, model_name)] /\
    model_name <> csv_name /\
    Submission.clock _ _ w' = Example.now.
Proof.
  apply (create_submission_writes_two_named_files nat nat unit Example.score
           7%nat 8%nat tt
           {| Submission.clock := Example.now; Submission.stdout := [];
              Submission.written := [] |}).
  exact example_clock_valid.
Defined.

(** The score 0.54321 at 13:05 on April 1, 2017. *)
Example example_submission_names :
  Submission.mod_file Example.score Example.now
  = "../output/.model_0.5432_2017-04-01-1305.model"%string /\
  Submission.sub_file Example.score Example.now
  = "../output/submit_0.5432_2017-04-01-1305.csv"%string /\
  Submission.format_0_4f (1 # 16) = "0.0625"%string /\
  Submission.format_0_4f (5 # 100000) = "0.0000"%string /\
  Submission.format_0_4f (15 # 100000) = "0.0002"%string /\
  Submission.format_0_4f (- (123456 # 10000)) = "-12.3456"%string.
Proof. repeat split; reflexivity. Qed.

Lemma record_count_at_least_one_witness :
  let r := {| CategoricalTransformer.key := 1;
              CategoricalTransformer.n_high := 1;
              CategoricalTransformer.n_medium := 1;
              CategoricalTransformer.n_low := 0 |} in
  (CategoricalTransformer.record_count r
   = CategoricalTransformer.n_high r + CategoricalTransformer.n_medium r
     + CategoricalTransformer.n_low r /\
   1 <= CategoricalTransformer.record_count r /\
   CategoricalTransformer.record_count r <> 0 /\
   CategoricalTransformer.high_share r * CategoricalTransformer.record_count r
   = CategoricalTransformer.n_high r /\
   CategoricalTransformer.med_share r * CategoricalTransformer.record_count r
   = CategoricalTransformer.n_medium r)%R.
Proof.
  apply (record_count_at_least_one fst snd Example.X Example.tmp).
  - reflexivity.
  - left. reflexivity.
Defined.

(** ** The theorems at the small training frame *)

Section Instances.

Import CategoricalTransformer.
Local Open Scope R_scope.

(** On the example the jitter factor is 1 and category 1 has the
    global share of [high], so its blend is 1/2 whatever the weight. *)
Example example_fit :
  exists (w' : world) (mapping : list mapping_row) (m : mapping_row),
    fit fst snd Example.X Example.w = Some (tt, w') /\
    glob_high (self w') = Some (1 / 2) /\
    glob_med (self w') = Some (1 / 4) /\
    mapping_ (self w') = Some mapping /\
    List.length mapping = 2%nat /\
    nth_error mapping 0 = Some m /\
    category m = 1%Z /\
    w_high m = 1 / 2 /\
    w_med m = lambda 5 2 * (1 / 2) + (1 - lambda 5 2) * (1 / 4).
Proof.
  rewrite example_fit_returns.
  do 3 eexists. split; [reflexivity |].
  unfold Example.w_after_fit, fitted. cbn [self glob_high glob_med mapping_].
  rewrite example_global_high, example_global_med.
  split; [reflexivity |]. split; [reflexivity |].
  split; [reflexivity |]. split; [reflexivity |]. split; [reflexivity |].
  simpl. split; [reflexivity |].
  unfold jitter, blend, high_share, med_share, record_count. simpl.
  replace (1 + 1 + 0) with 2 by lra.
  split; lra.
Qed.



Lemma stored_and_returned_values_bounded_witness :
  exists mapping : list mapping_row,
    mapping_ (self Example.w_after_fit) = Some mapping /\
    (forall i m, nth_error mapping i = Some m ->
       exists r, nth_error Example.tmp i = Some r /\
         let lam := lambda (threshold (self Example.w)) (record_count r) in
         let b_high := blend lam (high_share r) (global_high Example.tmp) in
         let b_med := blend lam (med_share r) (global_med Example.tmp) in
         0 <= b_high <= 1 /\ 0 <= b_med <= 1 /\
         (exists f, 0.995 <= f < 1.005 /\ w_high m = b_high * f) /\
         (exists f, 0.995 <= f < 1.005 /\ w_med m = b_med * f)) /\
    (forall (Xt : list Example.listing) (wt : world),
       self wt = self Example.w_after_fit ->
       exists out, transform fst Xt wt = Some (out, wt) /\
         forall o, In o out ->
           0 <= out_w_high o < 1.005 /\ 0 <= out_w_med o < 1.005).
Proof.
  apply (stored_and_returned_values_bounded fst snd Example.X Example.w
           Example.w_after_fit Example.tmp).
  - exact example_uniform.
  - exact example_grouped.
  - exact example_fit_returns.
Defined.

Lemma example_mapping :
  mapping_ (self Example.w_after_fit) = Some Example.mapping_after_fit.
Proof. reflexivity. Qed.

Lemma mapping_statistics_are_high_and_medium_witness :
  column_holds (threshold (self Example.w)) Example.tmp
    Example.mapping_after_fit 0 high /\
  column_holds (threshold (self Example.w)) Example.tmp
    Example.mapping_after_fit 1 medium /\
  (forall i m r, nth_error Example.mapping_after_fit i = Some m ->
     nth_error Example.tmp i = Some r ->
     cells m = [w_high m; w_med m; IZR (key r)]) /\
  List.length Example.mapping_after_fit = List.length Example.tmp.
Proof.
  apply (mapping_statistics_are_high_and_medium fst snd Example.X Example.w
           Example.w_after_fit Example.tmp Example.mapping_after_fit).
  - exact example_uniform.
  - exact example_grouped.
  - exact example_fit_returns.
  - exact example_mapping.
Defined.

Lemma example_transform :
  transform fst Example.Xt Example.w_fitted
  = Some (Example.out, Example.w_fitted).
Proof. reflexivity. Qed.

Lemma transform_keeps_fitted_state_witness :
  mapping_ (self Example.w_fitted) = mapping_ (self Example.w_fitted) /\
  glob_high (self Example.w_fitted) = glob_high (self Example.w_fitted) /\
  glob_med (self Example.w_fitted) = glob_med (self Example.w_fitted) /\
  glob_low (self Example.w_fitted) = glob_low (self Example.w_fitted) /\
  Example.w_fitted = Example.w_fitted /\
  transform fst Example.Xt Example.w_fitted
  = Some (Example.out, Example.w_fitted).
Proof.
  apply (transform_keeps_fitted_state fst Example.Xt Example.w_fitted
           Example.w_fitted Example.out).
  exact example_transform.
Defined.

End Instances.

Section ManagerInstances.

Import ManagerSkill.
Local Open Scope Q_scope.

Lemma example_index_distinct : NoDup (map Example.index Example.managers).
Proof. repeat constructor; simpl; intuition discriminate. Qed.

Lemma example_y_index_distinct :
  NoDup (map Example.y_index (seq 0 (List.length Example.y))).
Proof. repeat constructor; simpl; intuition discriminate. Qed.

Lemma example_manager_fit :
  fit Example.index Example.y_index Example.manager_id Example.first_column
    Example.managers Example.y Example.skill_2
  = Some (tt, Example.skill_fitted).
Proof. reflexivity. Qed.

Lemma rare_and_unseen_managers_get_mean_skill_witness :
  exists (mapping : list (Z * float)) (mean : float),
    mapping_ Example.skill_fitted = Some mapping /\
    mean_skill_ Example.skill_fitted = Some mean /\
    (frequent_skills Example.index Example.y_index Example.manager_id
       Example.first_column (threshold Example.skill_2)
       Example.managers Example.y = [] -> mean = None) /\
    (frequent_skills Example.index Example.y_index Example.manager_id
       Example.first_column (threshold Example.skill_2)
       Example.managers Example.y <> [] ->
     exists v, mean = Some v /\
       v * count_of
             (List.length
                (frequent_skills Example.index Example.y_index
                   Example.manager_id Example.first_column
                   (threshold Example.skill_2) Example.managers Example.y))
       == fold_right Qplus 0
            (frequent_skills Example.index Example.y_index Example.manager_id
               Example.first_column (threshold Example.skill_2)
               Example.managers Example.y)) /\
    (forall m, In m (map Example.manager_id Example.managers) ->
       count Example.manager_id Example.first_column Example.managers m
       < threshold Example.skill_2 ->
       In (m, mean) mapping /\ forall v, In (m, v) mapping -> v = mean) /\
    (forall Xt : list Example.manager_row, exists out : list float,
       transform Example.manager_id Xt Example.skill_fitted
       = Some (out, Example.skill_fitted) /\
       List.length out = List.length Xt /\
       forall i x, nth_error Xt i = Some x ->
         ~ In (Example.manager_id x) (map Example.manager_id Example.managers)
         \/ count Example.manager_id Example.first_column Example.managers
              (Example.manager_id x) < threshold Example.skill_2 ->
         nth_error out i = Some mean).
Proof.
  apply (rare_and_unseen_managers_get_mean_skill Example.index Example.y_index
           Example.manager_id Example.first_column Example.managers
           Example.y Example.skill_2 Example.skill_fitted).
  - exact example_index_distinct.
  - exact example_y_index_distinct.
  - exact example_manager_fit.
Defined.

(** On the example managers 1 and 3 reach the threshold, with skills
    3/2 and 1/2; manager 2, with one record, and the absent manager 7
    both get their mean. *)
Example example_manager_transform :
  transform Example.manager_id Example.managers_to_transform
    Example.skill_fitted
  = Some ([Some (6 # 4); Some (32 # 32); Some (2 # 4); Some (32 # 32)],
          Example.skill_fitted).
Proof. reflexivity. Qed.

(** With the index labels of the rows in descending order the labels
    of [y] go to the rows by label, not by position: managers 1 and 3
    get each other's skills. *)
Example example_manager_transform_by_label :
  match fit Example.index Example.y_index Example.manager_id
          Example.first_column Example.managers_reversed Example.y
          Example.skill_2 with
  | Some (_, s') =>
      option_map fst
        (transform Example.manager_id Example.managers_to_transform s')
  | None => None
  end = Some [Some (2 # 4); Some (32 # 32); Some (6 # 4); Some (32 # 32)].
Proof. reflexivity. Qed.

End ManagerInstances.

(** * Further properties of the encoders *)

(** ** When [CategoricalTransformer.fit] returns, and what it leaves *)

Section FitOutcome.

Import CategoricalTransformer.
Local Open Scope R_scope.

Context {A : Type}.
Variable column : A -> Z.
Variable interest : A -> option interest_level.

Local Abbreviation grouped := (grouped column interest).
Local Abbreviation categories := (categories column interest).
Local Abbreviation fit := (fit column interest).
Local Abbreviation transform := (transform column).
Local Abbreviation seen := (seen column interest).

Lemma level_column_iff X l :
  level_column interest X l = true <-> exists x, In x X /\ interest x = Some l.
Proof.
  unfold level_column. rewrite existsb_exists. split.
  - intros (x & Hx & Hl). exists x. split; [exact Hx |].
    apply (has_level_iff interest), Hl.
  - intros (x & Hx & Hl). exists x. split; [exact Hx |].
    apply (has_level_iff interest), Hl.
Qed.

Lemma grouped_some_iff X :
  (exists tmp, grouped X = Some tmp) <->
  forall l, exists x, In x X /\ interest x = Some l.
Proof.
  split.
  - intros (tmp & Ht) l.
    destruct (grouped_columns column interest X tmp Ht) as (Hh & Hm & Hl).
    apply level_column_iff. destruct l; assumption.
  - intros H. unfold CategoricalTransformer.grouped.
    rewrite (proj2 (level_column_iff X high) (H high)).
    rewrite (proj2 (level_column_iff X medium) (H medium)).
    rewrite (proj2 (level_column_iff X low) (H low)).
    simpl. eexists. reflexivity.
Qed.

Lemma row_record_count X tmp r :
  grouped X = Some tmp -> In r tmp ->
  seen X (key r) /\
  record_count r
  = INR (size column interest X (key r) high)
    + INR (size column interest X (key r) medium)
    + INR (size column interest X (key r) low).
Proof.
  intros Ht Hr.
  destruct (grouped_rows column interest X tmp r Ht Hr) as (Hc & Eh & Em & El).
  split; [apply (in_categories column interest), Hc |].
  unfold record_count. rewrite Eh, Em, El. reflexivity.
Qed.

(** X1: [fit] returns exactly when each of the three levels labels some
    row of the frame and [exp (threshold - n)] does not exceed the
    largest binary64 number for the number [n] of labelled rows of any
    category; otherwise the selection of the missing column raises, or
    [math.exp] does.  It returns whenever the levels occur and the
    threshold is at most 600, and it raises on a frame without rows. *)
Theorem fit_returns_iff_levels_occur_and_exp_returns :
  forall (X : list A) (w : world),
    (fit X w <> None <->
     (forall l : interest_level, exists x, In x X /\ interest x = Some l) /\
     (forall c : Z, seen X c ->
        exp (threshold (self w)
             - (INR (size column interest X c high)
                + INR (size column interest X c medium)
                + INR (size column interest X c low))) <= max_float)) /\
    ((forall l : interest_level, exists x, In x X /\ interest x = Some l) ->
     threshold (self w) <= 600 -> fit X w <> None) /\
    fit [] w = None.
Proof.
  intros X w.
  assert (Hback : forall tmp, grouped X = Some tmp ->
            no_overflow (threshold (self w)) tmp -> fit X w <> None).
  { intros tmp Ht Hno. rewrite (fit_run column interest X w tmp Ht Hno).
    discriminate. }
  split; [| split; [| reflexivity]].
  - split.
    + intros Hfit.
      destruct (fit X w) as [[[] w'] |] eqn:E; [| contradiction].
      destruct (fit_returns column interest X w w' E) as (tmp & Ht & Hno & _).
      split; [apply grouped_some_iff; eauto |].
      intros c Hc.
      destruct (seen_row column interest X tmp c Ht Hc) as (i & r & Hr & <-).
      assert (Hin : In r tmp) by (eapply nth_error_In; exact Hr).
      destruct (row_record_count X tmp r Ht Hin) as (_ & <-).
      apply (Hno r Hin).
    + intros [Hlevels Hexp].
      destruct (proj2 (grouped_some_iff X) Hlevels) as (tmp & Ht).
      apply (Hback tmp Ht). intros r Hr.
      destruct (row_record_count X tmp r Ht Hr) as (Hseen & ->).
      apply Hexp, Hseen.
  - intros Hlevels Hk.
    destruct (proj2 (grouped_some_iff X) Hlevels) as (tmp & Ht).
    apply (Hback tmp Ht). intros r Hr.
    pose proof (record_count_ge_1 column interest X tmp r Ht Hr) as H1.
    apply exp_below_max_float. lra.
Qed.

(** X2: a call of [fit] that returns has drawn exactly two random
    numbers per category of the frame, and has changed neither the
    threshold nor the column name of the instance. *)
Theorem fit_draws_two_numbers_per_category :
  forall (X : list A) (w w' : world),
    fit X w = Some (tt, w') ->
    draws (np_random w') = draws (np_random w) /\
    position (np_random w')
    = (position (np_random w) + 2 * List.length (categories X))%nat /\
    threshold (self w') = threshold (self w) /\
    column_name (self w') = column_name (self w).
Proof.
  intros X w w' Hfit.
  destruct (fit_some column interest X w w' Hfit) as (tmp & Ht & ->).
  repeat split. simpl.
  rewrite <- (grouped_keys column interest X tmp Ht), length_map. lia.
Qed.

(** X3: the mapping left by [fit] has exactly one row per seen
    category, and its rows are in strictly ascending order of the
    category. *)
Theorem mapping_has_one_row_per_seen_category :
  forall (X : list A) (w w' : world),
    fit X w = Some (tt, w') ->
    exists mapping : list mapping_row,
      mapping_ (self w') = Some mapping /\
      ascending (map category mapping) /\
      NoDup (map category mapping) /\
      (forall c : Z, In c (map category mapping) <-> seen X c).
Proof.
  intros X w w' Hfit.
  destruct (fit_some column interest X w w' Hfit) as (tmp & Ht & ->).
  destruct (fitted_mapping w tmp) as (mapping & Hm & _).
  exists mapping. split; [exact Hm |].
  rewrite (mapping_categories w tmp mapping Hm).
  rewrite (grouped_keys column interest X tmp Ht).
  split; [apply ascending_group_keys |].
  split; [apply NoDup_group_keys |].
  intros c. apply in_categories.
Qed.

End FitOutcome.

(** ** Counting the records of the groups *)

Section GroupCounts.

Import CategoricalTransformer.
Local Open Scope R_scope.

Context {A : Type}.
Variable column : A -> Z.
Variable interest : A -> option interest_level.

Local Abbreviation grouped := (grouped column interest).
Local Abbreviation categories := (categories column interest).
Local Abbreviation size := (size column interest).
Local Abbreviation fit := (fit column interest).

Lemma list_sum_plus {T} (f g : T -> nat) (l : list T) :
  list_sum (map (fun c => (f c + g c)%nat) l)
  = (list_sum (map f l) + list_sum (map g l))%nat.
Proof. induction l as [| a l IH]; simpl; [reflexivity | rewrite IH; lia]. Qed.

(** A key counts once among keys without repetition. *)
Lemma list_sum_indicator (k : Z) (b : bool) (ks : list Z) :
  NoDup ks -> (b = true -> In k ks) ->
  list_sum (map (fun c => if (k =? c)%Z && b then 1%nat else 0%nat) ks)
  = if b then 1%nat else 0%nat.
Proof.
  destruct b.
  - intros Hnd Hin. specialize (Hin eq_refl).
    induction ks as [| c ks IH]; [destruct Hin |].
    inversion Hnd as [| c' ks' Hnot Hnd']. subst. simpl.
    destruct (Z.eqb_spec k c) as [-> | Hne]; simpl.
    + assert (Hz : list_sum (map (fun c0 => if (c =? c0)%Z && true
                                            then 1%nat else 0%nat) ks) = 0%nat).
      { clear IH Hin Hnd Hnd'. induction ks as [| a ks IHk]; [reflexivity |].
        simpl. destruct (Z.eqb_spec c a) as [-> | _].
        - exfalso. apply Hnot. left. reflexivity.
        - simpl. apply IHk. intros H. apply Hnot. right. exact H. }
      rewrite Hz. reflexivity.
    + apply IH; [exact Hnd' |]. destruct Hin as [-> | Hin]; [congruence | exact Hin].
  - intros _ _. induction ks as [| c ks IH]; [reflexivity |].
    simpl. rewrite andb_false_r. exact IH.
Qed.

(** The groups of the keys [ks] share out the rows that satisfy [p]. *)
Lemma group_sizes_add_up (p : A -> bool) (X : list A) (ks : list Z) :
  NoDup ks ->
  (forall x, In x X -> p x = true -> In (column x) ks) ->
  list_sum (map (fun c => List.length
                            (filter (fun x => (column x =? c)%Z && p x) X)) ks)
  = List.length (filter p X).
Proof.
  intros Hnd. induction X as [| x X IH]; intros Hin.
  - simpl. clear Hin Hnd. induction ks as [| c ks IHk]; [reflexivity |].
    simpl. exact IHk.
  - assert (Hstep : forall c,
      List.length (filter (fun x' => (column x' =? c)%Z && p x') (x :: X))
      = ((if (column x =? c)%Z && p x then 1 else 0)
         + List.length (filter (fun x' => (column x' =? c)%Z && p x') X))%nat).
    { intros c. simpl. destruct ((column x =? c)%Z && p x); reflexivity. }
    rewrite (map_ext _ _ Hstep), list_sum_plus.
    rewrite (list_sum_indicator (column x) (p x) ks Hnd).
    + rewrite IH by (intros x' Hx'; apply Hin; right; exact Hx').
      simpl. destruct (p x); reflexivity.
    + intros Hp. apply Hin; [left; reflexivity | exact Hp].
Qed.

Lemma sum_INR {T} (f : T -> nat) (l : list T) :
  sum (map (fun c => INR (f c)) l) = INR (list_sum (map f l)).
Proof.
  induction l as [| a l IH]; simpl; [reflexivity |].
  rewrite IH, plus_INR. reflexivity.
Qed.

(** The number of rows labelled [l]. *)
Lemma level_total X l :
  list_sum (map (fun c => size X c l) (categories X))
  = List.length (filter (has_level interest l) X).
Proof.
  unfold CategoricalTransformer.size.
  apply group_sizes_add_up; [apply NoDup_group_keys |].
  intros x Hx Hp. apply in_categories. exists x, l.
  split; [exact Hx |]. split; [reflexivity |].
  apply (has_level_iff interest), Hp.
Qed.

Lemma grouped_table X tmp :
  grouped X = Some tmp ->
  map n_high tmp = map (fun c => INR (size X c high)) (categories X) /\
  map n_medium tmp = map (fun c => INR (size X c medium)) (categories X) /\
  map n_low tmp = map (fun c => INR (size X c low)) (categories X).
Proof.
  unfold CategoricalTransformer.grouped.
  destruct (_ && _ && _); [| discriminate].
  intros Ht. injection Ht as <-. rewrite !map_map. simpl.
  repeat split; apply map_ext; intros c; apply fillna_unstack.
Qed.

Lemma column_totals X tmp :
  grouped X = Some tmp ->
  sum (map n_high tmp) = INR (List.length (filter (has_level interest high) X)) /\
  sum (map n_medium tmp) = INR (List.length (filter (has_level interest medium) X)) /\
  sum (map n_low tmp) = INR (List.length (filter (has_level interest low) X)).
Proof.
  intros Ht. destruct (grouped_table X tmp Ht) as (-> & -> & ->).
  rewrite !sum_INR, !level_total. auto.
Qed.

Lemma labelled_total (X : list A) :
  List.length (filter (fun x => notnull (interest x)) X)
  = (List.length (filter (has_level interest high) X)
     + List.length (filter (has_level interest medium) X)
     + List.length (filter (has_level interest low) X))%nat.
Proof.
  induction X as [| x X IH]; [reflexivity |].
  cbn [filter].
  assert (Hl : forall l, has_level interest l x
                         = match interest x with
                           | Some l' => interest_level_eqb l' l
                           | None => false
                           end) by reflexivity.
  rewrite !Hl.
  destruct (interest x) as [[| |] |]; cbn [notnull interest_level_eqb List.length];
    rewrite IH; lia.
Qed.

Lemma int64_true_iff (cells : list R) :
  int64 cells = true <-> forall x, In x cells -> x <> 0.
Proof.
  unfold int64. rewrite forallb_forall. split.
  - intros H x Hx. specialize (H x Hx).
    destruct (Req_dec_T x 0); [discriminate H | assumption].
  - intros H x Hx. specialize (H x Hx).
    destruct (Req_dec_T x 0); [contradiction | reflexivity].
Qed.

Lemma size_exists X c l :
  (0 < size X c l)%nat ->
  exists x, In x X /\ column x = c /\ interest x = Some l.
Proof.
  unfold CategoricalTransformer.size. intros Hpos.
  destruct (filter _ X) as [| x rest] eqn:E; [simpl in Hpos; lia |].
  assert (Hx : In x (filter (fun x => (column x =? c)%Z && has_level interest l x) X))
    by (rewrite E; left; reflexivity).
  apply filter_In in Hx. destruct Hx as [Hin Hb].
  apply andb_true_iff in Hb. destruct Hb as [Hc Hl].
  exists x. split; [exact Hin |].
  split; [apply Z.eqb_eq, Hc | apply (has_level_iff interest), Hl].
Qed.

Lemma level_count_size X tmp r l :
  grouped X = Some tmp -> In r tmp ->
  level_count l r = INR (size X (key r) l).
Proof.
  intros Ht Hr.
  destruct (grouped_rows column interest X tmp r Ht Hr) as (_ & Eh & Em & El).
  destruct l; assumption.
Qed.

(** The columns of counts hold integers exactly when every category
    has a row of every level. *)
Lemma integers_iff X tmp :
  grouped X = Some tmp ->
  (integers tmp = true <-> complete column interest X).
Proof.
  intros Ht. unfold integers. rewrite !andb_true_iff, !int64_true_iff. split.
  - intros [[Hh Hm] Hl] c l Hc.
    destruct (seen_row column interest X tmp c Ht Hc) as (i & r & Hr & <-).
    assert (Hin : In r tmp) by (eapply nth_error_In; exact Hr).
    apply size_exists.
    assert (Hne : level_count l r <> 0).
    { destruct l; [apply Hh | apply Hm | apply Hl]; apply in_map, Hin. }
    rewrite (level_count_size X tmp r l Ht Hin) in Hne.
    destruct (size X (key r) l); [contradiction | lia].
  - intros Hcomplete.
    assert (Hall : forall l r, In r tmp -> level_count l r <> 0).
    { intros l r Hr.
      rewrite (level_count_size X tmp r l Ht Hr).
      destruct (grouped_rows column interest X tmp r Ht Hr) as (Hc & _).
      apply (in_categories column interest) in Hc.
      destruct (Hcomplete (key r) l Hc) as (x & Hx & Hk & Hl).
      pose proof (size_pos column interest X x l Hx Hl) as Hs.
      rewrite Hk in Hs. apply le_INR in Hs. simpl in Hs. lra. }
    repeat split; intros x Hx; apply in_map_iff in Hx;
      destruct Hx as (r & <- & Hr).
    + apply (Hall high r Hr).
    + apply (Hall medium r Hr).
    + apply (Hall low r Hr).
Qed.

(** X4: on a frame with a category that lacks a level, the global
    shares [fit] stores are the fractions of the labelled rows of the
    frame that are [high] and that are [medium]; on a frame where every
    category has rows of the three levels the sums are integers, their
    quotient is the floor, and both global shares are 0. *)
Theorem global_shares_are_label_fractions_or_zero :
  forall (X : list A) (w w' : world),
    fit X w = Some (tt, w') ->
    let labelled := List.length (filter (fun x => notnull (interest x)) X) in
    (0 < labelled)%nat /\
    (~ complete column interest X ->
     glob_high (self w')
     = Some (INR (List.length (filter (has_level interest high) X)) / INR labelled) /\
     glob_med (self w')
     = Some (INR (List.length (filter (has_level interest medium) X)) / INR labelled)) /\
    (complete column interest X ->
     glob_high (self w') = Some 0 /\ glob_med (self w') = Some 0).
Proof.
  intros X w w' Hfit labelled.
  destruct (fit_some column interest X w w' Hfit) as (tmp & Ht & ->).
  destruct (column_totals X tmp Ht) as (Hh & Hm & Hl).
  assert (Htot : sum (map record_count tmp) = INR labelled).
  { rewrite record_count_total, Hh, Hm, Hl. unfold labelled.
    rewrite labelled_total, !plus_INR. reflexivity. }
  pose proof (integers_iff X tmp Ht) as Hint.
  cbn [fitted self glob_high glob_med].
  rewrite (global_high_value column interest X tmp Ht).
  rewrite (global_med_value column interest X tmp Ht).
  rewrite Htot, Hh, Hm.
  split; [| split].
  - apply INR_lt. rewrite <- Htot. simpl.
    apply (sum_record_count_pos column interest X tmp Ht).
  - intros Hnot. destruct (integers tmp); [| split; reflexivity].
    exfalso. apply Hnot, Hint. reflexivity.
  - intros Hcomplete. rewrite (proj2 Hint Hcomplete). split; reflexivity.
Qed.

End GroupCounts.

(** ** Looking categories up in the fitted mapping *)

Section Lookup.

Import CategoricalTransformer.
Local Open Scope R_scope.

Context {A : Type}.
Variable column : A -> Z.
Variable interest : A -> option interest_level.

Local Abbreviation grouped := (grouped column interest).
Local Abbreviation fit := (fit column interest).
Local Abbreviation transform := (transform column).
Local Abbreviation merge_row := (merge_row column).

(** Among rows of distinct categories a row is the only one of its
    category. *)
Lemma filter_category_unique (mapping : list mapping_row) (m : mapping_row) :
  NoDup (map category mapping) -> In m mapping ->
  filter (fun r => (category r =? category m)%Z) mapping = [m].
Proof.
  induction mapping as [| a mapping IH]; [intros _ [] |].
  simpl. intros Hnd Hin.
  inversion Hnd as [| c cs Hnot Hnd']. subst.
  destruct Hin as [-> | Hin].
  - rewrite Z.eqb_refl. f_equal.
    clear IH Hnd Hnd'. induction mapping as [| b mapping IHm]; [reflexivity |].
    simpl. destruct (Z.eqb_spec (category b) (category m)) as [E | _].
    + exfalso. apply Hnot. left. exact E.
    + apply IHm. intros H. apply Hnot. right. exact H.
  - destruct (Z.eqb_spec (category a) (category m)) as [E | _].
    + exfalso. apply Hnot. rewrite E. apply in_map, Hin.
    + apply IH; assumption.
Qed.

Lemma merge_row_seen (mapping : list mapping_row) (m : mapping_row) (x : A) :
  NoDup (map category mapping) -> In m mapping -> column x = category m ->
  merge_row mapping x
  = [{| left := x; m_w_high := Some (w_high m); m_w_med := Some (w_med m) |}].
Proof.
  intros Hnd Hin Hc. unfold CategoricalTransformer.merge_row.
  rewrite Hc, (filter_category_unique mapping m Hnd Hin). reflexivity.
Qed.

Lemma merge_row_single (mapping : list mapping_row) (x : A) :
  NoDup (map category mapping) ->
  exists m', merge_row mapping x = [m'] /\ left m' = x.
Proof.
  intros Hnd.
  destruct (in_dec Z.eq_dec (column x) (map category mapping)) as [Hin | Hnot].
  - apply in_map_iff in Hin. destruct Hin as (m & Hc & Hin).
    eexists. split; [apply (merge_row_seen mapping m x Hnd Hin); congruence |].
    reflexivity.
  - eexists. split; [apply merge_row_unseen, Hnot | reflexivity].
Qed.

Lemma merge_keeps_rows (mapping : list mapping_row) (Xt : list A) :
  NoDup (map category mapping) ->
  map left (merge column Xt mapping) = Xt.
Proof.
  intros Hnd. unfold merge. induction Xt as [| x Xt IH]; [reflexivity |].
  rewrite flat_map_step, map_app, IH.
  destruct (merge_row_single mapping x Hnd) as (m' & -> & Hl).
  simpl. rewrite Hl. reflexivity.
Qed.

Lemma fitted_mapping_NoDup X w tmp mapping :
  grouped X = Some tmp ->
  mapping_ (self (fitted w tmp)) = Some mapping ->
  NoDup (map category mapping).
Proof.
  intros Ht Hm. rewrite (mapping_categories w tmp mapping Hm).
  rewrite (grouped_keys column interest X tmp Ht). apply NoDup_group_keys.
Qed.

(** X5: after [fit], [transform] returns one output row per row of the
    frame it is given, in the same order: the left merge with the
    mapping neither drops nor repeats a row. *)
Theorem transform_returns_one_row_per_input_row :
  forall (X : list A) (w w' : world) (Xt : list A),
    fit X w = Some (tt, w') ->
    exists out : list out_row,
      transform Xt w' = Some (out, w') /\
      map row out = Xt /\
      List.length out = List.length Xt.
Proof.
  intros X w w' Xt Hfit.
  destruct (fit_some column interest X w w' Hfit) as (tmp & Ht & ->).
  destruct (fitted_mapping w tmp) as (mapping & Hm & _).
  pose proof (fitted_mapping_NoDup X w tmp mapping Ht Hm) as Hnd.
  exists (transformed column Xt mapping (global_high tmp) (global_med tmp)).
  split; [apply transform_run; [exact Hm | reflexivity | reflexivity] |].
  assert (Hrows : map row (transformed column Xt mapping
                             (global_high tmp) (global_med tmp)) = Xt).
  { unfold transformed. rewrite map_map. simpl.
    apply (merge_keeps_rows mapping Xt Hnd). }
  split; [exact Hrows |].
  rewrite <- Hrows at 2. rewrite length_map. reflexivity.
Qed.

(** X6: after [fit], a row whose category has a row in [mapping_] gets
    from [transform] exactly the two statistics stored in that row. *)
Theorem seen_category_gets_stored_statistics :
  forall (X : list A) (w w' : world) (mapping : list mapping_row)
         (m : mapping_row) (x : A),
    fit X w = Some (tt, w') ->
    mapping_ (self w') = Some mapping ->
    In m mapping ->
    column x = category m ->
    transform [x] w'
    = Some ([{| row := x; out_w_high := w_high m; out_w_med := w_med m |}], w').
Proof.
  intros X w w' mapping m x Hfit Hm Hin Hc.
  destruct (fit_some column interest X w w' Hfit) as (tmp & Ht & ->).
  pose proof (fitted_mapping_NoDup X w tmp mapping Ht Hm) as Hnd.
  rewrite (transform_run column [x] (fitted w tmp) mapping
             (global_high tmp) (global_med tmp) Hm eq_refl eq_refl).
  unfold transformed, merge. simpl.
  rewrite (merge_row_seen mapping m x Hnd Hin Hc). reflexivity.
Qed.

(** X7: what [fit] stores depends on the frame, the threshold and the
    generator only, not on an earlier fit of the instance; [glob_low]
    is the one attribute [fit] never computes: it stays as it was on an
    instance not fitted before and is 0 on one fitted before. *)
Theorem fit_forgets_the_previous_fit :
  forall (X : list A) (w1 w2 w1' w2' : world),
    threshold (self w1) = threshold (self w2) ->
    np_random w1 = np_random w2 ->
    fit X w1 = Some (tt, w1') ->
    fit X w2 = Some (tt, w2') ->
    mapping_ (self w1') = mapping_ (self w2') /\
    glob_high (self w1') = glob_high (self w2') /\
    glob_med (self w1') = glob_med (self w2') /\
    np_random w1' = np_random w2' /\
    glob_low (self w1')
    = match mapping_ (self w1) with
      | Some _ => Some 0
      | None => glob_low (self w1)
      end.
Proof.
  intros X w1 w2 w1' w2' Hk Hg Hfit1 Hfit2.
  destruct (fit_some column interest X w1 w1' Hfit1) as (tmp & Ht & ->).
  destruct (fit_some column interest X w2 w2' Hfit2) as (tmp' & Ht' & ->).
  rewrite Ht in Ht'. injection Ht' as <-.
  unfold fitted. simpl. rewrite Hk, Hg. repeat split.
Qed.

End Lookup.

(** ** The blend as a weighted mean *)

Section Smoothing.

Import CategoricalTransformer.
Local Open Scope R_scope.

Lemma exp_opp_mult d : exp d * exp (- d) = 1.
Proof. rewrite <- exp_plus, Rplus_opp_r. apply exp_0. Qed.

(** X8: at a record count equal to the threshold the smoothing weight
    is one half, and the weights of two record counts at the same
    distance below and above the threshold add up to one. *)
Theorem lambda_is_half_at_threshold :
  forall threshold : R,
    lambda threshold threshold = 1 / 2 /\
    forall d : R, lambda threshold (threshold + d) + lambda threshold (threshold - d) = 1.
Proof.
  intros k. split.
  - unfold lambda. replace (k - k) with 0 by ring. rewrite exp_0. lra.
  - intros d. unfold lambda.
    replace (k - (k + d)) with (- d) by ring.
    replace (k - (k - d)) with d by ring.
    pose proof (exp_pos d) as Hp. pose proof (exp_pos (- d)) as Hn.
    pose proof (exp_opp_mult d) as Hm.
    transitivity ((2 + exp (- d) + exp d) / ((1 + exp (- d)) * (1 + exp d))).
    { field. split; lra. }
    replace ((1 + exp (- d)) * (1 + exp d)) with (2 + exp (- d) + exp d) by nra.
    field. lra.
Qed.

(** X9: the blend of a category lies between its empirical share and
    the global share, and a larger record count never moves it away
    from the empirical share. *)
Theorem blend_stays_between_share_and_global :
  forall threshold share glob : R,
    (forall n : R,
       Rmin share glob <= blend (lambda threshold n) share glob
                       <= Rmax share glob) /\
    (forall n m : R, n <= m ->
       Rabs (blend (lambda threshold m) share glob - share)
       <= Rabs (blend (lambda threshold n) share glob - share)).
Proof.
  intros k share glob. split.
  - intros n.
    pose proof (lambda_pos k n) as Hp. pose proof (lambda_lt_1 k n) as Hl.
    unfold blend, Rmin, Rmax. destruct (Rle_dec share glob); split; nra.
  - intros n m Hnm. rewrite !blend_minus_share, !Rabs_mult.
    pose proof (lambda_lt_1 k n) as Hn. pose proof (lambda_lt_1 k m) as Hm.
    rewrite (Rabs_pos_eq (1 - lambda k n)) by lra.
    rewrite (Rabs_pos_eq (1 - lambda k m)) by lra.
    apply Rmult_le_compat_r; [apply Rabs_pos |].
    destruct Hnm as [Hlt | ->]; [| lra].
    pose proof (lambda_increasing k n m Hlt). lra.
Qed.

Lemma blend_stays_between_share_and_global_witness :
  Rmin 1 (1/2) <= blend (lambda 5 2) 1 (1/2) <= Rmax 1 (1/2) /\
  Rabs (blend (lambda 5 3) 1 (1/2) - 1) <= Rabs (blend (lambda 5 2) 1 (1/2) - 1).
Proof.
  split.
  - apply (proj1 (blend_stays_between_share_and_global 5 1 (1/2)) 2).
  - apply (proj2 (blend_stays_between_share_and_global 5 1 (1/2)) 2 3). lra.
Defined.

End Smoothing.

(** ** The range of the stored statistics *)

Section PositiveStatistics.

Import CategoricalTransformer.
Local Open Scope R_scope.

Context {A : Type}.
Variable column : A -> Z.
Variable interest : A -> option interest_level.

Local Abbreviation grouped := (grouped column interest).
Local Abbreviation fit := (fit column interest).

Lemma shares_sum X tmp r :
  grouped X = Some tmp -> In r tmp -> high_share r + med_share r <= 1.
Proof.
  intros Ht Hr.
  destruct (counts_nonneg column interest X tmp r Ht Hr) as (Hh & Hm & Hl).
  pose proof (record_count_ge_1 column interest X tmp r Ht Hr) as H1.
  unfold high_share, med_share.
  rewrite <- Rdiv_plus_distr.
  apply (share_in_0_1 (n_high r + n_medium r) (record_count r));
    unfold record_count in *; lra.
Qed.

(** X10: with draws in [[0, 1)], no statistic [fit] stores is negative,
    and the two statistics of a category add up to less than 1.005. *)
Theorem stored_statistics_add_up_below_1005 :
  forall (X : list A) (w w' : world) (mapping : list mapping_row)
         (m : mapping_row),
    uniform_draws (np_random w) ->
    fit X w = Some (tt, w') ->
    mapping_ (self w') = Some mapping ->
    In m mapping ->
    0 <= w_high m /\ 0 <= w_med m /\ w_high m + w_med m < 1.005.
Proof.
  intros X w w' mapping m Hu Hfit Hm Hin.
  destruct (fit_some column interest X w w' Hfit) as (tmp & Ht & ->).
  destruct (fitted_mapping w tmp) as (mapping' & Hm' & Hrows).
  rewrite Hm in Hm'. injection Hm' as <-.
  apply In_nth_error in Hin. destruct Hin as [i Hi].
  apply Hrows in Hi. destruct Hi as (r & Hr & ->).
  assert (Hrin : In r tmp) by (eapply nth_error_In; exact Hr).
  destruct (row_shares column interest X tmp r Ht Hrin) as (Hhs & Hms).
  destruct (global_shares column interest X tmp Ht) as (Hgh & Hgm & Hgs).
  pose proof (shares_sum X tmp r Ht Hrin) as Hss.
  set (k := threshold (self w)).
  pose proof (lambda_pos k (record_count r)) as Hlp.
  pose proof (lambda_lt_1 k (record_count r)) as Hl1.
  assert (Hlam : 0 <= lambda k (record_count r) <= 1) by lra.
  pose proof (blend_in_0_1 _ _ _ Hlam Hhs Hgh) as Hbh.
  pose proof (blend_in_0_1 _ _ _ Hlam Hms Hgm) as Hbm.
  assert (Hsum : blend (lambda k (record_count r)) (high_share r) (global_high tmp)
                 + blend (lambda k (record_count r)) (med_share r) (global_med tmp)
                 <= 1).
  { unfold blend. nra. }
  unfold stored_row, w_stat. simpl. fold k.
  pose proof (Hu (position (np_random w) + i)%nat) as Hu1.
  pose proof (Hu (position (np_random w) + List.length tmp + i)%nat) as Hu2.
  unfold jitter.
  set (bh := blend (lambda k (record_count r)) (high_share r) (global_high tmp)) in *.
  set (bm := blend (lambda k (record_count r)) (med_share r) (global_med tmp)) in *.
  set (fh := 1 + 0.01 * (draws (np_random w) (position (np_random w) + i) - 0.5)).
  set (fm := 1 + 0.01 * (draws (np_random w)
                           (position (np_random w) + List.length tmp + i) - 0.5)).
  assert (Hfh : 0.995 <= fh < 1.005) by (unfold fh; lra).
  assert (Hfm : 0.995 <= fm < 1.005) by (unfold fm; lra).
  split; [nra |]. split; [nra |].
  destruct (Rle_lt_or_eq_dec 0 bh (proj1 Hbh)) as [Hpos | Hzero].
  - assert (bh * fh < bh * 1.005) by (apply Rmult_lt_compat_l; lra).
    assert (bm * fm <= bm * 1.005) by (apply Rmult_le_compat_l; lra).
    lra.
  - rewrite <- Hzero in *. rewrite Rmult_0_l, Rplus_0_l.
    destruct (Rle_lt_or_eq_dec 0 bm (proj1 Hbm)) as [Hpos | Hzero'].
    + assert (bm * fm < bm * 1.005) by (apply Rmult_lt_compat_l; lra).
      lra.
    + rewrite <- Hzero'. lra.
Qed.

End PositiveStatistics.

(** ** Further properties of [ManagerSkill] *)

Section ManagerSkillRange.

Import ManagerSkill.
Local Open Scope Q_scope.

Context {A : Type}.
Variable index : A -> Z.
Variable y_index : nat -> Z.
Variable manager_id : A -> Z.
Variable first_column : A -> bool.

Local Abbreviation fit := (fit index y_index manager_id first_column).
Local Abbreviation transform := (transform manager_id).
Local Abbreviation temp := (temp index y_index manager_id first_column).
Local Abbreviation count := (count manager_id first_column).
Local Abbreviation temp_row_of :=
  (temp_row_of index y_index manager_id first_column).
Local Abbreviation fitted_mapping_ :=
  (fitted_mapping_ index y_index manager_id first_column).
Local Abbreviation merged_skill :=
  (merged_skill index y_index manager_id first_column).
Local Abbreviation own_skill := (own_skill index y_index manager_id).
Local Abbreviation frequent_skills :=
  (frequent_skills index y_index manager_id first_column).


Lemma manager_fit_raises X y s :
  dummy_column y high && dummy_column y medium = false -> fit X y s = None.
Proof.
  intros H. unfold ManagerSkill.fit. rewrite H.
  unfold bind, _reset, modify, raise. reflexivity.
Qed.

Lemma manager_fit_some X y s s' :
  fit X y s = Some (tt, s') ->
  dummy_column y high = true /\ dummy_column y medium = true /\
  s' = {| threshold := threshold s;
          mapping_ := Some (fitted_mapping_ (threshold s) X y);
          mean_skill_ := Some (mean_skill (threshold s) (temp X y)) |}.
Proof.
  intros Hfit.
  destruct (dummy_column y high) eqn:Eh; destruct (dummy_column y medium) eqn:Em;
    try (rewrite manager_fit_raises in Hfit by (rewrite Eh, Em; reflexivity);
         discriminate Hfit).
  rewrite (manager_fit_run _ _ _ _ X y s Eh Em) in Hfit. injection Hfit as <-.
  auto.
Qed.


Lemma count_of_nonneg n : 0 <= count_of n.
Proof. unfold count_of. rewrite <- (Zle_Qle 0). lia. Qed.

Lemma count_of_le n m : (n <= m)%nat -> count_of n <= count_of m.
Proof. intros H. unfold count_of. rewrite <- Zle_Qle. lia. Qed.

Lemma count_of_plus n m : count_of (n + m) == count_of n + count_of m.
Proof.
  unfold count_of. rewrite Nat2Z.inj_add, inject_Z_plus. reflexivity.
Qed.

Lemma count_of_succ n : count_of (S n) == count_of n + 1.
Proof.
  replace (S n) with (n + 1)%nat by lia. rewrite count_of_plus. reflexivity.
Qed.

(** The ratio of a count to a count it does not exceed. *)
Lemma ratio_in_0_1 a b : (a <= b)%nat -> 0 <= count_of a / count_of b <= 1.
Proof.
  intros Hab. destruct b as [| b].
  - assert (a = 0%nat) as -> by lia. split; discriminate.
  - pose proof (count_of_pos (S b) (Nat.lt_0_succ b)) as Hpos.
    pose proof (count_of_nonneg a) as Ha.
    pose proof (count_of_le a (S b) Hab) as Hle.
    split.
    + apply Qle_shift_div_l; [exact Hpos | Lqa.lra].
    + apply Qle_shift_div_r; [exact Hpos | Lqa.lra].
Qed.

Lemma ratios_sum a1 a2 b :
  (a1 + a2 <= b)%nat ->
  count_of a1 / count_of b + count_of a2 / count_of b <= 1.
Proof.
  intros Hab. destruct b as [| b].
  - assert (a1 = 0%nat) as -> by lia. assert (a2 = 0%nat) as -> by lia.
    discriminate.
  - pose proof (count_of_pos (S b) (Nat.lt_0_succ b)) as Hpos.
    assert (E : count_of a1 / count_of (S b) + count_of a2 / count_of (S b)
                == count_of (a1 + a2) / count_of (S b)).
    { rewrite count_of_plus. field. Lqa.lra. }
    rewrite E. apply (ratio_in_0_1 (a1 + a2) (S b) Hab).
Qed.

Lemma some_eq {T} (a b : T) : Some a = Some b -> a = b.
Proof. congruence. Qed.

Lemma high_and_medium_labels (ls : list interest_level) :
  (List.length (filter (fun c => interest_level_eqb c high) ls)
   + List.length (filter (fun c => interest_level_eqb c medium) ls)
   <= List.length ls)%nat.
Proof.
  induction ls as [| l ls IH]; [reflexivity |].
  cbn [filter]. destruct l; cbn [interest_level_eqb List.length]; lia.
Qed.

(** The skill of a manager lies between 0 and 2. *)
Lemma own_skill_in_0_2 X y m v : own_skill X y m = Some v -> 0 <= v <= 2.
Proof.
  unfold ManagerSkill.own_skill.
  destruct (labels_of index y_index manager_id X y m) as [| l ls];
    [discriminate |].
  set (rows := l :: ls).
  intros H. apply some_eq in H. rewrite <- H. clear H.
  pose proof (high_and_medium_labels rows) as Hsum.
  pose proof (ratio_in_0_1
                (List.length (filter (fun c => interest_level_eqb c high) rows))
                (List.length rows) ltac:(lia)) as Hh.
  pose proof (ratio_in_0_1
                (List.length (filter (fun c => interest_level_eqb c medium) rows))
                (List.length rows) ltac:(lia)) as Hm.
  pose proof (ratios_sum _ _ _ Hsum) as Hs.
  split; Lqa.lra.
Qed.

Lemma sum_in_0_2 (xs : list Q) :
  (forall x, In x xs -> 0 <= x <= 2) ->
  0 <= sum xs <= 2 * count_of (List.length xs).
Proof.
  induction xs as [| x xs IH]; intros H.
  - simpl. split; discriminate.
  - assert (Hx : 0 <= x <= 2) by (apply H; left; reflexivity).
    assert (Hxs : 0 <= sum xs <= 2 * count_of (List.length xs))
      by (apply IH; intros x' Hx'; apply H; right; exact Hx').
    change (sum (x :: xs)) with (x + sum xs).
    change (List.length (x :: xs)) with (S (List.length xs)).
    rewrite count_of_succ. split; Lqa.lra.
Qed.

Lemma mean_in_0_2 (xs : list Q) (v : Q) :
  (forall x, In x xs -> 0 <= x <= 2) -> mean xs = Some v -> 0 <= v <= 2.
Proof.
  intros H Hm.
  assert (Hlen : (0 < List.length xs)%nat)
    by (destruct xs; [discriminate Hm | apply Nat.lt_0_succ]).
  assert (E : mean xs = Some (sum xs / count_of (List.length xs)))
    by (destruct xs; [discriminate Hm | reflexivity]).
  rewrite E in Hm. injection Hm as <-.
  pose proof (sum_in_0_2 xs H) as Hs.
  pose proof (count_of_pos (List.length xs) Hlen) as Hpos.
  split.
  - apply Qle_shift_div_l; [exact Hpos | Lqa.lra].
  - apply Qle_shift_div_r; [exact Hpos | Lqa.lra].
Qed.

(** The skills [fit] averages are skills of managers of [X] that reach
    the threshold. *)
Lemma in_frequent_skills k X y v :
  In v (frequent_skills k X y) <->
  exists m, In m (map manager_id X) /\ k <= count X m /\
            own_skill X y m = Some v.
Proof.
  unfold ManagerSkill.frequent_skills.
  rewrite in_dropna, in_map_iff. split.
  - intros (m & Hv & Hm). apply filter_In in Hm. destruct Hm as [Hm Hk].
    exists m. split; [apply in_group_keys, Hm |].
    split; [apply Qle_bool_iff, Hk | exact Hv].
  - intros (m & Hm & Hk & Hv). exists m. split; [exact Hv |].
    apply filter_In. split; [apply in_group_keys, Hm | apply Qle_bool_iff, Hk].
Qed.

Lemma mean_skill_in_0_2 k X y v :
  mean_skill k (temp X y) = Some v -> 0 <= v <= 2.
Proof.
  rewrite mean_skill_frequent. apply mean_in_0_2.
  intros x Hx. apply in_frequent_skills in Hx.
  destruct Hx as (m & _ & _ & Hv). apply (own_skill_in_0_2 X y m x Hv).
Qed.

Lemma manager_skill_in_0_2 k X y m v :
  manager_skill k (mean_skill k (temp X y)) (temp_row_of X y m) = Some v ->
  0 <= v <= 2.
Proof.
  unfold manager_skill. destruct (lt_threshold _ _).
  - apply mean_skill_in_0_2.
  - rewrite skill_own. apply own_skill_in_0_2.
Qed.

(** X12: after [fit], every number [transform] returns lies between 0
    and 2, and so does [mean_skill_] when it is not NaN. *)
Theorem manager_skill_lies_in_0_2 :
  forall (X : list A) (y : list interest_level) (s s' : t) (Xt : list A),
    List.length X = List.length y ->
    fit X y s = Some (tt, s') ->
    (forall v, mean_skill_ s' = Some (Some v) -> 0 <= v <= 2) /\
    exists out : list float,
      transform Xt s' = Some (out, s') /\
      forall v, In (Some v) out -> 0 <= v <= 2.
Proof.
  intros X y s s' Xt _ Hfit.
  destruct (manager_fit_some X y s s' Hfit) as (_ & _ & ->).
  set (k := threshold s). split.
  - simpl. intros v Hv. injection Hv as Hv. apply (mean_skill_in_0_2 k X y v Hv).
  - eexists. split; [apply manager_transform_run; reflexivity |].
    rewrite (merge_fitted _ _ _ _ k X y Xt).
    intros v Hv. apply in_map_iff in Hv. destruct Hv as (c & Hc & Hin).
    apply in_map_iff in Hin. destruct Hin as (x & <- & _).
    unfold ManagerSkill.merged_skill in Hc.
    destruct (existsb _ _).
    + destruct (manager_skill k (mean_skill k (temp X y))
                  (temp_row_of X y (manager_id x))) as [q |] eqn:E.
      * simpl in Hc. injection Hc as <-.
        apply (manager_skill_in_0_2 k X y (manager_id x) q E).
      * simpl in Hc. apply (mean_skill_in_0_2 k X y v Hc).
    + simpl in Hc. apply (mean_skill_in_0_2 k X y v Hc).
Qed.

End ManagerSkillRange.

Section ManagerSkillLookup.

Import ManagerSkill.
Local Open Scope Q_scope.

Context {A : Type}.
Variable index : A -> Z.
Variable y_index : nat -> Z.
Variable manager_id : A -> Z.
Variable first_column : A -> bool.

Local Abbreviation fit := (fit index y_index manager_id first_column).
Local Abbreviation transform := (transform manager_id).
Local Abbreviation temp := (temp index y_index manager_id first_column).
Local Abbreviation count := (count manager_id first_column).
Local Abbreviation temp_row_of :=
  (temp_row_of index y_index manager_id first_column).
Local Abbreviation fitted_mapping_ :=
  (fitted_mapping_ index y_index manager_id first_column).
Local Abbreviation merged_skill :=
  (merged_skill index y_index manager_id first_column).
Local Abbreviation at_label := (at_label y_index).
Local Abbreviation labels_of := (labels_of index y_index manager_id).
Local Abbreviation own_skill := (own_skill index y_index manager_id).
Local Abbreviation frequent_skills :=
  (frequent_skills index y_index manager_id first_column).

Lemma lt_threshold_false c k : k <= c -> lt_threshold c k = false.
Proof.
  intros H. unfold lt_threshold.
  rewrite (proj2 (Qle_bool_iff k c) H). reflexivity.
Qed.

(** What [transform] gives one row of a manager of the training frame
    that reaches the threshold. *)
Lemma frequent_manager_row k X y s' x :
  s' = {| threshold := k;
          mapping_ := Some (fitted_mapping_ k X y);
          mean_skill_ := Some (mean_skill k (temp X y)) |} ->
  In (manager_id x) (map manager_id X) ->
  k <= count X (manager_id x) ->
  transform [x] s'
  = Some ([fillna_float (mean_skill k (temp X y)) (own_skill X y (manager_id x))],
          s').
Proof.
  intros -> Hin Hk.
  rewrite (manager_transform_run manager_id [x]
             {| threshold := k;
                mapping_ := Some (fitted_mapping_ k X y);
                mean_skill_ := Some (mean_skill k (temp X y)) |}
             (fitted_mapping_ k X y) (mean_skill k (temp X y)) eq_refl eq_refl).
  rewrite (merge_fitted _ _ _ _ k X y [x]). simpl.
  unfold ManagerSkill.merged_skill.
  rewrite (proj2 (existsb_eqb_in _ _) Hin).
  unfold manager_skill. cbn [record_count ManagerSkill.temp_row_of].
  rewrite (lt_threshold_false _ _ Hk), skill_own. reflexivity.
Qed.

(** A manager of [X] all of whose rows have a label in [y] has a
    skill. *)
Lemma own_skill_of_labelled X y m :
  In m (map manager_id X) ->
  (forall x, In x X -> at_label y (index x) <> None) ->
  own_skill X y m <> None.
Proof.
  intros Hin Hall. unfold ManagerSkill.own_skill.
  destruct (labels_of X y m) as [| l ls] eqn:E; [| discriminate].
  exfalso. apply in_map_iff in Hin. destruct Hin as (x & Hm & Hx).
  destruct (at_label y (index x)) as [l |] eqn:El;
    [| exact (Hall x Hx El)].
  assert (Hl : In l (labels_of X y m)).
  { unfold ManagerSkill.labels_of. apply in_dropna, in_map_iff.
    exists x. split; [exact El |].
    apply filter_In. split; [exact Hx | apply Z.eqb_eq, Hm]. }
  rewrite E in Hl. destruct Hl.
Qed.

(** X13: after [fit], a row of a manager of the training frame whose
    record count reaches the threshold gets the skill of that manager:
    twice the fraction of [high] plus the fraction of [medium] among
    the labels that [y] holds at the index labels of its rows.  When
    [y] holds no label for the manager the skill is NaN and the row
    gets [mean_skill_]; when [y] has a label for every row of the
    frame, the skill is a number. *)
Theorem frequent_manager_gets_own_skill :
  forall (X : list A) (y : list interest_level) (s s' : t) (x : A),
    NoDup (map index X) ->
    NoDup (map y_index (seq 0 (List.length y))) ->
    fit X y s = Some (tt, s') ->
    In (manager_id x) (map manager_id X) ->
    threshold s <= count X (manager_id x) ->
    (forall v, own_skill X y (manager_id x) = Some v ->
       transform [x] s' = Some ([Some v], s')) /\
    (own_skill X y (manager_id x) = None ->
     exists mean, mean_skill_ s' = Some mean /\
       transform [x] s' = Some ([mean], s')) /\
    ((forall x', In x' X -> at_label y (index x') <> None) ->
     own_skill X y (manager_id x) <> None).
Proof.
  intros X y s s' x _ _ Hfit Hin Hk.
  destruct (manager_fit_some _ _ _ _ X y s s' Hfit) as (_ & _ & Hs').
  pose proof (frequent_manager_row (threshold s) X y s' x Hs' Hin Hk) as Hrow.
  split; [| split].
  - intros v Hv. rewrite Hrow, Hv. reflexivity.
  - intros Hnone. exists (mean_skill (threshold s) (temp X y)).
    split; [rewrite Hs'; reflexivity |].
    rewrite Hrow, Hnone. reflexivity.
  - apply own_skill_of_labelled, Hin.
Qed.

Lemma mean_none_iff (xs : list Q) : mean xs = None <-> xs = [].
Proof. destruct xs; simpl; split; intros H; try reflexivity; discriminate H. Qed.

(** [mean_skill_] is NaN exactly when no manager that reaches the
    threshold has a skill. *)
Lemma mean_skill_none_iff k X y :
  mean_skill k (temp X y) = None <->
  forall m, In m (map manager_id X) -> k <= count X m -> own_skill X y m = None.
Proof.
  rewrite mean_skill_frequent, mean_none_iff. split.
  - intros Hnil m Hm Hk.
    destruct (own_skill X y m) as [v |] eqn:E; [| reflexivity].
    exfalso.
    assert (Hv : In v (frequent_skills k X y))
      by (apply in_frequent_skills; exists m; auto).
    rewrite Hnil in Hv. destruct Hv.
  - intros Hall.
    destruct (frequent_skills k X y) as [| v vs] eqn:E; [reflexivity |].
    exfalso.
    assert (Hv : In v (frequent_skills k X y)) by (rewrite E; left; reflexivity).
    apply in_frequent_skills in Hv. destruct Hv as (m & Hm & Hk & Hv).
    rewrite (Hall m Hm Hk) in Hv. discriminate Hv.
Qed.

Lemma own_skill_none_iff X y m :
  own_skill X y m = None <-> labels_of X y m = [].
Proof.
  unfold ManagerSkill.own_skill.
  destruct (labels_of X y m); split; intros H; try reflexivity; discriminate H.
Qed.

(** X14: [mean_skill_] is NaN exactly when [y] holds no label for any
    manager of the training frame that reaches the threshold; when [y]
    has a label for every row of the frame, exactly when no manager
    reaches the threshold.  Then every value [transform] returns is
    NaN, and otherwise none is. *)
Theorem manager_skill_is_nan_iff_no_manager_reaches_threshold :
  forall (X : list A) (y : list interest_level) (s s' : t) (Xt : list A),
    NoDup (map index X) ->
    NoDup (map y_index (seq 0 (List.length y))) ->
    fit X y s = Some (tt, s') ->
    exists (mean : float) (out : list float),
      mean_skill_ s' = Some mean /\
      (mean = None <->
       forall m, In m (map manager_id X) -> threshold s <= count X m ->
         labels_of X y m = []) /\
      ((forall x, In x X -> at_label y (index x) <> None) ->
       (mean = None <->
        forall m, In m (map manager_id X) -> count X m < threshold s)) /\
      transform Xt s' = Some (out, s') /\
      forall o, In o out -> (o = None <-> mean = None).
Proof.
  intros X y s s' Xt _ _ Hfit.
  destruct (manager_fit_some _ _ _ _ X y s s' Hfit) as (_ & _ & ->).
  set (k := threshold s).
  exists (mean_skill k (temp X y)). eexists.
  split; [reflexivity |].
  pose proof (mean_skill_none_iff k X y) as Hnan.
  split; [| split; [| split]].
  - rewrite Hnan. split; intros H m Hm Hk.
    + apply own_skill_none_iff, H; assumption.
    + apply own_skill_none_iff, H; assumption.
  - intros Hall. rewrite Hnan. split.
    + intros H m Hm. apply Qnot_le_lt. intros Hk.
      apply (own_skill_of_labelled X y m Hm Hall), H; assumption.
    + intros H m Hm Hk. exfalso.
      exact (Qlt_not_le _ _ (H m Hm) Hk).
  - apply manager_transform_run; reflexivity.
  - rewrite (merge_fitted _ _ _ _ k X y Xt).
    intros o Ho. apply in_map_iff in Ho. destruct Ho as (c & <- & Hin).
    apply in_map_iff in Hin. destruct Hin as (x & <- & _).
    unfold ManagerSkill.merged_skill.
    destruct (existsb (Z.eqb (manager_id x)) (map manager_id X)) eqn:E.
    + unfold manager_skill. cbn [record_count ManagerSkill.temp_row_of].
      destruct (lt_threshold (count X (manager_id x)) k) eqn:El.
      * rewrite fillna_float_same. tauto.
      * rewrite skill_own.
        destruct (own_skill X y (manager_id x)) as [v |] eqn:Ev.
        -- simpl. split; [discriminate |]. intros Hmean. exfalso.
           apply (proj1 (existsb_eqb_in _ _)) in E.
           assert (Hk : k <= count X (manager_id x)).
           { apply Qnot_lt_le. intros Hlt.
             apply (lt_threshold_iff (count X (manager_id x)) k) in Hlt.
             congruence. }
           rewrite (proj1 Hnan Hmean (manager_id x) E Hk) in Ev.
           discriminate Ev.
        -- simpl. tauto.
    + simpl. tauto.
Qed.

End ManagerSkillLookup.

(** * Properties of the script *)

(** ** Words and feature tags *)

Section Strings.

Import Script.
Local Open Scope string_scope.

Lemma split_nonempty sep s : split sep s <> [].
Proof.
  destruct s as [| c s]; simpl; [discriminate |].
  destruct (Ascii.eqb c sep); [discriminate |].
  destruct (split sep s); discriminate.
Qed.

Lemma split_length sep s :
  List.length (split sep s) = S (occurrences sep s).
Proof.
  induction s as [| c s IH]; [reflexivity |].
  simpl. destruct (Ascii.eqb c sep).
  - simpl. rewrite IH. reflexivity.
  - pose proof (split_nonempty sep s) as Hne.
    destruct (split sep s) as [| p ps]; [contradiction |].
    simpl in *. exact IH.
Qed.

(** X15: [num_description_words] is one more than the number of spaces
    of the description: the empty description counts one word, and
    every further space of a run of spaces counts a word. *)
Theorem num_description_words_counts_spaces :
  forall description : string,
    num_description_words description = S (occurrences space description) /\
    num_description_words EmptyString = 1%nat.
Proof.
  intros d. split; [apply split_length | reflexivity].
Qed.

Lemma join_cons_char sep c p ps :
  join sep (String c p :: ps) = String c (join sep (p :: ps)).
Proof. simpl. destruct ps; reflexivity. Qed.

Lemma join_empty_head sep ps :
  ps <> [] -> join sep (EmptyString :: ps) = sep ++ join sep ps.
Proof. intros H. destruct ps; [contradiction | reflexivity]. Qed.

(** Splitting at a character and joining with another replaces the
    one by the other. *)
Lemma join_split old new s :
  join (String new EmptyString) (split old s) = replaced old new s.
Proof.
  induction s as [| c s IH]; [reflexivity |].
  simpl. destruct (Ascii.eqb c old).
  - rewrite join_empty_head by apply split_nonempty.
    rewrite IH. reflexivity.
  - pose proof (split_nonempty old s) as Hne.
    destruct (split old s) as [| p ps]; [contradiction |].
    rewrite join_cons_char, IH. reflexivity.
Qed.

Lemma replaced_has_no_old old new s :
  old <> new -> occurrences old (replaced old new s) = 0%nat.
Proof.
  intros Hne. induction s as [| c s IH]; [reflexivity |].
  simpl. destruct (Ascii.eqb_spec c old) as [-> | Hc].
  - destruct (Ascii.eqb_spec new old) as [E | _]; [congruence | exact IH].
  - destruct (Ascii.eqb_spec c old) as [E | _]; [congruence | exact IH].
Qed.

Lemma replaced_length old new s :
  String.length (replaced old new s) = String.length s.
Proof. induction s as [| c s IH]; simpl; [reflexivity | rewrite IH; reflexivity]. Qed.

Lemma split_without_sep sep a :
  occurrences sep a = 0%nat -> split sep a = [a].
Proof.
  induction a as [| c a IH]; [reflexivity |].
  simpl. destruct (Ascii.eqb c sep); [discriminate |].
  simpl. intros H. rewrite (IH H). reflexivity.
Qed.

Lemma split_at_sep sep a b :
  occurrences sep a = 0%nat ->
  split sep (a ++ String sep b) = a :: split sep b.
Proof.
  induction a as [| c a IH].
  - intros _. simpl. rewrite Ascii.eqb_refl. reflexivity.
  - simpl. destruct (Ascii.eqb c sep); [discriminate |].
    simpl. intros H. rewrite (IH H). reflexivity.
Qed.

Lemma split_join sep (l : list string) :
  l <> [] -> (forall a, In a l -> occurrences sep a = 0%nat) ->
  split sep (join (String sep EmptyString) l) = l.
Proof.
  induction l as [| a l IH]; [contradiction |].
  intros _ Hall. destruct l as [| b l].
  - simpl. apply split_without_sep, Hall. left. reflexivity.
  - change (join (String sep EmptyString) (a :: b :: l))
      with (a ++ String sep (join (String sep EmptyString) (b :: l))).
    rewrite split_at_sep by (apply Hall; left; reflexivity).
    rewrite IH; [reflexivity | discriminate |].
    intros a' Ha'. apply Hall. right. exact Ha'.
Qed.

Lemma space_is_not_underscore : space <> underscore.
Proof. discriminate. Qed.

(** X16: the rewritten [features] cell splits at its spaces into exactly
    the tags of the listing, each with its own spaces replaced by
    underscores; so a listing with tags has as many pieces as
    [num_features], and one without tags has one empty piece. *)
Theorem features_text_splits_into_the_tags :
  forall x : list string,
    (forall i : string, join_words i = replaced space underscore i) /\
    (x <> [] ->
     split space (features_text x) = map (replaced space underscore) x) /\
    List.length (split space (features_text x)) = Nat.max 1 (num_features x) /\
    features_text [] = EmptyString.
Proof.
  intros x.
  assert (Hjw : forall i, join_words i = replaced space underscore i)
    by (intros i; apply join_split).
  assert (Hmap : map join_words x = map (replaced space underscore) x)
    by (apply map_ext, Hjw).
  assert (Hsplit : x <> [] ->
            split space (features_text x) = map (replaced space underscore) x).
  { intros Hne. unfold features_text. rewrite Hmap. apply split_join.
    - destruct x; [contradiction | discriminate].
    - intros a Ha. apply in_map_iff in Ha. destruct Ha as (i & <- & _).
      apply replaced_has_no_old, space_is_not_underscore. }
  split; [exact Hjw |]. split; [exact Hsplit |]. split; [| reflexivity].
  destruct x as [| i x]; [reflexivity |].
  rewrite Hsplit by discriminate.
  rewrite length_map. unfold num_features. simpl. reflexivity.
Qed.

Lemma features_text_splits_into_the_tags_witness :
  split space (features_text (features ScriptExample.studio))
  = ["Doorman"; "Cats_Allowed"; "Dogs_Allowed"].
Proof.
  apply (proj1 (proj2 (features_text_splits_into_the_tags
                         (features ScriptExample.studio)))).
  discriminate.
Defined.

End Strings.

(** ** Ratios of rooms and price *)

Section Ratios.

Import Script.
Local Open Scope Q_scope.

Lemma Qeq_bool_false a b : ~ a == b -> Qeq_bool a b = false.
Proof.
  intros H. destruct (Qeq_bool a b) eqn:E; [| reflexivity].
  exfalso. apply H. apply Qeq_bool_iff, E.
Qed.

Lemma Qeq_bool_true a b : a == b -> Qeq_bool a b = true.
Proof. intros H. apply Qeq_bool_iff, H. Qed.

Lemma divide_by_zero a b :
  b == 0 -> 0 < a -> divide a b = Infinite false.
Proof.
  intros Hb Ha. unfold divide.
  rewrite (Qeq_bool_true b 0 Hb).
  rewrite (Qeq_bool_false a 0) by Lqa.lra.
  assert (E : Qle_bool 0 a = true) by (apply Qle_bool_iff; Lqa.lra).
  rewrite E. reflexivity.
Qed.

Lemma divide_zero_by_zero a b : b == 0 -> a == 0 -> divide a b = NaN.
Proof.
  intros Hb Ha. unfold divide.
  rewrite (Qeq_bool_true b 0 Hb), (Qeq_bool_true a 0 Ha). reflexivity.
Qed.

Lemma divide_by_nonzero a b : ~ b == 0 -> divide a b = Finite (a / b).
Proof. intros Hb. unfold divide. rewrite (Qeq_bool_false b 0 Hb). reflexivity. Qed.

Lemma inject_Z_nonneg z : (0 <= z)%Z -> 0 <= inject_Z z.
Proof. intros H. rewrite <- (Zle_Qle 0). exact H. Qed.

Lemma inject_Z_pos z : (0 < z)%Z -> 0 < inject_Z z.
Proof. intros H. rewrite <- (Zlt_Qlt 0). exact H. Qed.

Lemma inject_Z_zero z : inject_Z z == 0 <-> z = 0%Z.
Proof.
  split.
  - intros H. apply (inject_Z_injective z 0). exact H.
  - intros ->. reflexivity.
Qed.

(** X17: for a listing with a positive price and no negative number of
    rooms, [price_per_bed] is plus infinity exactly for a studio and a
    positive number otherwise; [bed_per_roomsum] is NaN exactly for a
    listing with neither bedroom nor bathroom and a number between 0
    and 1 otherwise; and [room_dif + room_sum] is twice the number of
    bedrooms. *)
Theorem ratios_of_a_listing :
  forall x : listing,
    (0 <= bedrooms x)%Z -> 0 <= bathrooms x -> (0 < price x)%Z ->
    (bedrooms x = 0%Z -> price_per_bed x = Infinite false) /\
    (bedrooms x <> 0%Z ->
     exists q, price_per_bed x = Finite q /\ 0 < q) /\
    (room_sum x == 0 -> bed_per_roomsum x = NaN /\
                        price_per_room x = Infinite false) /\
    (~ room_sum x == 0 ->
     exists q r, bed_per_roomsum x = Finite q /\ 0 <= q <= 1 /\
                 price_per_room x = Finite r /\ 0 < r) /\
    room_dif x + room_sum x == 2 * inject_Z (bedrooms x).
Proof.
  intros x Hbed Hbath Hprice.
  pose proof (inject_Z_nonneg _ Hbed) as Hb.
  pose proof (inject_Z_pos _ Hprice) as Hp.
  split; [| split; [| split; [| split]]].
  - intros H0. unfold price_per_bed.
    apply divide_by_zero; [apply inject_Z_zero, H0 | exact Hp].
  - intros Hne. unfold price_per_bed.
    assert (Hpos : 0 < inject_Z (bedrooms x)) by (apply inject_Z_pos; lia).
    rewrite divide_by_nonzero by Lqa.lra.
    eexists. split; [reflexivity |].
    apply Qlt_shift_div_l; [exact Hpos | Lqa.lra].
  - intros Hsum. unfold room_sum in Hsum.
    assert (Hz : inject_Z (bedrooms x) == 0) by Lqa.lra.
    split.
    + unfold bed_per_roomsum. apply divide_zero_by_zero; [exact Hsum | exact Hz].
    + unfold price_per_room. apply divide_by_zero; [exact Hsum | exact Hp].
  - intros Hsum. unfold room_sum in Hsum.
    assert (Hpos : 0 < room_sum x) by (unfold room_sum; Lqa.lra).
    unfold bed_per_roomsum, price_per_room.
    rewrite !divide_by_nonzero by (unfold room_sum; exact Hsum).
    do 2 eexists. split; [reflexivity |]. split; [| split; [reflexivity |]].
    + split.
      * apply Qle_shift_div_l; [exact Hpos | Lqa.lra].
      * apply Qle_shift_div_r; [exact Hpos | unfold room_sum; Lqa.lra].
    + apply Qlt_shift_div_l; [exact Hpos | Lqa.lra].
  - unfold room_dif, room_sum. ring.
Qed.

Lemma ratios_of_a_listing_witness :
  price_per_bed ScriptExample.studio = Infinite false /\
  exists q r, bed_per_roomsum ScriptExample.studio = Finite q /\ 0 <= q <= 1 /\
              price_per_room ScriptExample.studio = Finite r /\ 0 < r.
Proof.
  pose proof (ratios_of_a_listing ScriptExample.studio) as H.
  assert (H1 : (0 <= bedrooms ScriptExample.studio)%Z) by (simpl; lia).
  assert (H2 : 0 <= bathrooms ScriptExample.studio) by (simpl; discriminate).
  assert (H3 : (0 < price ScriptExample.studio)%Z) by reflexivity.
  destruct (H H1 H2 H3) as (Hinf & _ & _ & Hfin & _).
  split; [apply Hinf; reflexivity |].
  apply Hfin. simpl. discriminate.
Defined.

End Ratios.

(** ** Counts and means merged back into the frame *)

Section GroupMerge.

Import Script.

Lemma in_insert_name k x ks : In x (insert_name k ks) <-> x = k \/ In x ks.
Proof.
  induction ks as [| k' ks IH]; simpl.
  - intuition.
  - destruct (String.compare k k') eqn:E.
    + apply String.compare_eq_iff in E. subst k'. simpl. intuition.
    + simpl. intuition.
    + simpl. rewrite IH. intuition.
Qed.

Lemma in_group_names x col : In x (group_names col) <-> In x col.
Proof.
  induction col as [| k col IH]; simpl; [tauto |].
  rewrite in_insert_name, IH. intuition.
Qed.

Lemma compare_lt_trans a b c :
  String.compare a b = Lt -> String.compare b c = Lt -> String.compare a c = Lt.
Proof.
  intros Hab Hbc.
  apply OrderedTypeEx.String_as_OT.cmp_lt.
  apply OrderedTypeEx.String_as_OT.cmp_lt in Hab, Hbc.
  exact (OrderedTypeEx.String_as_OT.lt_trans _ _ _ Hab Hbc).
Qed.

Lemma compare_gt_lt a b : String.compare a b = Gt -> String.compare b a = Lt.
Proof.
  intros H. rewrite String.compare_antisym, H. reflexivity.
Qed.

Lemma compare_refl a : String.compare a a = Eq.
Proof. apply OrderedTypeEx.String_as_OT.cmp_eq. reflexivity. Qed.

Lemma ascending_insert_name k ks :
  ascending_names ks -> ascending_names (insert_name k ks).
Proof.
  induction ks as [| k' ks IH]; simpl.
  - intros _. split; [intros x [] | exact I].
  - intros [Hlow Hasc].
    destruct (String.compare k k') eqn:E.
    + simpl. split; assumption.
    + simpl. split; [| split; assumption].
      intros x [<- | Hx]; [exact E |].
      apply (compare_lt_trans k k' x E), Hlow, Hx.
    + simpl. split; [| apply IH, Hasc].
      intros x Hx. apply in_insert_name in Hx.
      destruct Hx as [-> | Hx]; [apply compare_gt_lt, E | apply Hlow, Hx].
Qed.

Lemma ascending_group_names col : ascending_names (group_names col).
Proof.
  induction col as [| k col IH]; simpl; [exact I |].
  apply ascending_insert_name, IH.
Qed.

Lemma NoDup_group_names col : NoDup (group_names col).
Proof.
  pose proof (ascending_group_names col) as H.
  induction (group_names col) as [| k ks IH]; [constructor |].
  destruct H as [Hlow Hasc]. constructor; [| apply IH, Hasc].
  intros Hin. specialize (Hlow k Hin). rewrite compare_refl in Hlow.
  discriminate Hlow.
Qed.

(** The one row of a table of distinct keys that has the key [m]. *)
Lemma rows_of_name {V : Type} (h : string -> V) (keys : list string) (m : string) :
  NoDup keys -> In m keys ->
  filter (fun r : string * V => String.eqb (fst r) m) (map (fun c => (c, h c)) keys)
  = [(m, h m)].
Proof.
  induction keys as [| c keys IH]; [intros _ [] |].
  intros Hnd Hin. inversion Hnd as [| c' keys' Hnot Hnd']. subst.
  simpl. destruct (String.eqb_spec c m) as [-> | Hne].
  - f_equal. clear IH Hin Hnd Hnd'.
    induction keys as [| a keys IHk]; [reflexivity |].
    simpl. destruct (String.eqb_spec a m) as [-> | _].
    + exfalso. apply Hnot. left. reflexivity.
    + apply IHk. intros H. apply Hnot. right. exact H.
  - apply IH; [exact Hnd' |]. destruct Hin as [-> | Hin]; [congruence | exact Hin].
Qed.

Variable key : listing -> string.

Lemma merge_by_table {V : Type} (h : string -> V) (keys : list string)
      (rows : list listing) :
  NoDup keys -> (forall x, In x rows -> In (key x) keys) ->
  merge_by key rows (map (fun c => (c, h c)) keys)
  = map (fun x => (x, Some (h (key x)))) rows.
Proof.
  intros Hnd. unfold merge_by.
  induction rows as [| x rows IH]; intros Hin; [reflexivity |].
  rewrite flat_map_step, IH by (intros x' Hx'; apply Hin; right; exact Hx').
  rewrite (rows_of_name h keys (key x) Hnd) by (apply Hin; left; reflexivity).
  reflexivity.
Qed.

Lemma group_of_own_key (joint : list listing) (x : listing) :
  In x joint -> In x (group_of key joint (key x)).
Proof.
  intros Hx. apply filter_In. split; [exact Hx | apply String.eqb_refl].
Qed.

(** X18: merging the counts by group back into the frame keeps every
    listing once and in place, leaves no count missing, and gives each
    listing the number of listings of the frame that share its key,
    itself included. *)
Theorem with_count_keeps_the_rows :
  forall joint : list listing,
    with_count key joint
    = map (fun x => (x, Some (List.length (group_of key joint (key x))))) joint /\
    map fst (with_count key joint) = joint /\
    (forall x n, In (x, n) (with_count key joint) ->
       exists c, n = Some c /\ (1 <= c <= List.length joint)%nat).
Proof.
  intros joint.
  assert (E : with_count key joint
              = map (fun x => (x, Some (List.length (group_of key joint (key x)))))
                  joint).
  { unfold with_count, count_by.
    apply (merge_by_table (fun k => List.length (group_of key joint k))).
    - apply NoDup_group_names.
    - intros x Hx. apply in_group_names, in_map, Hx. }
  split; [exact E |]. rewrite E. split.
  - rewrite map_map. simpl. apply map_id.
  - intros x n Hin. apply in_map_iff in Hin.
    destruct Hin as (x' & Hp & Hx'). injection Hp as <- <-.
    eexists. split; [reflexivity |]. split.
    + pose proof (group_of_own_key joint x' Hx') as Hg.
      destruct (group_of key joint (key x')); [destruct Hg | simpl; lia].
    + apply filter_length_le.
Qed.

End GroupMerge.

Section GroupMeans.

Import Script.
Local Open Scope Q_scope.

Variable key : listing -> string.

Lemma total_between (xs : list Q) (a b : Q) :
  (forall q, In q xs -> a <= q <= b) ->
  a * ManagerSkill.count_of (List.length xs) <= total xs
  /\ total xs <= b * ManagerSkill.count_of (List.length xs).
Proof.
  induction xs as [| q xs IH]; intros H.
  - simpl. change (ManagerSkill.count_of 0) with 0. split; Lqa.lra.
  - assert (Hq : a <= q <= b) by (apply H; left; reflexivity).
    assert (Hxs : a * ManagerSkill.count_of (List.length xs) <= total xs
                  /\ total xs <= b * ManagerSkill.count_of (List.length xs))
      by (apply IH; intros q' Hq'; apply H; right; exact Hq').
    change (total (q :: xs)) with (q + total xs).
    change (List.length (q :: xs)) with (S (List.length xs)).
    rewrite count_of_succ. split; Lqa.lra.
Qed.

Lemma mean_price_between (rows : list listing) (lo hi : Z) :
  rows <> [] ->
  (forall x, In x rows -> (lo <= price x <= hi)%Z) ->
  inject_Z lo <= mean_price rows <= inject_Z hi.
Proof.
  intros Hne Hall. unfold mean_price.
  change (inject_Z (Z.of_nat (List.length rows)))
    with (ManagerSkill.count_of (List.length rows)).
  rewrite <- (length_map (fun x => inject_Z (price x)) rows).
  set (xs := map (fun x => inject_Z (price x)) rows).
  assert (Hpos : 0 < ManagerSkill.count_of (List.length xs)).
  { apply count_of_pos. unfold xs. rewrite length_map.
    destruct rows; [contradiction | simpl; lia]. }
  destruct (total_between xs (inject_Z lo) (inject_Z hi)) as [Hl Hh].
  { intros q Hq. unfold xs in Hq. apply in_map_iff in Hq.
    destruct Hq as (x & <- & Hx). specialize (Hall x Hx).
    rewrite <- !Zle_Qle. exact Hall. }
  split.
  - apply Qle_shift_div_l; [exact Hpos | exact Hl].
  - apply Qle_shift_div_r; [exact Hpos | exact Hh].
Qed.

(** X19: merging the mean prices by group back into the frame keeps
    every listing once and in place and leaves no mean missing; each
    mean lies between the lowest and the highest price of the frame,
    and a listing that is alone in its group gets its own price. *)
Theorem with_mean_gives_group_means :
  forall (joint : list listing) (lo hi : Z),
    (forall x, In x joint -> (lo <= price x <= hi)%Z) ->
    map fst (with_mean key joint) = joint /\
    forall x v, In (x, v) (with_mean key joint) ->
      exists m, v = Some m /\
        inject_Z lo <= m <= inject_Z hi /\
        (group_of key joint (key x) = [x] -> m == inject_Z (price x)).
Proof.
  intros joint lo hi Hall.
  assert (E : with_mean key joint
              = map (fun x => (x, Some (mean_price (group_of key joint (key x)))))
                  joint).
  { unfold with_mean, mean_by.
    apply (merge_by_table key (fun k => mean_price (group_of key joint k))).
    - apply NoDup_group_names.
    - intros x Hx. apply in_group_names, in_map, Hx. }
  rewrite E. split.
  - rewrite map_map. simpl. apply map_id.
  - intros x v Hin. apply in_map_iff in Hin.
    destruct Hin as (x' & Hp & Hx'). injection Hp as <- <-.
    eexists. split; [reflexivity |]. split.
    + apply mean_price_between.
      * pose proof (group_of_own_key key joint x' Hx') as Hg.
        intros Hnil. rewrite Hnil in Hg. destruct Hg.
      * intros z Hz. apply Hall. apply filter_In in Hz. apply Hz.
    + intros ->. unfold mean_price. simpl. field.
Qed.

End GroupMeans.

Lemma with_mean_gives_group_means_witness :
  map fst (Script.with_mean Script.manager_id
             [ScriptExample.studio; ScriptExample.unlabelled])
  = [ScriptExample.studio; ScriptExample.unlabelled] /\
  forall x v,
    In (x, v) (Script.with_mean Script.manager_id
                 [ScriptExample.studio; ScriptExample.unlabelled]) ->
    exists m, v = Some m /\
      (inject_Z 2400 <= m <= inject_Z 3000)%Q /\
      (Script.group_of Script.manager_id
         [ScriptExample.studio; ScriptExample.unlabelled]
         (Script.manager_id x) = [x] ->
       (m == inject_Z (Script.price x))%Q).
Proof.
  apply (with_mean_gives_group_means Script.manager_id
           [ScriptExample.studio; ScriptExample.unlabelled] 2400 3000).
  intros x [<- | [<- | []]]; simpl; lia.
Defined.

(** ** Joining the two frames and splitting them again *)

Section SplitBack.

Import Script.

Lemma filter_all {T} (f : T -> bool) (l : list T) :
  (forall x, In x l -> f x = true) -> filter f l = l.
Proof.
  induction l as [| a l IH]; intros H; [reflexivity |].
  simpl. rewrite (H a) by (left; reflexivity).
  rewrite IH by (intros x Hx; apply H; right; exact Hx). reflexivity.
Qed.

Lemma filter_none {T} (f : T -> bool) (l : list T) :
  (forall x, In x l -> f x = false) -> filter f l = [].
Proof.
  induction l as [| a l IH]; intros H; [reflexivity |].
  simpl. rewrite (H a) by (left; reflexivity).
  apply IH. intros x Hx. apply H. right. exact Hx.
Qed.

(** X20: when every training row has a label and no test row has one,
    splitting the joint frame by the label gives back the training
    frame and the test frame, rows in their order. *)
Theorem split_gives_back_train_and_test :
  forall train_df test_df : list listing,
    (forall x, In x train_df -> interest_level_ x <> None) ->
    (forall x, In x test_df -> interest_level_ x = None) ->
    train_rows (concat train_df test_df) = train_df /\
    test_rows (concat train_df test_df) = test_df.
Proof.
  intros train_df test_df Htrain Htest.
  unfold train_rows, test_rows, concat. rewrite !filter_app.
  assert (H1 : forall x, In x train_df -> notnull (interest_level_ x) = true).
  { intros x Hx. specialize (Htrain x Hx).
    destruct (interest_level_ x); [reflexivity | contradiction]. }
  assert (H2 : forall x, In x test_df -> notnull (interest_level_ x) = false).
  { intros x Hx. rewrite (Htest x Hx). reflexivity. }
  split.
  - rewrite (filter_all _ train_df H1), (filter_none _ test_df H2).
    apply app_nil_r.
  - rewrite (filter_none _ train_df), (filter_all _ test_df).
    + reflexivity.
    + intros x Hx. rewrite (H2 x Hx). reflexivity.
    + intros x Hx. rewrite (H1 x Hx). reflexivity.
Qed.

Lemma split_gives_back_train_and_test_witness :
  train_rows (concat [ScriptExample.studio; ScriptExample.two_bed]
                [ScriptExample.unlabelled])
  = [ScriptExample.studio; ScriptExample.two_bed] /\
  test_rows (concat [ScriptExample.studio; ScriptExample.two_bed]
               [ScriptExample.unlabelled])
  = [ScriptExample.unlabelled].
Proof.
  apply (split_gives_back_train_and_test
           [ScriptExample.studio; ScriptExample.two_bed]
           [ScriptExample.unlabelled]).
  - intros x [<- | [<- | []]]; discriminate.
  - intros x [<- | []]. reflexivity.
Defined.

Lemma target_of_labelled (rows : list listing) :
  (forall x, In x rows -> interest_level_ x <> None) ->
  exists y, target rows = Some y /\
            List.length y = List.length rows /\
            forall n, In n y -> (n < 3)%nat.
Proof.
  induction rows as [| x rows IH]; intros H.
  - exists []. split; [reflexivity |]. split; [reflexivity |]. intros n [].
  - destruct IH as (ys & Hy & Hlen & Hcodes).
    { intros x' Hx'. apply H. right. exact Hx'. }
    assert (Hx : interest_level_ x <> None) by (apply H; left; reflexivity).
    destruct (interest_level_ x) as [l |] eqn:El; [| contradiction].
    exists (target_num_map l :: ys). split.
    + simpl. rewrite El, Hy. reflexivity.
    + split; [simpl; rewrite Hlen; reflexivity |].
      intros n [<- | Hn]; [destruct l; simpl; lia | apply Hcodes, Hn].
Qed.

(** X21: on the training rows split off any joint frame the lookup in
    [target_num_map] never raises: [y] has one code per training row,
    each of them 0, 1 or 2; and the two parts of the split together
    have the rows of the joint frame. *)
Theorem target_is_defined_on_the_training_rows :
  forall joint : list listing,
    (exists y : list nat,
       target (train_rows joint) = Some y /\
       List.length y = List.length (train_rows joint) /\
       forall n, In n y -> (n < 3)%nat) /\
    (List.length (train_rows joint) + List.length (test_rows joint)
     = List.length joint)%nat /\
    (target joint <> None <-> test_rows joint = []).
Proof.
  intros joint. split; [| split].
  - apply target_of_labelled. intros x Hx. unfold train_rows in Hx.
    apply filter_In in Hx. destruct Hx as [_ Hn].
    destruct (interest_level_ x); [discriminate | discriminate Hn].
  - unfold train_rows, test_rows.
    induction joint as [| x joint IH]; [reflexivity |].
    simpl. destruct (notnull (interest_level_ x)); simpl; lia.
  - unfold test_rows. induction joint as [| x joint IH].
    + simpl. split; [reflexivity | discriminate].
    + simpl. destruct (interest_level_ x) as [l |] eqn:El; simpl.
      * destruct (target joint) as [ys |].
        -- split; [intros _; apply IH; discriminate | discriminate].
        -- split; [intros H; contradiction |].
           intros H. exfalso. apply (proj2 IH H). reflexivity.
      * split; [intros H; contradiction | discriminate].
Qed.

End SplitBack.

(** ** get_importance *)

Section ImportanceFacts.

Import Script.
Local Open Scope Q_scope.

Lemma total_scaled (c k : Q) (xs : list Q) :
  total (map (fun q => q / c / k) xs) == total xs / c / k.
Proof.
  unfold Qdiv. induction xs as [| q xs IH]; simpl; [ring |].
  rewrite IH. ring.
Qed.

Lemma total_positive (xs : list Q) :
  xs <> [] -> (forall q, In q xs -> 0 < q) -> 0 < total xs.
Proof.
  induction xs as [| q xs IH]; [contradiction |].
  intros _ H. simpl.
  assert (Hq : 0 < q) by (apply H; left; reflexivity).
  destruct xs as [| q' xs]; [simpl; Lqa.lra |].
  assert (0 < total (q' :: xs)).
  { apply IH; [discriminate |]. intros z Hz. apply H. right. exact Hz. }
  Lqa.lra.
Qed.

Lemma total_ge_term (xs : list Q) (q : Q) :
  (forall z, In z xs -> 0 < z) -> In q xs -> q <= total xs.
Proof.
  induction xs as [| a xs IH]; intros H Hq; [destruct Hq |].
  simpl. assert (Ha : 0 < a) by (apply H; left; reflexivity).
  destruct xs as [| b xs].
  - destruct Hq as [-> | []]. simpl. Lqa.lra.
  - assert (Hpos : 0 < total (b :: xs)).
    { apply total_positive; [discriminate |].
      intros z Hz. apply H. right. exact Hz. }
    destruct Hq as [-> | Hq]; [Lqa.lra |].
    assert (q <= total (b :: xs)).
    { apply IH; [intros z Hz; apply H; right; exact Hz | exact Hq]. }
    Lqa.lra.
Qed.

Lemma descending_scaled (c k : Q) (xs : list Q) :
  0 < c -> 0 < k -> descending xs -> descending (map (fun q => q / c / k) xs).
Proof.
  intros Hc Hk. induction xs as [| x xs IH]; [intros _; exact I |].
  simpl. intros [Hlow Hdesc]. split; [| apply IH, Hdesc].
  intros y Hy. apply in_map_iff in Hy. destruct Hy as (z & <- & Hz).
  unfold Qdiv.
  apply Qmult_le_compat_r; [| apply Qlt_le_weak, Qinv_lt_0_compat, Hk].
  apply Qmult_le_compat_r; [| apply Qlt_le_weak, Qinv_lt_0_compat, Hc].
  apply Hlow, Hz.
Qed.

Lemma insert_desc_permutation p l :
  Permutation.Permutation (insert_desc p l) (p :: l).
Proof.
  induction l as [| q l IH]; simpl; [apply Permutation.Permutation_refl |].
  destruct (Qle_bool (snd q) (snd p)); [apply Permutation.Permutation_refl |].
  apply Permutation.perm_trans with (q :: p :: l).
  - apply Permutation.perm_skip, IH.
  - apply Permutation.perm_swap.
Qed.

Lemma sort_desc_permutation l : Permutation.Permutation (sort_desc l) l.
Proof.
  induction l as [| p l IH]; simpl; [apply Permutation.perm_nil |].
  apply Permutation.perm_trans with (p :: sort_desc l).
  - apply insert_desc_permutation.
  - apply Permutation.perm_skip, IH.
Qed.

(** X22: for scores that are all positive, whatever order the sort
    gives them, [get_importance] keeps the features in the order of the
    sort and turns their scores into shares in percent: positive
    numbers of at most 100 that add up to 100, descending if the sorted
    scores are. *)
Theorem get_importance_is_in_percent :
  forall (sort_values : list (string * Q) -> list (string * Q))
         (fscore : list (string * Q)),
    Permutation.Permutation (sort_values fscore) fscore ->
    fscore <> [] ->
    (forall p, In p fscore -> 0 < snd p) ->
    let importance := get_importance sort_values fscore in
    map fst importance = map fst (sort_values fscore) /\
    total (map snd importance) == 100 /\
    (forall p, In p importance -> 0 < snd p /\ snd p <= 100) /\
    (descending (map snd (sort_values fscore)) ->
     descending (map snd importance)).
Proof.
  intros sort_values fscore Hperm Hne Hpos importance.
  set (sorted := sort_values fscore) in *.
  set (s := total (map snd sorted)).
  assert (Hsorted_pos : forall q, In q (map snd sorted) -> 0 < q).
  { intros q Hq. apply in_map_iff in Hq. destruct Hq as (p & <- & Hp).
    apply Hpos. apply (Permutation.Permutation_in p Hperm Hp). }
  assert (Hsorted_ne : map snd sorted <> []).
  { intros Hnil. apply map_eq_nil in Hnil. rewrite Hnil in Hperm.
    apply Permutation.Permutation_nil in Hperm. contradiction. }
  assert (Hs : 0 < s) by (apply total_positive; assumption).
  assert (Hs0 : ~ s == 0) by (intros H0; rewrite H0 in Hs; discriminate Hs).
  assert (Hvalues : map snd importance
                    = map (fun q => q / (1 # 100) / s) (map snd sorted)).
  { unfold importance, get_importance. fold sorted. fold s.
    rewrite !map_map. reflexivity. }
  split; [| split; [| split]].
  - unfold importance, get_importance. rewrite map_map. reflexivity.
  - rewrite Hvalues, total_scaled. fold s. field. exact Hs0.
  - intros p Hp.
    assert (Hin : In (snd p) (map snd importance)) by (apply in_map, Hp).
    rewrite Hvalues in Hin. apply in_map_iff in Hin.
    destruct Hin as (q & <- & Hq).
    pose proof (Hsorted_pos q Hq) as Hq0.
    pose proof (total_ge_term _ q Hsorted_pos Hq) as Hle. fold s in Hle.
    assert (E : q / (1 # 100) / s == 100 * q / s) by (field; exact Hs0).
    rewrite E. split.
    + apply Qlt_shift_div_l; [exact Hs | Lqa.lra].
    + apply Qle_shift_div_r; [exact Hs | Lqa.lra].
  - intros Hdesc. rewrite Hvalues.
    apply descending_scaled; [reflexivity | exact Hs | exact Hdesc].
Qed.

End ImportanceFacts.

Lemma get_importance_is_in_percent_witness :
  let importance := Script.get_importance Script.sort_desc ScriptExample.fscore in
  map fst importance = map fst (Script.sort_desc ScriptExample.fscore) /\
  (Script.total (map snd importance) == 100)%Q /\
  (forall p, In p importance -> (0 < snd p)%Q /\ (snd p <= 100)%Q) /\
  (Script.descending (map snd (Script.sort_desc ScriptExample.fscore)) ->
   Script.descending (map snd importance)).
Proof.
  apply (get_importance_is_in_percent Script.sort_desc ScriptExample.fscore).
  - apply sort_desc_permutation.
  - discriminate.
  - intros p [<- | [<- | [<- | []]]]; reflexivity.
Defined.

(** ** ColumnExtractor *)

Section ColumnExtractorFacts.

Import Script.

Variable cell : Type.

Local Abbreviation frame := (frame cell).
Local Abbreviation columns_of := (columns_of cell).
Local Abbreviation getitem := (getitem cell).
Local Abbreviation transform := (ColumnExtractor_transform cell).

Lemma in_columns_of (X : frame) (f : string) (c : string * list cell) :
  In c (columns_of X f) <-> In c X /\ fst c = f.
Proof.
  unfold Script.columns_of. rewrite filter_In.
  split; intros [H1 H2]; (split; [exact H1 | apply String.eqb_eq, H2]).
Qed.

Lemma columns_of_nonempty (X : frame) (f : string) :
  columns_of X f <> [] <-> In f (map fst X).
Proof.
  split.
  - intros Hne. destruct (columns_of X f) as [| c cs] eqn:E; [contradiction |].
    assert (Hc : In c (columns_of X f)) by (rewrite E; left; reflexivity).
    apply in_columns_of in Hc. destruct Hc as [Hc <-]. apply in_map, Hc.
  - intros Hin Hnil. apply in_map_iff in Hin. destruct Hin as (c & Hf & Hc).
    assert (H : In c (columns_of X f)) by (apply in_columns_of; auto).
    rewrite Hnil in H. destruct H.
Qed.

Lemma getitem_some_iff (X : frame) (fields : list string) :
  getitem X fields <> None <->
  forall f, In f fields -> In f (map fst X).
Proof.
  induction fields as [| f fields IH]; simpl.
  - split; [intros _ f [] | discriminate].
  - split.
    + intros H g [<- | Hg].
      * apply columns_of_nonempty. intros Hnil. rewrite Hnil in H.
        apply H. reflexivity.
      * apply IH; [| exact Hg].
        destruct (getitem X fields); [discriminate |].
        destruct (columns_of X f); contradiction.
    + intros H.
      assert (Hf : columns_of X f <> [])
        by (apply columns_of_nonempty, H; left; reflexivity).
      assert (Hr : getitem X fields <> None)
        by (apply IH; intros g Hg; apply H; right; exact Hg).
      destruct (columns_of X f); [contradiction |].
      destruct (getitem X fields); [discriminate | contradiction].
Qed.

(** The columns selected are the columns of the frame that one of the
    fields names. *)
Lemma in_getitem (X Y : frame) (fields : list string) (c : string * list cell) :
  getitem X fields = Some Y ->
  (In c Y <-> In c X /\ In (fst c) fields).
Proof.
  revert Y. induction fields as [| f fields IH]; intros Y; cbn [Script.getitem].
  - intros H. injection H as <-. simpl. tauto.
  - destruct (columns_of X f) as [| c0 cs] eqn:E; [discriminate |].
    destruct (getitem X fields) as [rest |]; [| discriminate].
    intros H. apply some_eq in H. rewrite <- H, <- E.
    rewrite in_app_iff, in_columns_of, (IH rest eq_refl). simpl.
    split.
    + intros [[Hc Hf] | [Hc Hf]]; auto.
    + intros [Hc [Hf | Hf]]; auto.
Qed.

(** Among columns of distinct names a column is the only one of its
    name. *)
Lemma columns_of_unique (X : frame) (c : string * list cell) :
  NoDup (map fst X) -> In c X -> columns_of X (fst c) = [c].
Proof.
  unfold Script.columns_of.
  induction X as [| a X IH]; [intros _ [] |].
  simpl. intros Hnd Hin.
  inversion Hnd as [| n ns Hnot Hnd']. subst.
  destruct Hin as [-> | Hin].
  - rewrite String.eqb_refl. f_equal.
    clear IH Hnd Hnd'. induction X as [| b X IHX]; [reflexivity |].
    simpl. destruct (String.eqb_spec (fst b) (fst c)) as [E | _].
    + exfalso. apply Hnot. left. exact E.
    + apply IHX. intros H. apply Hnot. right. exact H.
  - destruct (String.eqb_spec (fst a) (fst c)) as [E | _].
    + exfalso. apply Hnot. rewrite E. apply in_map, Hin.
    + apply IH; assumption.
Qed.

Lemma getitem_names (X Y : frame) (fields : list string) :
  NoDup (map fst X) -> getitem X fields = Some Y -> map fst Y = fields.
Proof.
  intros Hnd. revert Y.
  induction fields as [| f fields IH]; intros Y; cbn [Script.getitem].
  - intros H. injection H as <-. reflexivity.
  - destruct (columns_of X f) as [| c cs] eqn:E; [discriminate |].
    destruct (getitem X fields) as [rest |]; [| discriminate].
    intros H. apply some_eq in H. rewrite <- H.
    assert (Hc : In c (columns_of X f)) by (rewrite E; left; reflexivity).
    apply in_columns_of in Hc. destruct Hc as [Hc Hf].
    rewrite <- Hf, (columns_of_unique X c Hnd Hc) in E.
    injection E as <-. simpl. rewrite (IH rest eq_refl), Hf. reflexivity.
Qed.

Lemma getitem_again (X Y : frame) (fields g : list string) :
  NoDup (map fst X) -> NoDup fields ->
  getitem X fields = Some Y -> (forall f, In f g -> In f fields) ->
  getitem Y g = getitem X g.
Proof.
  intros HndX Hnd HY.
  assert (HndY : NoDup (map fst Y))
    by (rewrite (getitem_names X Y fields HndX HY); exact Hnd).
  assert (Hfields : forall f, In f fields -> In f (map fst X)).
  { apply getitem_some_iff. rewrite HY. discriminate. }
  induction g as [| f g IH]; intros Hsub; [reflexivity |].
  simpl.
  assert (Hf : In f fields) by (apply Hsub; left; reflexivity).
  assert (E : columns_of Y f = columns_of X f).
  { specialize (Hfields f Hf). apply in_map_iff in Hfields.
    destruct Hfields as (c & <- & Hc).
    rewrite (columns_of_unique X c HndX Hc).
    apply columns_of_unique; [exact HndY |].
    apply (in_getitem X Y fields c HY). auto. }
  rewrite E, IH by (intros f' Hf'; apply Hsub; right; exact Hf').
  reflexivity.
Qed.

(** X23: [ColumnExtractor.transform] returns exactly when every field
    of the instance names a column of the frame, and raises otherwise.
    The columns of the frame it returns are the columns of the frame
    that a field names, and the instance is unchanged.  For a frame of
    distinct column names the result has the fields as its columns, in
    their order; and then, for fields without repetition, selecting
    some of them from the result gives what selecting them from the
    frame gives. *)
Theorem column_extractor_selects_the_fields :
  forall (X : frame) (fields : list string),
    (transform X fields <> None <->
     forall f, In f fields -> In f (map fst X)) /\
    forall (Y : frame) (fields' : list string),
      transform X fields = Some (Y, fields') ->
      fields' = fields /\
      (forall c, In c Y <-> In c X /\ In (fst c) fields) /\
      (NoDup (map fst X) ->
       map fst Y = fields /\
       (NoDup fields ->
        forall g, (forall f, In f g -> In f fields) ->
          getitem Y g = getitem X g)).
Proof.
  intros X fields.
  assert (Hrun : transform X fields
                 = match getitem X fields with
                   | Some Y => Some (Y, fields)
                   | None => None
                   end).
  { unfold ColumnExtractor_transform, bind, gets.
    destruct (getitem X fields); reflexivity. }
  split.
  - rewrite Hrun, <- getitem_some_iff.
    destruct (getitem X fields); split; intros H; try discriminate;
      exfalso; apply H; reflexivity.
  - intros Y fields' H. rewrite Hrun in H.
    destruct (getitem X fields) as [Y0 |] eqn:E; [| discriminate].
    injection H as <- <-.
    split; [reflexivity |].
    split; [intros c; apply (in_getitem X Y0 fields c E) |].
    intros HndX. split; [apply (getitem_names X Y0 fields HndX E) |].
    intros Hnd g Hsub. apply (getitem_again X Y0 fields g HndX Hnd E Hsub).
Qed.

End ColumnExtractorFacts.

Lemma example_table_names : NoDup (map fst ScriptExample.table).
Proof.
  repeat constructor; simpl; intuition discriminate.
Qed.

Lemma column_extractor_selects_the_fields_witness :
  Script.ColumnExtractor_transform nat ScriptExample.table
    ["listing_id"%string; "price"%string] <> None /\
  Script.ColumnExtractor_transform nat ScriptExample.table
    ["listing_id"%string; "prize"%string] = None /\
  forall (Y : Script.frame nat) (fields' : list string),
    Script.ColumnExtractor_transform nat ScriptExample.table
      ["listing_id"%string; "price"%string] = Some (Y, fields') ->
    map fst Y = ["listing_id"%string; "price"%string].
Proof.
  split; [| split].
  - apply (proj1 (column_extractor_selects_the_fields nat ScriptExample.table
                    ["listing_id"%string; "price"%string])).
    intros f [<- | [<- | []]]; simpl; auto.
  - reflexivity.
  - intros Y fields' H.
    apply (proj2 (column_extractor_selects_the_fields nat ScriptExample.table
                    ["listing_id"%string; "price"%string]) Y fields' H).
    exact example_table_names.
Defined.

(** ** The names of the files of a submission *)

Section SubmissionNames.

Import Submission.
Local Open Scope string_scope.

Local Abbreviation occurrences := Script.occurrences.
Local Abbreviation underscore := Script.underscore.

Lemma occurrences_append c a b :
  occurrences c (a ++ b) = (occurrences c a + occurrences c b)%nat.
Proof.
  induction a as [| x a IH]; [reflexivity |].
  simpl. rewrite IH. lia.
Qed.

Lemma string_of_uint_has_no_underscore (d : Decimal.uint) :
  occurrences underscore (NilEmpty.string_of_uint d) = 0%nat.
Proof. induction d; simpl; try reflexivity; exact IHd. Qed.

Lemma decimal_has_no_underscore (n : nat) :
  occurrences underscore (decimal n) = 0%nat.
Proof.
  unfold decimal, NilZero.string_of_uint.
  destruct (Nat.to_uint n); try reflexivity;
    apply (string_of_uint_has_no_underscore (_ u)).
Qed.

Lemma format_0_4f_has_no_underscore (score : Q) :
  occurrences underscore (format_0_4f score) = 0%nat.
Proof.
  unfold format_0_4f, digit.
  rewrite !occurrences_append, !decimal_has_no_underscore.
  destruct (Qnum score <? 0)%Z; reflexivity.
Qed.

Lemma append_assoc (a b c : string) : (a ++ b) ++ c = a ++ (b ++ c).
Proof. induction a as [| x a IH]; simpl; [reflexivity | rewrite IH; reflexivity]. Qed.

Lemma append_left_cancel (p a b : string) : p ++ a = p ++ b -> a = b.
Proof.
  induction p as [| x p IH]; simpl; [auto |].
  intros H. injection H as H. apply IH, H.
Qed.

Lemma append_right_cancel (a b s : string) : a ++ s = b ++ s -> a = b.
Proof.
  revert b. induction a as [| x a IH]; intros [| y b] H.
  - reflexivity.
  - exfalso. apply (f_equal String.length) in H.
    simpl in H. rewrite length_append in H. lia.
  - exfalso. apply (f_equal String.length) in H.
    simpl in H. rewrite length_append in H. lia.
  - simpl in H. injection H as -> H. f_equal. apply IH, H.
Qed.

(** The text before the first occurrence of a character is determined
    by the whole. *)
Lemma append_at_char c a1 a2 b1 b2 :
  occurrences c a1 = 0%nat -> occurrences c a2 = 0%nat ->
  a1 ++ String c b1 = a2 ++ String c b2 -> a1 = a2 /\ b1 = b2.
Proof.
  revert a2. induction a1 as [| x a1 IH]; intros [| y a2]; simpl.
  - intros _ _ H. injection H as H. auto.
  - intros _ H2 H. injection H as <- _. rewrite Ascii.eqb_refl in H2.
    discriminate H2.
  - intros H1 _ H. injection H as -> _. rewrite Ascii.eqb_refl in H1.
    discriminate H1.
  - intros H1 H2 H. injection H as -> H.
    destruct (Ascii.eqb y c); [discriminate H1 |].
    destruct (IH a2 H1 H2 H) as [-> ->]. auto.
Qed.

Lemma scrstr_injective s1 s2 n1 n2 suffix :
  (scrstr s1 n1 ++ suffix = scrstr s2 n2 ++ suffix) <->
  format_0_4f s1 = format_0_4f s2 /\ strftime n1 = strftime n2.
Proof.
  unfold scrstr. split.
  - intros H. apply append_right_cancel in H.
    change ("_" ++ strftime n1) with (String underscore (strftime n1)) in H.
    change ("_" ++ strftime n2) with (String underscore (strftime n2)) in H.
    apply append_at_char in H; [exact H | |]; apply format_0_4f_has_no_underscore.
  - intros [-> ->]. reflexivity.
Qed.

(** X24: two calls of [create_submission] name their model files alike
    exactly when the scores print alike with four decimals and the
    clocks print the same stamp, and so for their CSV files; the stamp
    is the same whenever the clocks agree up to the minute, whatever
    their seconds. *)
Theorem submission_names_depend_on_printed_score_and_minute :
  forall (s1 s2 : Q) (n1 n2 : datetime),
    (mod_file s1 n1 = mod_file s2 n2 <->
     format_0_4f s1 = format_0_4f s2 /\ strftime n1 = strftime n2) /\
    (sub_file s1 n1 = sub_file s2 n2 <->
     format_0_4f s1 = format_0_4f s2 /\ strftime n1 = strftime n2) /\
    (year n1 = year n2 -> month n1 = month n2 -> day n1 = day n2 ->
     hour n1 = hour n2 -> minute n1 = minute n2 ->
     strftime n1 = strftime n2).
Proof.
  intros s1 s2 n1 n2. split; [| split].
  - rewrite <- (scrstr_injective s1 s2 n1 n2 ".model").
    unfold mod_file, ouDir.
    change (("../output/" ++ ".model_") ++ scrstr s1 n1)
      with ("../output/.model_" ++ scrstr s1 n1).
    change (("../output/" ++ ".model_") ++ scrstr s2 n2)
      with ("../output/.model_" ++ scrstr s2 n2).
    rewrite !append_assoc. split.
    + apply append_left_cancel.
    + intros ->. reflexivity.
  - rewrite <- (scrstr_injective s1 s2 n1 n2 ".csv").
    unfold sub_file, ouDir.
    change (("../output/" ++ "submit_") ++ scrstr s1 n1)
      with ("../output/submit_" ++ scrstr s1 n1).
    change (("../output/" ++ "submit_") ++ scrstr s2 n2)
      with ("../output/submit_" ++ scrstr s2 n2).
    rewrite !append_assoc. split.
    + apply append_left_cancel.
    + intros ->. reflexivity.
  - intros Hy Hm Hd Hh Hmin. unfold strftime.
    rewrite Hy, Hm, Hd, Hh, Hmin. reflexivity.
Qed.

End SubmissionNames.

(** ** The further properties at the small frames *)

Section MoreInstances.

Import CategoricalTransformer.
Local Open Scope R_scope.

Lemma example_first_row : In Example.first_row Example.mapping_after_fit.
Proof. left. reflexivity. Qed.

Lemma fit_draws_two_numbers_per_category_witness :
  draws (np_random Example.w_after_fit) = draws (np_random Example.w) /\
  position (np_random Example.w_after_fit)
  = (position (np_random Example.w)
     + 2 * List.length (categories fst snd Example.X))%nat /\
  threshold (self Example.w_after_fit) = threshold (self Example.w) /\
  column_name (self Example.w_after_fit) = column_name (self Example.w).
Proof.
  apply (fit_draws_two_numbers_per_category fst snd Example.X Example.w
           Example.w_after_fit).
  exact example_fit_returns.
Defined.

Lemma mapping_has_one_row_per_seen_category_witness :
  exists mapping : list mapping_row,
    mapping_ (self Example.w_after_fit) = Some mapping /\
    ascending (map category mapping) /\
    NoDup (map category mapping) /\
    (forall c : Z, In c (map category mapping) <-> seen fst snd Example.X c).
Proof.
  apply (mapping_has_one_row_per_seen_category fst snd Example.X Example.w
           Example.w_after_fit).
  exact example_fit_returns.
Defined.

Lemma global_shares_are_label_fractions_or_zero_witness :
  let labelled :=
    List.length (filter (fun x => notnull (snd x)) Example.X) in
  (0 < labelled)%nat /\
  (~ complete fst snd Example.X ->
   glob_high (self Example.w_after_fit)
   = Some (INR (List.length (filter (has_level snd high) Example.X))
           / INR labelled) /\
   glob_med (self Example.w_after_fit)
   = Some (INR (List.length (filter (has_level snd medium) Example.X))
           / INR labelled)) /\
  (complete fst snd Example.X ->
   glob_high (self Example.w_after_fit) = Some 0 /\
   glob_med (self Example.w_after_fit) = Some 0).
Proof.
  apply (global_shares_are_label_fractions_or_zero fst snd Example.X Example.w
           Example.w_after_fit).
  exact example_fit_returns.
Defined.

Lemma transform_returns_one_row_per_input_row_witness :
  exists out : list out_row,
    transform fst Example.Xt Example.w_after_fit
    = Some (out, Example.w_after_fit) /\
    map row out = Example.Xt /\
    List.length out = List.length Example.Xt.
Proof.
  apply (transform_returns_one_row_per_input_row fst snd Example.X Example.w
           Example.w_after_fit Example.Xt).
  exact example_fit_returns.
Defined.

Lemma seen_category_gets_stored_statistics_witness :
  transform fst [(1%Z, @None interest_level)] Example.w_after_fit
  = Some ([{| row := (1%Z, None);
              out_w_high := w_high Example.first_row;
              out_w_med := w_med Example.first_row |}],
          Example.w_after_fit).
Proof.
  apply (seen_category_gets_stored_statistics fst snd Example.X Example.w
           Example.w_after_fit Example.mapping_after_fit Example.first_row
           (1%Z, None)).
  - exact example_fit_returns.
  - exact example_mapping.
  - exact example_first_row.
  - reflexivity.
Defined.

Lemma fit_forgets_the_previous_fit_witness :
  mapping_ (self Example.w_after_fit)
  = mapping_ (self (fitted Example.w_refit Example.tmp)) /\
  glob_high (self Example.w_after_fit)
  = glob_high (self (fitted Example.w_refit Example.tmp)) /\
  glob_med (self Example.w_after_fit)
  = glob_med (self (fitted Example.w_refit Example.tmp)) /\
  np_random Example.w_after_fit
  = np_random (fitted Example.w_refit Example.tmp) /\
  glob_low (self Example.w_after_fit)
  = match mapping_ (self Example.w) with
    | Some _ => Some 0
    | None => glob_low (self Example.w)
    end.
Proof.
  apply (fit_forgets_the_previous_fit fst snd Example.X Example.w
           Example.w_refit Example.w_after_fit
           (fitted Example.w_refit Example.tmp)).
  - reflexivity.
  - reflexivity.
  - exact example_fit_returns.
  - exact example_refit_returns.
Defined.

Lemma stored_statistics_add_up_below_1005_witness :
  0 <= w_high Example.first_row /\ 0 <= w_med Example.first_row /\
  w_high Example.first_row + w_med Example.first_row < 1.005.
Proof.
  apply (stored_statistics_add_up_below_1005 fst snd Example.X Example.w
           Example.w_after_fit Example.mapping_after_fit Example.first_row).
  - exact example_uniform.
  - exact example_fit_returns.
  - exact example_mapping.
  - exact example_first_row.
Defined.

End MoreInstances.

Section MoreManagerInstances.

Import ManagerSkill.
Local Open Scope Q_scope.

Lemma manager_skill_lies_in_0_2_witness :
  (forall v, mean_skill_ Example.skill_fitted = Some (Some v) -> 0 <= v <= 2) /\
  exists out : list float,
    transform Example.manager_id Example.managers_to_transform
      Example.skill_fitted
    = Some (out, Example.skill_fitted) /\
    forall v, In (Some v) out -> 0 <= v <= 2.
Proof.
  apply (manager_skill_lies_in_0_2 Example.index Example.y_index
           Example.manager_id Example.first_column Example.managers Example.y
           Example.skill_2 Example.skill_fitted Example.managers_to_transform).
  - reflexivity.
  - exact example_manager_fit.
Defined.

Lemma frequent_manager_gets_own_skill_witness :
  (forall v,
     own_skill Example.index Example.y_index Example.manager_id
       Example.managers Example.y 1%Z = Some v ->
     transform Example.manager_id [(0%Z, 1%Z, true)] Example.skill_fitted
     = Some ([Some v], Example.skill_fitted)) /\
  (own_skill Example.index Example.y_index Example.manager_id
     Example.managers Example.y 1%Z = None ->
   exists mean, mean_skill_ Example.skill_fitted = Some mean /\
     transform Example.manager_id [(0%Z, 1%Z, true)] Example.skill_fitted
     = Some ([mean], Example.skill_fitted)) /\
  ((forall x', In x' Example.managers ->
      at_label Example.y_index Example.y (Example.index x') <> None) ->
   own_skill Example.index Example.y_index Example.manager_id
     Example.managers Example.y 1%Z <> None).
Proof.
  apply (frequent_manager_gets_own_skill Example.index Example.y_index
           Example.manager_id Example.first_column Example.managers Example.y
           Example.skill_2 Example.skill_fitted (0%Z, 1%Z, true)).
  - exact example_index_distinct.
  - exact example_y_index_distinct.
  - exact example_manager_fit.
  - left. reflexivity.
  - vm_compute. discriminate.
Defined.

Lemma manager_skill_is_nan_iff_no_manager_reaches_threshold_witness :
  exists (mean : float) (out : list float),
    mean_skill_ Example.skill_fitted = Some mean /\
    (mean = None <->
     forall m, In m (map Example.manager_id Example.managers) ->
       threshold Example.skill_2
       <= count Example.manager_id Example.first_column Example.managers m ->
       labels_of Example.index Example.y_index Example.manager_id
         Example.managers Example.y m = []) /\
    ((forall x, In x Example.managers ->
        at_label Example.y_index Example.y (Example.index x) <> None) ->
     (mean = None <->
      forall m, In m (map Example.manager_id Example.managers) ->
        count Example.manager_id Example.first_column Example.managers m
        < threshold Example.skill_2)) /\
    transform Example.manager_id Example.managers_to_transform
      Example.skill_fitted
    = Some (out, Example.skill_fitted) /\
    forall o, In o out -> (o = None <-> mean = None).
Proof.
  apply (manager_skill_is_nan_iff_no_manager_reaches_threshold Example.index
           Example.y_index Example.manager_id Example.first_column
           Example.managers Example.y Example.skill_2 Example.skill_fitted
           Example.managers_to_transform).
  - exact example_index_distinct.
  - exact example_y_index_distinct.
  - exact example_manager_fit.
Defined.

End MoreManagerInstances.

Lemma submission_names_depend_on_printed_score_and_minute_witness :
  let early := {| Submission.year := 2017; Submission.month := 4;
                  Submission.day := 1; Submission.hour := 13;
                  Submission.minute := 5; Submission.second := 1;
                  Submission.microsecond := 0 |} in
  let late := {| Submission.year := 2017; Submission.month := 4;
                 Submission.day := 1; Submission.hour := 13;
                 Submission.minute := 5; Submission.second := 59;
                 Submission.microsecond := 0 |} in
  Submission.mod_file (54321 # 100000) early
  = Submission.mod_file (54322 # 100000) late.
Proof.
  intros early late.
  apply (proj1 (submission_names_depend_on_printed_score_and_minute
                  (54321 # 100000) (54322 # 100000) early late)).
  split; [reflexivity |].
  apply (proj2 (proj2 (submission_names_depend_on_printed_score_and_minute
                         (54321 # 100000) (54322 # 100000) early late)));
    reflexivity.
Defined.

(** ** Days since the first listing *)

Section PassedDays.

Import Script.
Local Open Scope Z_scope.

Lemma fold_min_le (c : Z) (cs : list Z) :
  fold_right Z.min c cs <= c /\ forall x, In x cs -> fold_right Z.min c cs <= x.
Proof.
  induction cs as [| a cs [IHc IHx]]; simpl.
  - split; [lia | intros x []].
  - split; [lia |]. intros x [<- | Hx]; [lia |].
    specialize (IHx x Hx). lia.
Qed.

Lemma fold_min_in (c : Z) (cs : list Z) : In (fold_right Z.min c cs) (c :: cs).
Proof.
  induction cs as [| a cs IH]; simpl; [auto |].
  destruct (Z.min_spec a (fold_right Z.min c cs)) as [[_ ->] | [_ ->]].
  - right. left. reflexivity.
  - destruct IH as [IH | IH]; [left; exact IH | right; right; exact IH].
Qed.

(** X25: [passed_days] has one cell per listing, none of them
    negative; a listing created at the earliest time of the frame has
    0, and a listing created later than another never has fewer days. *)
Theorem passed_days_start_at_zero :
  forall created : list Z,
    List.length (passed_days created) = List.length created /\
    (forall d, In d (passed_days created) -> 0 <= d) /\
    (created <> [] -> In 0 (passed_days created)) /\
    (forall i j a b da db,
       nth_error created i = Some a -> nth_error created j = Some b ->
       nth_error (passed_days created) i = Some da ->
       nth_error (passed_days created) j = Some db ->
       a <= b -> da <= db).
Proof.
  intros [| c cs]; unfold passed_days; cbn [earliest].
  - split; [reflexivity |]. split; [intros d [] |].
    split; [intros H; contradiction |].
    intros i j a b da db H. destruct i; discriminate H.
  - set (first := fold_right Z.min c cs).
    destruct (fold_min_le c cs) as [Hc Hcs]. fold first in Hc, Hcs.
    assert (Hall : forall x, In x (c :: cs) -> first <= x).
    { intros x [<- | Hx]; [exact Hc | apply Hcs, Hx]. }
    split; [rewrite length_map; reflexivity |].
    split; [| split].
    + intros d Hd. apply in_map_iff in Hd. destruct Hd as (x & <- & Hx).
      apply Z.div_pos; [specialize (Hall x Hx); lia | reflexivity].
    + intros _. apply in_map_iff. exists first. split.
      * rewrite Z.sub_diag. reflexivity.
      * apply fold_min_in.
    + intros i j a b da db Ha Hb Hda Hdb Hab.
      rewrite nth_error_map, Ha in Hda. rewrite nth_error_map, Hb in Hdb.
      simpl in Hda, Hdb. injection Hda as <-. injection Hdb as <-.
      apply Z.div_le_mono; [reflexivity | lia].
Qed.

End PassedDays.
